(* ===== verification/_CoqProject ===== *)
-Q . S2P
Prelude.v
CLib.v
Preprocessor.v
Machine.v
Lexer.v
Labels.v
Instructions.v
Directives.v
Parser.v
Serializer.v
Driver.v
Runs.v
