(* ===== verification/Prelude.v ===== *)
(** * A verification development of the assembler of src/

    ** The program

    The repository is a C assembler for a machine with 16 mnemonics and
    12-bit words.  [main] (src/main.c) runs the macro preprocessor
    (src/preprocessor.c) on each [.as] file, then reads the expanded [.am]
    file with [fgets] into an 81-byte buffer and feeds each line to
    [parseLine] (src/parser.c).  [parseLine] tokenizes with [getNextToken],
    hands a leading label declaration to [parseLabel] (src/labels.c), and
    dispatches to the instruction encoders (src/instructions.c) or the
    directive encoders (src/directives.c).  All of them write [machine_word]
    records (src/utils.h) into a code image and a data image at the counters
    [IC] and [DC], and the label table is a linked list.  [main] ORs the
    failures of the lines into [ERROR_FOUND]; when it stays false,
    [writeFiles] (src/writeFiles.c) packs each word into 12 bits, prints it
    as two base-64 characters and writes the .obj, .ent and .ext files.

    ** Files, and what they model

    - [Prelude] (this file): the outcome monad (a result, a call of [exit],
      or fuel running out) with its notation [x <- c ;; k] in [asm_scope];
      total maps [zmap] over [Z] for the C arrays, which the code indexes
      with negative ints too; bit fields of an unsigned storage unit
      ([field_get], [field_set]); [lor_aligned]; the [asm] hint databases and
      the tactics [case_if], [case_if_in], [terminates_auto].
    - [CLib]: the C library functions the sources call ([isspace],
      [isdigit], [isalpha], [strlen], [strcmp], [strchr], [atoi], [%d]), from
      the C standard, and [fgets] ([fgets_line], [fgets_lines]), [strstr],
      [strspn] and [sscanf("%s")] as the preprocessor uses them; a char
      buffer is a [list ascii] whose C string is its prefix up to the first
      NUL.  Not code of the repository.
    - [Preprocessor] (Module [Preprocessor]): preprocessor.c/.h.  The
      locals of [processSourceFile] that outlive a line are the record
      [pp_state] (with the text written to the [.am] file); [processLine] is
      the body of its loop, [processLines] the loop; the macro table
      ([MacroTable]) with [initializeMacroTable], [trimWhitespace],
      [findMacro], [isValidMacroName], [addMacro].  [None] is undefined
      behaviour, among it the [strcpy] of [findMacro] from a buffer of
      [MAX_LINE_LEN] (81) bytes that holds no NUL ([strcpy_fits] of
      [CLib]).  The file also states the contract of a preprocessor
      ([item], [render], [expand], [wf_items]) against which C17 is proved.
    - [Machine]: src/utils.h.  [Token] with the union of its string and its
      int ([store_integer] writes the int's little-endian bytes over the
      string); [label]; [machine_word] with its union of bit fields kept as
      one storage unit [mw_bits], fields laid out as GCC lays them out on
      x86-64 (first field in the low bits), and the separate [line_number]
      int of a data word.  [indet] gathers the values the code reads without
      defining them (see Conventions).
    - [Lexer] (Module [Lexer]): parser.c [isLineTooLong], [isNumber],
      [skipSpaces], [getNextToken] (split into [take_word], [classify_word],
      [classify]); labels.c [isValidLabel], [legalLabelName]; the tables
      [instructions] and [directives].
    - [Labels] (Module [Labels]): labels.c [createLabelTable], [match],
      [findLabel], [insertLabel], [createLabel], [parseLabel]; the table is a list, most recent first.
    - [Instructions] (Module [Instructions]): instructions.c [findOpcode],
      [isRegister], [parseTwoOperands], [parseOneOperand],
      [parseNoOperands].  The loop shared by the first two is
      [operands_loop], with the loop body of each as a parameter.
    - [Directives] (Module [Directives]): the state [asm_state] (the locals
      of [main]: the two images, the table, [IC], [DC]) and directives.c
      [parseDirectiveData], [parseDirectiveString], [parseDirectiveExtEnt],
      [parseDirective].
    - [Parser] (Module [Parser]): parser.c [parseLine] and [dispatch] (its
      switch); main.c's reading loop: [fgets_line], [fgets_lines],
      [parseLines], [assembleFile].
    - [Serializer] (Module [Serializer]): writeFiles.c [convertToBinary],
      [binaryToBase64], [printBinaryRepresentation], [convertArrays],
      [writeLabelFiles],
      [generateOutputFileNames], [writeFiles]; a file is the text written
      to it.
    - [Driver] (Module [Driver]): main.c.  The files and the standard
      output are a [world]; [process_file] is one turn of the loop of
      [main] over [argv] (the [.as] test, [generateIntermediateFileName],
      the call of the preprocessor through [run_preprocessor], the [.am]
      file read back and assembled by [finish_file], the label names
      printed, [writeFiles("output.am", ...)]); [main_loop] and [main]
      compose the turns, and [loop_step] is the same loop as a step
      relation.  Also parser.c [printError] and [printWarning] as the text
      they print.
    - [Runs] (Module [Runs]): runs of the loop of [main]: the message
      printed for each argument ([handled_message]), and
      [assemble_sources], the specification of a run over several sources
      that follow the preprocessor's contract.

    Each operation is a function of the state it reads to the state it
    writes: a C pointer argument ([int *IC], [char **line]) becomes an
    argument and a component of the result; the images are [zmap]s, so a
    write at [codeImage[*IC - 2]] is a write at index [IC - 2].

    ** What is proved (claims C1-C40 of the manifest)

    - Instruction encoding ([Instructions]): for [op @rA,@rD] every operand
      word lands on the first word at [IC] and leaves a register word
      without opcode or source register (C1); [mov A B] without a comma is
      accepted (C7); [inc] without operand is accepted with [IC] unchanged
      (C8); an accepted two-operand instruction advances [IC] by two within
      the memory bound (C16).
    - Labels ([Parser], [Lexer]): a declaration [X:] inserts [X] at [IC]
      even when [X] is already defined, and whatever directive follows
      (C2); [.extern X] makes [X] both external and entry (C6); [mov:] is
      a valid declaration (C9); the table only grows over a file (C13).
    - Data ([Directives]): [.data] stores the code of the token type
      [NUMBER] (5), not the numbers (C3), and stops at [MAX_FILE_SIZE] =
      100 words (C14); [.string] stores ["end of line"] and a terminator
      whatever the string (C4).
    - Lexer: an immediate [n] is read back as the digit of its low byte or
      0 (C5).
    - Output ([Serializer]): the layout of a packed first word (C10); the
      base-64 code of a 12-bit word decodes back to it (C11); the .obj
      line of word [2 j] shows the code of word [j] (C32); [writeLabelFiles]
      is the reference definition by filters, so an [.extern] label goes
      to the .ent file only (C40); an instruction with one label operand
      ([jmp L]) writes its label word over its first word, and that word
      packs to 0 whatever the table, so neither the opcode nor the
      address reaches the object file (C34); the base-64 strings hold [2 * IC] and
      [2 * DC] characters, past the 1024 bytes of [codeImage64] from
      [IC = 512] on (C12, bounds); the digits [printBinaryRepresentation]
      prints are the word's twelve low bits.
    - Bounds of the encoders ([Instructions], with [in_array] and
      [only_differ] of [Machine]): [op @rA,@rD] also writes the words
      [IC - 1], [IC - 2] and [IC + 2], outside the array at [IC = 0], and
      no word outside [IC - 2 .. IC + 2] (C29).
    - The driver ([Parser]): every file is handled to its end or to an
      [exit] ([assembleFile_terminates]); [IC] and [DC] never decrease over a file (C37, an
      invariant of [parseLines] built from one lemma per encoder); the lines [fgets] returns cover the file and none is
      too long for [isLineTooLong] (C15).
    - The preprocessor ([Preprocessor]): on every source that follows the
      contract, the text written is the expansion of its macro calls
      (C17, a refinement: step lemmas per kind of line composed by
      induction on the source); [findMacro] copies the name into its
      81-byte buffer, undefined when it does not fit, and is then
      [list_find] (C19); the result of [trimWhitespace] is trimmed (C20);
      a line of at most 80 characters has undefined behaviour only at the
      [endmcro] of an eleventh or an empty macro, or when [findMacro]
      copies a [macroName] or [trimmedLine] buffer holding no string of at
      most 80 characters (C21); a first line of spaces, or [mcro] without
      a name, copies the uninitialised [trimmedLine] or [macroName], which
      is undefined behaviour when that buffer holds no NUL (C18, error);
      a comment joins its line to the next (C22); a line of spaces expands
      the last macro called again (C23); the name of a macro is the word at
      offset 4 of any line containing [mcro] (C30); only the first word of
      a line is looked up, and a call drops the rest of its line (C31);
      the table never holds more than its ten slots (C33, an invariant of
      [processLines]).
    - The program ([Driver]): [main] never runs out of fuel (C24); the label table only
      grows along every run of the loop, across files (C25, by induction
      on [rtc loop_step]); a missing source still rewrites the output files
      from the earlier files' state (C26); [generateIntermediateFileName]
      replaces what follows the last dot by [am], and its static buffer of
      76 bytes is overrun exactly when the name, or the cut name with
      [.am], has 76 characters or more (C27); a turn writes
      no file but its [.am] file and [output.obj/.ext/.ent] (C28).
    - Runs ([Runs]): a run returning 0 has printed the message
      of every argument, in order (C35); on several sources of the
      contract [main] is [assemble_sources] (C36, refinement composing
      C17's lemmas with the parser, since no turn writes a file named
      [.as]); a file with a failing line writes
      no output file but passes its state on (C38); an [exit] in the first
      file ends [main] before the later files are read (C39).
    Each theorem with hypotheses has a witness [<name>_witness] evaluated on
    a concrete line, on the image [blank_image] and the values [ex_indet],
    or on the sample source [sample_items] and the world [world0].

    ** Fuel

    Loops whose exit the code does not bound structurally take a fuel
    argument and return [OutOfFuel] when it runs out.  [operands_loop]
    gets one more round than the line has characters (every round but the
    last consumes a character, the last reads [END]); [data_loop] and
    [no_operands_loop] get two more (their last token is read in the
    round before the one that stops); the [.entry]/[.extern] loop gets
    four rounds (its counter stops it after three); [fgets_lines] gets
    one more round than the file has characters, in [processSourceFile]
    as in [assembleFile].  The lemmas
    [*_terminates] and [fgets_lines_cover] show that these bounds are never
    reached; [assembleFile_terminates] composes them.

    ** Conventions

    Code that reads an indeterminate value is modelled by taking that value
    as an argument (the record [indet]), so that every theorem holds for
    every value it may have: the bytes at [name + ':'] probed by
    [createLabel], the uninitialised [nextToken] of [parseLabel], and the
    int [*(IC + *DC)] of the loop condition of [parseTwoOperands]; the
    buffers [macroName] and [trimmedLine] of [processSourceFile] (any
    bytes, whose C string is read up to the first NUL, undefined when
    there is none among the 81 bytes: C18, C21) and the arrays of [main]
    (the record [main_env]).  The image is a total
    function on [Z], so a write at an index outside [0 .. 1023] (C29) is
    kept and can be stated; [in_array] says which indices the C array
    has.

    ** Not modelled

    - Writes past the end of a C buffer are undefined behaviour, which
      the [outcome] monad cannot express: a word of more than 31
      characters copied into the 32-byte token string, and [codeImage64]
      of 1024 bytes holding [2 * IC] characters.  The model keeps the
      whole value; C12 states the length that overruns the array.  In
      the preprocessor and in [generateIntermediateFileName], whose
      results are options, [None] stands for the overrun.
    - [fclose], [freeMacroTable] and the failure of [fopen] for writing
      or of [malloc]/[realloc]: every write and allocation succeeds.
    - The messages printed by the lexer, the label code, the encoders and
      the preprocessor (their effect on the state is modelled, the text
      is not) and the debugging [printf]s of [convertArrays]:
      terminal output only.  [main]'s own messages are modelled.
    - When [generateOutputFileNames] rejects a name, the C code goes on
      with uninitialised name buffers; [writeFiles] returns [None] there.
    - The header files (src/*.h) beyond the types and constants they
      define ([Macro], [MacroTable], [LENGTH_OF_MCRO], utils.h): their
      prototypes and doc comments have no behaviour of their own. *)

From Stdlib Require Import ZArith List Ascii String Lia.
From stdpp Require Import base decidable.
Import ListNotations.

Declare Scope asm_scope.
Delimit Scope asm_scope with asm.
Open Scope Z_scope.

(** ** Outcomes

    A C function of the program either returns, or calls [exit] (which ends
    the process: nothing more is written), or, in this model only, runs out
    of the fuel that bounds a loop.  The termination theorems of the loops
    show that the fuel each caller supplies is never exhausted. *)
Inductive outcome (A : Type) : Type :=
| Ok (a : A)
| Exit (status : Z)
| OutOfFuel.
Arguments Ok {A} a.
Arguments Exit {A} status.
Arguments OutOfFuel {A}.

Definition obind {A B : Type} (c : outcome A) (k : A -> outcome B) : outcome B :=
  match c with
  | Ok a => k a
  | Exit s => Exit s
  | OutOfFuel => OutOfFuel
  end.

Notation "x <- c ;; k" := (obind c (fun x => k))
  (at level 60, c at next level, right associativity) : asm_scope.

Open Scope asm_scope.

(** A computation "terminates" when it does not run out of fuel. *)
Definition terminates {A} (c : outcome A) : Prop :=
  match c with OutOfFuel => False | _ => True end.

(** ** Total maps over [Z]

    The C arrays [codeImage] and [dataImage] are indexed by int expressions
    that the code does not bound ([codeImage[*IC - 2]] is written at
    [IC = 0]); the model keeps every index, negative ones included. *)
Definition zmap (A : Type) := Z -> A.

Definition upd {A} (m : zmap A) (k : Z) (v : A) : zmap A :=
  fun j => if Z.eqb j k then v else m j.

(** [modify m k f] is a read-modify-write of one element, [a[k].f = v]. *)
Definition modify {A} (m : zmap A) (k : Z) (f : A -> A) : zmap A :=
  upd m k (f (m k)).

(** ** Bit fields

    A field of [width] bits at bit [pos] of an unsigned storage unit [u].
    Reading is [(u >> pos) & ones(width)]; writing an int [v] stores
    [v mod 2^width], as C's conversion to an unsigned bit field does. *)
Definition field_get (u pos width : Z) : Z :=
  Z.land (Z.shiftr u pos) (Z.ones width).

Definition field_set (u pos width v : Z) : Z :=
  Z.lor (Z.land u (Z.lnot (Z.shiftl (Z.ones width) pos)))
        (Z.shiftl (Z.land v (Z.ones width)) pos).

Create HintDb asm discriminated.
Create Rewrite HintDb asm.

Lemma obind_ok {A B} (a : A) (k : A -> outcome B) : obind (Ok a) k = k a.
Proof. reflexivity. Qed.

Lemma obind_terminates {A B} (c : outcome A) (k : A -> outcome B) :
  terminates c -> (forall a, c = Ok a -> terminates (k a)) -> terminates (obind c k).
Proof. destruct c; simpl; auto. Qed.

Lemma obind_ok_inv {A B} (c : outcome A) (k : A -> outcome B) b :
  obind c k = Ok b -> exists a, c = Ok a /\ k a = Ok b.
Proof. destruct c; simpl; try discriminate. eauto. Qed.

#[export] Hint Rewrite @obind_ok : asm.

Lemma upd_same {A} (m : zmap A) k v : upd m k v k = v.
Proof. unfold upd. now rewrite Z.eqb_refl. Qed.

Lemma upd_other {A} (m : zmap A) k j v : j <> k -> upd m k v j = m j.
Proof. intros H. unfold upd. destruct (Z.eqb_spec j k); congruence. Qed.

Lemma modify_same {A} (m : zmap A) k f : modify m k f k = f (m k).
Proof. apply upd_same. Qed.

Lemma modify_other {A} (m : zmap A) k j f : j <> k -> modify m k f j = m j.
Proof. apply upd_other. Qed.

#[export] Hint Rewrite @upd_same @modify_same : asm.

Lemma field_get_range u pos width :
  0 <= width -> 0 <= field_get u pos width < 2 ^ width.
Proof.
  intros Hw. unfold field_get. rewrite Z.land_ones by lia.
  apply Z.mod_pos_bound. apply Z.pow_pos_nonneg; lia.
Qed.

Lemma field_get_set_same u pos width v :
  0 <= pos -> 0 <= width ->
  field_get (field_set u pos width v) pos width = Z.land v (Z.ones width).
Proof.
  intros Hp Hw. unfold field_get, field_set.
  apply Z.bits_inj'. intros i Hi.
  rewrite Z.land_spec, Z.shiftr_spec, Z.lor_spec, Z.land_spec, Z.lnot_spec,
    !Z.shiftl_spec by lia.
  replace (i + pos - pos) with i by lia.
  rewrite Z.land_spec.
  destruct (Z.lt_ge_cases i width).
  - rewrite !Z.ones_spec_low by lia. now rewrite !Bool.andb_true_r, Bool.andb_false_r.
  - rewrite !Z.ones_spec_high by lia. now rewrite !Bool.andb_false_r.
Qed.

(** Writing one field leaves a disjoint field unchanged. *)
Lemma field_get_set_other u pos width pos' width' v :
  0 <= pos -> 0 <= width -> 0 <= pos' -> 0 <= width' ->
  (pos + width <= pos' \/ pos' + width' <= pos) ->
  field_get (field_set u pos width v) pos' width' = field_get u pos' width'.
Proof.
  intros Hp Hw Hp' Hw' Hdisj. unfold field_get, field_set.
  apply Z.bits_inj'. intros i Hi.
  rewrite !Z.land_spec, !Z.shiftr_spec, Z.lor_spec, Z.land_spec, Z.lnot_spec,
    !Z.shiftl_spec by lia.
  destruct (Z.lt_ge_cases i width').
  2: rewrite (Z.ones_spec_high width') by lia; now rewrite !Bool.andb_false_r.
  rewrite (Z.ones_spec_low width') by lia.
  destruct (Z.lt_ge_cases (i + pos') pos).
  - rewrite (Z.testbit_neg_r (Z.ones width)) by lia.
    rewrite (Z.testbit_neg_r (Z.land v (Z.ones width))) by lia.
    now destruct (Z.testbit u (i + pos')).
  - rewrite Z.land_spec, (Z.ones_spec_high width (i + pos' - pos)) by lia.
    now destruct (Z.testbit u (i + pos')), (Z.testbit v (i + pos' - pos)).
Qed.

(** Reading a field that lies inside the field just written reads the
    written value's bits. *)
Lemma field_get_set_inner u pos width pos' width' v :
  0 <= pos <= pos' -> 0 <= width' -> pos' + width' <= pos + width ->
  field_get (field_set u pos width v) pos' width' = field_get v (pos' - pos) width'.
Proof.
  intros Hp Hw' Hin. unfold field_get, field_set.
  apply Z.bits_inj'. intros i Hi.
  rewrite !Z.land_spec, !Z.shiftr_spec, Z.lor_spec, Z.land_spec, Z.lnot_spec,
    !Z.shiftl_spec by lia.
  destruct (Z.lt_ge_cases i width').
  2: rewrite !(Z.ones_spec_high width') by lia; now rewrite !Bool.andb_false_r.
  rewrite !(Z.ones_spec_low width'), (Z.ones_spec_low width) by lia.
  rewrite Z.land_spec, (Z.ones_spec_low width) by lia.
  replace (i + pos' - pos) with (i + (pos' - pos)) by lia.
  now destruct (Z.testbit u (i + pos')), (Z.testbit v (i + (pos' - pos))).
Qed.

#[export] Hint Rewrite field_get_set_same using lia : asm.

(** ** Tactics *)

(** Case analysis on the boolean tests of a model, keeping the equations. *)
Ltac case_if :=
  match goal with
  | |- context [if ?b then _ else _] => destruct b eqn:?
  end.

(** ** Packing integers with [|] *)

(** OR-ing a value below [2^k] into a multiple of [2^k] adds it. *)
Lemma lor_aligned y x k :
  0 <= k -> 0 <= x < 2 ^ k -> y mod 2 ^ k = 0 -> Z.lor y x = y + x.
Proof.
  intros Hk Hx Hy.
  assert (Hl : Z.land y x = 0).
  { apply Z.bits_inj'. intros i Hi. rewrite Z.land_spec, Z.bits_0.
    destruct (Z.lt_ge_cases i k).
    - rewrite <- (Z.mod_pow2_bits_low y k i) by lia. rewrite Hy, Z.bits_0. reflexivity.
    - rewrite <- (Z.mod_small x (2 ^ k)) by lia.
      rewrite Z.mod_pow2_bits_high by lia. apply Bool.andb_false_r. }
  rewrite <- Z.lxor_lor, <- Z.add_nocarry_lxor by exact Hl. reflexivity.
Qed.

(** The same, in a hypothesis. *)
Ltac case_if_in H :=
  match type of H with
  | context [if ?b then _ else _] => destruct b eqn:?
  end.

(** Proves [terminates] of a composition of steps: binds, conditionals and
    tuples are taken apart, and the steps closed by the [asm] hints; what
    remains (a loop call) is left to the caller. *)
Ltac terminates_auto :=
  repeat first
    [ exact I
    | solve [auto with asm]
    | apply obind_terminates; [|let a := fresh "a" in intros a _]
    | match goal with p : _ * _ |- _ => destruct p end
    | case_if ].

(** Rewrites with the development's databases, then simplifies. *)
Ltac asm_simp := autorewrite with asm in *; simpl in *.
