(* ===== verification/CLib.v ===== *)
(** * The C library functions the assembler calls

    Character classes of <ctype.h> in the "C" locale, the string functions
    of <string.h> on NUL-terminated buffers ([strstr], [strspn] included),
    [atoi] of <stdlib.h>, the [%d] conversion of [printf], and of <stdio.h>
    [fgets] on a buffer of 81 bytes and [sscanf(s, "%s", w)].  A C char buffer is a [list ascii]; the C
    string it holds is its prefix up to the first NUL ([c_str]), and a read
    past the end of the list reads a NUL. *)

From Stdlib Require Import ZArith List Ascii String Lia DecimalString.
From stdpp Require Import base decidable strings.
From S2P Require Import Prelude.
Import ListNotations.
Open Scope Z_scope.

Definition cstr := list ascii.

(** A string literal of the source, as a char buffer. *)
Definition lit (s : string) : cstr := list_ascii_of_string s.

Definition NUL : ascii := Ascii.zero.

Definition code (c : ascii) : Z := Z.of_nat (nat_of_ascii c).

(** The double quote character. *)
Definition dquote : ascii := ascii_of_nat 34.

Definition chr (z : Z) : ascii := ascii_of_nat (Z.to_nat (z mod 256)).

(** ** <ctype.h>, "C" locale *)
Definition isspace (c : ascii) : bool :=
  (code c =? 32) || ((9 <=? code c) && (code c <=? 13)).

Definition isdigit (c : ascii) : bool := (48 <=? code c) && (code c <=? 57).

Definition isalpha (c : ascii) : bool :=
  ((65 <=? code c) && (code c <=? 90)) || ((97 <=? code c) && (code c <=? 122)).

(** ** <string.h> *)

(** A buffer without terminator. *)
Definition no_nul (s : cstr) : bool := forallb (fun c => negb (Ascii.eqb c NUL)) s.

(** The C string a buffer holds: its bytes up to the first NUL. *)
Fixpoint c_str (b : cstr) : cstr :=
  match b with
  | [] => []
  | c :: r => if Ascii.eqb c NUL then [] else c :: c_str r
  end.

Definition strlen (b : cstr) : nat := length (c_str b).

(** [strcpy(dst, src)] into [char dst[size]]: defined when the string in
    [src] and its terminator fit in [size] bytes.  A source buffer of
    [size] bytes that holds no NUL is read, and [dst] written, past its
    end. *)
Definition strcpy_fits (size : nat) (src : cstr) : bool := (strlen src <? size)%nat.

(** [s[i]]: the byte at index [i]; past the list, the terminator. *)
Definition char_at (b : cstr) (i : nat) : ascii := nth i b NUL.

(** [strcmp(a, b) == 0]. *)
Definition streq (a b : cstr) : bool := bool_decide (c_str a = c_str b).

(** [strchr(s, c) != NULL] for a non-NUL [c]. *)
Definition strchr (s : cstr) (c : ascii) : bool := existsb (Ascii.eqb c) (c_str s).

(** [*strchr(s, c) = '\0']: the string cut at the first [c]. *)
Fixpoint cut_at (c : ascii) (s : cstr) : cstr :=
  match s with
  | [] => []
  | x :: r => if Ascii.eqb x c then [] else x :: cut_at c r
  end.

(** ** [atoi]: leading white space, an optional sign, decimal digits. *)
Fixpoint digits_value (acc : Z) (s : cstr) : Z :=
  match s with
  | c :: r => if isdigit c then digits_value (acc * 10 + (code c - 48)) r else acc
  | [] => acc
  end.

Fixpoint atoi (s : cstr) : Z :=
  match s with
  | [] => 0
  | c :: r =>
      if Ascii.eqb c NUL then 0
      else if isspace c then atoi r
      else if Ascii.eqb c "-"%char then - digits_value 0 (c_str r)
      else if Ascii.eqb c "+"%char then digits_value 0 (c_str r)
      else digits_value 0 (c_str s)
  end.

(** [strstr(s, t) != NULL]: [t] occurs in the string [s]. *)
Fixpoint prefix_of (t s : cstr) : bool :=
  match t, s with
  | [], _ => true
  | x :: t', y :: s' => Ascii.eqb x y && prefix_of t' s'
  | _ :: _, [] => false
  end.

Fixpoint occurs (t s : cstr) : bool :=
  prefix_of t s || match s with [] => false | _ :: r => occurs t r end.

Definition strstr (s t : cstr) : bool := occurs (c_str t) (c_str s).

(** [strspn(s, accept) == strlen(s)]: every character of [s] is in
    [accept]. *)
Definition strspn_all (s accept : cstr) : bool :=
  forallb (fun c => existsb (Ascii.eqb c) accept) (c_str s).

(** [sscanf(s, "%s", buf)]: white space is skipped, then the characters up
    to the next white space are stored in [buf]; at the end of the string
    [sscanf] returns [EOF] and [buf] keeps its contents ([None]). *)
Fixpoint skip_isspace (s : cstr) : cstr :=
  match s with c :: r => if isspace c then skip_isspace r else s | [] => [] end.

Fixpoint take_nonspace (s : cstr) : cstr :=
  match s with c :: r => if isspace c then [] else c :: take_nonspace r | [] => [] end.

Definition sscanf_word (s : cstr) : option cstr :=
  match skip_isspace (c_str s) with [] => None | w => Some (take_nonspace w) end.

(** ** The [%d] conversion *)
Definition dec (z : Z) : cstr :=
  lit (NilEmpty.string_of_int (Z.to_int z)).

(** ** <stdio.h>

    [fgets(line, 81, file)]: at most 80 characters, up to and including a
    newline.  [fgets_lines] splits the text of a file into the successive
    buffers [fgets] returns. *)
Fixpoint fgets_line (n : nat) (s : cstr) : cstr * cstr :=
  match n, s with
  | O, _ => ([], s)
  | _, [] => ([], [])
  | S n, c :: r =>
      if Ascii.eqb c "010"%char then ([c], r)
      else let '(l, rest) := fgets_line n r in (c :: l, rest)
  end.

Fixpoint fgets_lines (fuel : nat) (s : cstr) : list cstr :=
  match fuel, s with
  | O, _ => []
  | _, [] => []
  | S fuel, _ => let '(l, rest) := fgets_line 80 s in l :: fgets_lines fuel rest
  end.

(** ** Lemmas *)

Lemma c_str_idem b : c_str (c_str b) = c_str b.
Proof.
  induction b as [|c r IH]; simpl; [reflexivity|].
  destruct (Ascii.eqb c NUL) eqn:E; simpl; [reflexivity|]. now rewrite E, IH.
Qed.

Lemma c_str_length_le b : (length (c_str b) <= length b)%nat.
Proof.
  induction b as [|c r IH]; simpl; [lia|]. destruct (Ascii.eqb c NUL); simpl; lia.
Qed.

(** A buffer without NUL holds itself. *)
Lemma c_str_no_nul b : Forall (fun c => c <> NUL) b -> c_str b = b.
Proof.
  induction 1 as [|c r Hc _ IH]; simpl; [reflexivity|].
  destruct (Ascii.eqb_spec c NUL); [contradiction|]. now rewrite IH.
Qed.

Lemma c_str_forallb b : forallb (fun c => negb (Ascii.eqb c NUL)) b = true -> c_str b = b.
Proof.
  induction b as [|c r IH]; simpl; [reflexivity|]. intros H. apply andb_prop in H as [Hc Hr].
  apply negb_true_iff in Hc. now rewrite Hc, IH.
Qed.

(** A prefix without NUL is kept whole by [c_str]. *)
Lemma c_str_app_prefix w r :
  forallb (fun c => negb (Ascii.eqb c NUL)) w = true -> c_str (w ++ r) = w ++ c_str r.
Proof.
  induction w as [|c w IH]; simpl; [reflexivity|]. intros H. apply andb_prop in H as [Hc Hw].
  apply negb_true_iff in Hc. now rewrite Hc, IH.
Qed.

Lemma streq_refl a : streq a a = true.
Proof. unfold streq. now apply bool_decide_true. Qed.

Lemma streq_sym a b : streq a b = streq b a.
Proof. unfold streq. apply bool_decide_ext. split; auto. Qed.

Lemma code_range c : 0 <= code c < 256.
Proof.
  unfold code. pose proof (nat_ascii_bounded c). lia.
Qed.

Lemma isdigit_not_space c : isdigit c = true -> isspace c = false.
Proof.
  unfold isdigit, isspace. intros H.
  apply andb_prop in H as [H1 H2]. apply Z.leb_le in H1, H2.
  apply Bool.orb_false_intro; [apply Z.eqb_neq; lia|].
  apply Bool.andb_false_iff. right. apply Z.leb_gt. lia.
Qed.

#[export] Hint Rewrite c_str_idem streq_refl : asm.

(** Character equality is equality of codes. *)
Lemma ascii_eqb_code c d : Ascii.eqb c d = (code c =? code d).
Proof.
  destruct (Ascii.eqb_spec c d) as [->|Hne]; [symmetry; apply Z.eqb_refl|].
  symmetry. apply Z.eqb_neq. intros H. apply Hne. unfold code in H.
  apply Nat2Z.inj in H.
  rewrite <- (ascii_nat_embedding c), <- (ascii_nat_embedding d). congruence.
Qed.

(** ** Buffers without terminator *)

Lemma no_nul_app a b : no_nul (a ++ b) = no_nul a && no_nul b.
Proof. apply forallb_app. Qed.

Lemma c_str_no_nul_forallb b : no_nul (c_str b) = true.
Proof.
  unfold no_nul. induction b as [|c r IH]; simpl; [reflexivity|].
  destruct (Ascii.eqb c NUL) eqn:E; simpl; [reflexivity|]. now rewrite E, IH.
Qed.

Lemma no_nul_rev s : no_nul (rev s) = no_nul s.
Proof.
  unfold no_nul. induction s as [|c r IH]; simpl; [reflexivity|].
  rewrite forallb_app, IH. simpl. now rewrite Bool.andb_true_r, Bool.andb_comm.
Qed.

(** A buffer without NUL, then a terminator, holds the buffer. *)
Lemma c_str_app_nul w r :
  forallb (fun c => negb (Ascii.eqb c NUL)) w = true -> c_str (w ++ NUL :: r) = w.
Proof.
  induction w as [|c w IH]; simpl; [reflexivity|].
  intros H. apply andb_prop in H as [Hc Hw].
  destruct (Ascii.eqb c NUL); [discriminate|]. now rewrite IH.
Qed.

(** Turns the character tests of a goal into arithmetic on codes. *)
Ltac char_arith :=
  unfold isspace, isdigit, isalpha in *; rewrite ?ascii_eqb_code in *;
  repeat match goal with
    | |- context [code ?x] =>
        assert_fails (is_var x);
        let v := eval vm_compute in (code x) in change (code x) with v
    | H : context [code ?x] |- _ =>
        assert_fails (is_var x);
        let v := eval vm_compute in (code x) in change (code x) with v in H
    end.

Lemma code_chr z : code (chr z) = z mod 256.
Proof.
  unfold code, chr. pose proof (Z.mod_pos_bound z 256 ltac:(lia)).
  rewrite nat_ascii_embedding by lia. lia.
Qed.

(** [atoi] of a buffer whose second byte cannot continue a number: the
    value of its first byte as a digit, or 0. *)
Lemma atoi_first_digit c0 c1 rest :
  isdigit c1 = false -> isspace c1 = false ->
  Ascii.eqb c1 "-"%char = false -> Ascii.eqb c1 "+"%char = false ->
  atoi (c0 :: c1 :: rest) = if isdigit c0 then code c0 - 48 else 0.
Proof.
  intros Hd Hs Hm Hp.
  assert (Hv : digits_value 0 (c_str (c1 :: rest)) = 0).
  { simpl. destruct (Ascii.eqb c1 NUL); simpl; [reflexivity|]. now rewrite Hd. }
  cbn [atoi]. destruct (Ascii.eqb c0 NUL) eqn:Hn.
  { apply Ascii.eqb_eq in Hn. now subst. }
  destruct (isspace c0) eqn:Hs0.
  { destruct (isdigit c0) eqn:Hd0; [now rewrite isdigit_not_space in Hs0|].
    cbn [atoi]. destruct (Ascii.eqb c1 NUL); [reflexivity|]. now rewrite Hs, Hm, Hp. }
  destruct (Ascii.eqb c0 "-"%char) eqn:Hm0.
  { apply Ascii.eqb_eq in Hm0. subst. rewrite Hv. reflexivity. }
  destruct (Ascii.eqb c0 "+"%char) eqn:Hp0.
  { apply Ascii.eqb_eq in Hp0. subst. exact Hv. }
  cbn [c_str]. rewrite Hn. cbn [digits_value].
  destruct (isdigit c0); [|reflexivity].
  cbn [c_str]. destruct (Ascii.eqb c1 NUL); cbn [digits_value]; [lia|]. rewrite Hd. lia.
Qed.

(** ** What [fgets] reads *)

Lemma fgets_line_split n s :
  fst (fgets_line n s) ++ snd (fgets_line n s) = s /\ (length (fst (fgets_line n s)) <= n)%nat /\
  (n <> O -> s <> [] -> (length (snd (fgets_line n s)) < length s)%nat).
Proof.
  revert s. induction n as [|n IH]; intros s; [simpl; split; [reflexivity|lia]|].
  destruct s as [|c r]; simpl; [split; [reflexivity|]; split; [lia|congruence]|].
  destruct (Ascii.eqb c "010"%char); simpl; [split; [reflexivity|]; split; lia|].
  destruct (IH r) as (H1 & H2 & H3). destruct (fgets_line n r) as [l rest]. simpl in *.
  split; [now rewrite H1|]. split; [lia|]. intros _ _.
  rewrite <- H1, length_app. simpl. lia.
Qed.

(** A line of fewer than 80 characters ending in a newline is one buffer. *)
Lemma fgets_line_newline n l rest :
  (length l < n)%nat -> ~ In "010"%char l ->
  fgets_line n (l ++ "010"%char :: rest) = (l ++ ["010"%char], rest).
Proof.
  revert n. induction l as [|c l IH]; intros n Hn Hl; destruct n as [|n]; simpl in *; try lia.
  - reflexivity.
  - destruct (Ascii.eqb_spec c "010"%char) as [->|_]; [tauto|].
    rewrite IH by (lia || tauto). reflexivity.
Qed.

Lemma fgets_lines_newline fuel l rest :
  (length l < 80)%nat -> ~ In "010"%char l ->
  fgets_lines (S fuel) (l ++ "010"%char :: rest) = (l ++ ["010"%char]) :: fgets_lines fuel rest.
Proof.
  intros Hn Hl. cbn [fgets_lines]. destruct (l ++ _) eqn:E; [destruct l; discriminate|].
  rewrite <- E, fgets_line_newline by assumption. reflexivity.
Qed.

(** ** [strstr], [strchr] and [sscanf] on known strings *)

Lemma prefix_of_app a b s :
  prefix_of (a ++ b) s = true -> exists s', s = a ++ s' /\ prefix_of b s' = true.
Proof.
  revert s. induction a as [|x a IH]; intros s H; [now exists s|].
  destruct s as [|y s]; simpl in H; [discriminate|].
  apply andb_prop in H as [Hxy H]. apply Ascii.eqb_eq in Hxy as ->.
  destruct (IH s H) as (s' & -> & Hb). now exists s'.
Qed.

Lemma occurs_prepend a b s : occurs b s = true -> occurs b (a ++ s) = true.
Proof.
  induction a as [|x a IH]; simpl; [auto|]. intros H. rewrite IH by exact H.
  apply Bool.orb_true_r.
Qed.

(** An occurrence of [a ++ b] contains one of [b]. *)
Lemma occurs_app_r a b s : occurs (a ++ b) s = true -> occurs b s = true.
Proof.
  induction s as [|y s IH]; intros H.
  - simpl in H. rewrite Bool.orb_false_r in H. destruct (prefix_of_app a b [] H) as (s' & E & Hb).
    destruct a; [|discriminate]. simpl in E. subst. simpl. now rewrite Hb.
  - cbn [occurs] in H. apply Bool.orb_true_iff in H as [H|H].
    + destruct (prefix_of_app a b _ H) as (s' & E & Hb). rewrite E.
      apply occurs_prepend. destruct s'; simpl; now rewrite Hb.
    + cbn [occurs]. rewrite (IH H). apply Bool.orb_true_r.
Qed.

(** A string without the first character of [t] has no occurrence of it. *)
Lemma occurs_absent c t s : ~ In c s -> occurs (c :: t) s = false.
Proof.
  induction s as [|y s IH]; intros H; [reflexivity|]. simpl.
  destruct (Ascii.eqb_spec c y) as [->|_]; [simpl in H; tauto|]. simpl.
  apply IH. simpl in H. tauto.
Qed.

(** The string of [s] cut at a character it holds after a prefix without
    it. *)
Lemma cut_at_app c l r : ~ In c l -> cut_at c (l ++ c :: r) = l.
Proof.
  induction l as [|x l IH]; simpl; intros H.
  - now rewrite Ascii.eqb_refl.
  - destruct (Ascii.eqb_spec x c) as [->|_]; [tauto|]. now rewrite IH by tauto.
Qed.

Lemma cut_at_absent c l : ~ In c l -> cut_at c l = l.
Proof.
  induction l as [|x l IH]; simpl; intros H; [reflexivity|].
  destruct (Ascii.eqb_spec x c) as [->|_]; [tauto|]. now rewrite IH by tauto.
Qed.

Lemma skip_isspace_head_nonspace s c r : skip_isspace s = c :: r -> isspace c = false.
Proof.
  induction s as [|x s IH]; simpl; [discriminate|].
  destruct (isspace x) eqn:E; [exact IH|]. now intros [= <- _].
Qed.

Lemma skip_isspace_all s : forallb isspace s = true -> skip_isspace s = [].
Proof.
  induction s as [|x s IH]; simpl; [reflexivity|]. intros H.
  apply andb_prop in H as [-> H]. now apply IH.
Qed.

Lemma skip_isspace_app x y :
  skip_isspace (x ++ y) = match skip_isspace x with [] => skip_isspace y | s => s ++ y end.
Proof.
  induction x as [|a x IH]; simpl; [reflexivity|]. destruct (isspace a); [exact IH|reflexivity].
Qed.

Lemma take_nonspace_app_space x c r :
  isspace c = true -> take_nonspace (x ++ c :: r) = take_nonspace x.
Proof.
  intros Hc. induction x as [|a x IH]; simpl; [now rewrite Hc|]. destruct (isspace a); [reflexivity|].
  now rewrite IH.
Qed.

(** [sscanf] reads the same word from a line and from the line with its
    newline. *)
Lemma sscanf_word_newline l :
  no_nul l = true -> sscanf_word (l ++ ["010"%char]) = sscanf_word l.
Proof.
  intros Hn. unfold sscanf_word.
  rewrite (c_str_forallb (l ++ _)) by (unfold no_nul in Hn; now rewrite forallb_app, Hn).
  rewrite (c_str_forallb l) by exact Hn. rewrite skip_isspace_app.
  destruct (skip_isspace l) as [|a s]; [reflexivity|].
  assert (H : take_nonspace ((a :: s) ++ ["010"%char]) = take_nonspace (a :: s))
    by (apply take_nonspace_app_space; reflexivity).
  simpl in H |- *. now rewrite H.
Qed.

Lemma skip_isspace_suffix s : exists p, s = p ++ skip_isspace s.
Proof.
  induction s as [|c r [p IH]]; simpl; [now exists []|].
  destruct (isspace c); [exists (c :: p); simpl; now f_equal|now exists []].
Qed.

Lemma take_nonspace_facts s :
  forallb (fun c => negb (isspace c)) (take_nonspace s) = true /\
  exists r, s = take_nonspace s ++ r.
Proof.
  induction s as [|c s [IH1 [r IH2]]]; simpl; [split; [reflexivity|now exists []]|].
  destruct (isspace c) eqn:E; simpl; [split; [reflexivity|now exists (c :: s)]|].
  rewrite E, IH1. split; [reflexivity|]. exists r. simpl. now f_equal.
Qed.

(** A string without NUL shorter than the buffer is copied whole. *)
Lemma strcpy_fits_no_nul size w : no_nul w = true -> (length w < size)%nat -> strcpy_fits size w = true.
Proof. intros Hn Hl. unfold strcpy_fits, strlen. rewrite c_str_forallb by exact Hn. now apply Nat.ltb_lt. Qed.

(** [sscanf] reads a word no longer than its input. *)
Lemma sscanf_word_length s w : sscanf_word s = Some w -> (length w <= length s)%nat.
Proof.
  unfold sscanf_word. destruct (skip_isspace (c_str s)) as [|c r] eqn:E; [discriminate|].
  intros [= <-]. destruct (take_nonspace_facts (c :: r)) as [_ [r' Hr]].
  destruct (skip_isspace_suffix (c_str s)) as [p Hp]. pose proof (c_str_length_le s) as Hl.
  rewrite Hp, E, Hr, !length_app in Hl. cbn [take_nonspace] in Hl. lia.
Qed.

(** The word [sscanf] reads holds neither white space nor a terminator,
    and is not empty. *)
Lemma sscanf_word_word s w :
  sscanf_word s = Some w ->
  w <> [] /\ no_nul w = true /\ forallb (fun c => negb (isspace c)) w = true.
Proof.
  unfold sscanf_word. destruct (skip_isspace (c_str s)) as [|c r] eqn:E; [discriminate|].
  intros [= <-]. pose proof (skip_isspace_head_nonspace (c_str s) c r E) as Hc.
  destruct (take_nonspace_facts (c :: r)) as [Hw [r' Hr]].
  split; [simpl; now rewrite Hc|]. split; [|exact Hw].
  pose proof (c_str_no_nul_forallb s) as Hn. destruct (skip_isspace_suffix (c_str s)) as [p Hp].
  rewrite Hp, E, Hr, !no_nul_app in Hn. now apply andb_prop in Hn as [_ Hn]; apply andb_prop in Hn as [Hn _].
Qed.

