(* ===== verification/Preprocessor.v ===== *)
(** * The macro preprocessor (src/preprocessor.c, src/preprocessor.h)

    [processSourceFile] reads the [.as] file line by line with [fgets],
    cuts each line at its first [';'], skips the lines made of tabs and
    line breaks only, records the lines between [mcro NAME] and [endmcro]
    as the content of macro [NAME], writes the content of a macro for a line
    whose first word is its name, and copies every other line.  The macro
    table is an array of [{name, content}] records grown by [addMacro].

    The model threads the locals of [processSourceFile] through a record
    [pp_state]; the file written is the text [output].  Two of them are
    read before being written: [macroName] (by a line [mcro] without a name)
    and [trimmedLine] (by a line of spaces); their initial values are
    arguments of [processSourceFile]: any bytes, of which the code reads
    the string up to the first NUL.  [None] stands for undefined
    behaviour: [strlen(NULL)] on a macro without content, the write past
    the table's allocation made by the [addMacro] that fills it, and the
    [strcpy] of [findMacro] from a name that does not fit its buffer of
    [MAX_LINE_LEN] bytes, which an uninitialised buffer without NUL is. *)

From Stdlib Require Import ZArith List Ascii String Lia.
From stdpp Require Import base option decidable strings.
From S2P Require Import Prelude CLib.
Import ListNotations.
Open Scope Z_scope.

Module Preprocessor.

(** [LENGTH_OF_MCRO] *)
Definition LENGTH_OF_MCRO : nat := 4.

(** [MAX_LINE_LEN]: the size of the buffers [line], [macroName] and
    [trimmedLine] of [processSourceFile] and [trimmedName] of [findMacro]. *)
Definition MAX_LINE_LEN : nat := 81.

(** [struct Macro { char name[MAX_LINE_LEN]; char *content; }] *)
Record Macro := mkMacro { name : cstr; content : cstr }.

(** [struct MacroTable { Macro *macros; int count; int capacity; }]: the
    [count] used entries of [macros] are the list. *)
Record MacroTable := mkMacroTable { macros : list Macro; capacity : Z }.

Definition count (t : MacroTable) : Z := Z.of_nat (length (macros t)).

(** [initializeMacroTable(table)] *)
Definition initializeMacroTable : MacroTable := mkMacroTable [] 10.

(** The loops of [trimWhitespace] that skip white space. *)
Fixpoint drop_spaces (s : cstr) : cstr :=
  match s with c :: r => if isspace c then drop_spaces r else s | [] => [] end.

(** [trimWhitespace(str)]: the string without its leading and trailing
    white space. *)
Definition trimWhitespace (str : cstr) : cstr :=
  rev (drop_spaces (rev (drop_spaces (c_str str)))).

(** The loop of [findMacro] from index [i]. *)
Fixpoint find_from (ms : list Macro) (trimmedName : cstr) (i : Z) : Z :=
  match ms with
  | [] => -1
  | m :: r => if streq (name m) trimmedName then i else find_from r trimmedName (i + 1)
  end.

(** [findMacro(table, name)]: [strcpy(trimmedName, name)] into a buffer
    of [MAX_LINE_LEN] bytes, undefined ([None]) when [name] does not fit,
    then the index of the first macro named [name] once trimmed, or -1. *)
Definition findMacro (t : MacroTable) (n : cstr) : option Z :=
  if strcpy_fits MAX_LINE_LEN n then Some (find_from (macros t) (trimWhitespace n) 0) else None.

(** The [reserved] array of [isValidMacroName]. *)
Definition reserved : list cstr :=
  map lit ["."; "lea"; "sub"; "add"; "cmp"; "mov"; "not"; "clr"; "inc"; "dec";
           "jmp"; "bne"; "red"; "prn"; "jsr"; "stop"; "rts"]%string.

(** [isValidMacroName(name)] *)
Definition isValidMacroName (n : cstr) : bool :=
  negb (Ascii.eqb (char_at n 0) "."%char) && negb (existsb (streq n) reserved).

(** [addMacro(table, name, content)]; [content] is [None] for a [NULL]
    pointer.  The array is reallocated to [capacity] entries before the
    capacity is doubled, so the call made when [count = capacity] writes
    past the array: [None]. *)
Definition addMacro (t : MacroTable) (n : cstr) (c : option cstr) : option MacroTable :=
  index ← findMacro t n;
  if index =? -1 then
    if count t =? capacity t then None
    else match c with
         | None => None
         | Some c => Some (mkMacroTable (macros t ++ [mkMacro (c_str n) (c_str c)]) (capacity t))
         end
  else Some t.

(** The locals of [processSourceFile] that outlive one line, and the text
    written to the output file. *)
Record pp_state := mkPP {
  isInsideMacro : bool;
  macroName : cstr;
  macroContent : option cstr;
  trimmedLine : cstr;
  macroTable : MacroTable;
  output : cstr
}.

(** [*strchr(line, ';') = '\0']: the line up to its first [';']. *)
Definition cut_comment (line : cstr) : cstr := cut_at ";"%char (c_str line).

(** The characters of the [strspn] test of line 29; the space is not one
    of them. *)
Definition blank_chars : cstr := map ascii_of_nat [9; 10; 13; 12; 11]%nat.

(** The macro-start test of lines 34-40: whether the line starts a macro,
    and [macroName] after the [sscanf] of line 35; [findMacro] is called
    only for a valid name. *)
Definition macro_start (st : pp_state) (line : cstr) : option (bool * cstr) :=
  if strstr line (lit "mcro") && negb (strstr line (lit "endmcro")) then
    let nm := match sscanf_word (skipn LENGTH_OF_MCRO line) with
              | Some w => w | None => macroName st end in
    if isValidMacroName nm then
      index ← findMacro (macroTable st) nm;
      Some (index =? -1, nm)
    else Some (false, nm)
  else Some (false, macroName st).

(** The body of the loop of [processSourceFile] (lines 24-84) for one
    buffer returned by [fgets]. *)
Definition processLine (st : pp_state) (line : cstr) : option pp_state :=
  let line := cut_comment line in
  if strspn_all line blank_chars then Some st
  else
    sn ← macro_start st line;
    let '(started, nm) := (sn : bool * cstr) in
    let st := mkPP (isInsideMacro st) nm (macroContent st) (trimmedLine st)
                   (macroTable st) (output st) in
    if started then
      Some (mkPP true nm (macroContent st) (trimmedLine st) (macroTable st) (output st))
    else if strstr line (lit "endmcro") && isInsideMacro st then
      index ← findMacro (macroTable st) nm;
      tbl ← (if index =? -1
             then addMacro (macroTable st) nm (macroContent st)
             else Some (macroTable st));
      Some (mkPP false nm None (trimmedLine st) tbl (output st))
    else if isInsideMacro st then
      let old := match macroContent st with Some c => c | None => [] end in
      Some (mkPP true nm (Some (old ++ line)) (trimmedLine st) (macroTable st) (output st))
    else
      let tl := match sscanf_word line with Some w => w | None => trimmedLine st end in
      macroIndex ← findMacro (macroTable st) tl;
      if negb (macroIndex =? -1) then
        let out := if (0 <=? macroIndex) && (macroIndex <? count (macroTable st))
                   then match nth_error (macros (macroTable st)) (Z.to_nat macroIndex) with
                        | Some m => output st ++ content m
                        | None => output st
                        end
                   else output st in
        Some (mkPP false nm (macroContent st) tl (macroTable st) out)
      else Some (mkPP false nm (macroContent st) tl (macroTable st) (output st ++ line)).

(** The loop of line 23 over the buffers of the file. *)
Fixpoint processLines (st : pp_state) (lines : list cstr) : option pp_state :=
  match lines with
  | [] => Some st
  | l :: r => st' ← processLine st l; processLines st' r
  end.

(** [processSourceFile(sourceFileName, outputFileName, macroTable)]: the
    text written to the [.am] file and the table left; [macroName0] and
    [trimmedLine0] are the initial contents of the two uninitialised
    buffers. *)
Definition processSourceFile (macroName0 trimmedLine0 : cstr) (source : cstr) (t : MacroTable)
    : option (cstr * MacroTable) :=
  st ← processLines (mkPP false macroName0 None trimmedLine0 t [])
                    (fgets_lines (S (length source)) source);
  Some (output st, macroTable st).

(** ** The contract of the preprocessor

    What a macro preprocessor promises, stated over a source built of
    plain lines, macro definitions and macro calls: each definition binds a
    name to the lines of its body, each call is replaced by the body of the
    first definition of its name, and plain lines are copied.  [render] is
    the source text, one line per item line, each ended by a newline;
    [expand] is the text the contract asks for. *)
Inductive item :=
| Plain (l : cstr)
| Define (n : cstr) (body : list cstr)
| Call (n : cstr).

Definition nl : ascii := "010"%char.

Definition mcro_line (n : cstr) : cstr := lit "mcro " ++ n.
Definition endmcro_line : cstr := lit "endmcro".

Definition item_lines (it : item) : list cstr :=
  match it with
  | Plain l => [l]
  | Define n body => mcro_line n :: body ++ [endmcro_line]
  | Call n => [n]
  end.

Definition with_newlines (ls : list cstr) : cstr := concat (map (fun l => l ++ [nl]) ls).

Definition render (items : list item) : cstr := with_newlines (concat (map item_lines items)).

(** The macros defined so far, in order of definition. *)
Definition env := list (cstr * cstr).

Definition lookup (e : env) (w : cstr) : option cstr :=
  option_map snd (List.find (fun p => bool_decide (fst p = w)) e).

Definition next_env (e : env) (it : item) : env :=
  match it with Define n body => e ++ [(n, with_newlines body)] | _ => e end.

Definition item_text (e : env) (it : item) : cstr :=
  match it with
  | Plain l => l ++ [nl]
  | Define _ _ => []
  | Call n => match lookup e n with Some t => t | None => [] end
  end.

Fixpoint expand (e : env) (items : list item) : cstr :=
  match items with
  | [] => []
  | it :: r => item_text e it ++ expand (next_env e it) r
  end.

(** The sources the contract is about.  A line is at most 79 characters
    long, holds no terminator, newline or [';'], is not made of tabs and
    line breaks only, and does not contain ["mcro"].  A plain line's first
    word is not a macro name; a call is the name of a defined macro alone;
    a definition names a valid, new macro, the tenth at most, whose line
    is read back by [sscanf] as that name, and has at least one line. *)
Definition line_ok (l : cstr) : bool :=
  (length l <? 80)%nat && no_nul l && negb (existsb (Ascii.eqb nl) l)
  && negb (existsb (Ascii.eqb ";"%char) l)
  && negb (strspn_all (l ++ [nl]) blank_chars) && negb (strstr (l ++ [nl]) (lit "mcro")).

Definition defined (e : env) (w : cstr) : bool :=
  match lookup e w with Some _ => true | None => false end.

Definition wf_item (e : env) (it : item) : bool :=
  match it with
  | Plain l => line_ok l && match sscanf_word l with Some w => negb (defined e w) | None => false end
  | Call n => line_ok n && bool_decide (sscanf_word n = Some n) && defined e n
  | Define n body =>
      let d := mcro_line n in
      (length d <? 80)%nat && no_nul d && negb (existsb (Ascii.eqb nl) d)
      && negb (existsb (Ascii.eqb ";"%char) d)
      && negb (strstr (d ++ [nl]) (lit "endmcro"))
      && bool_decide (sscanf_word (skipn LENGTH_OF_MCRO d) = Some n)
      && isValidMacroName n && negb (defined e n) && (length e <? 10)%nat
      && negb (Nat.eqb (length body) 0) && forallb line_ok body
  end.

Fixpoint wf_items (e : env) (items : list item) : bool :=
  match items with
  | [] => true
  | it :: r => wf_item e it && wf_items (next_env e it) r
  end.

(** The table of [processSourceFile] that holds the macros of [e]. *)
Definition table_of (e : env) : MacroTable :=
  mkMacroTable (map (fun p => mkMacro (fst p) (snd p)) e) 10.

(** Macro names hold no NUL, so [findMacro]'s comparison sees all of them. *)
Definition names_ok (e : env) : bool := forallb (fun p => no_nul (fst p)) e.

(** Between two definitions the state holds the table of [e] and has
    written [out]. *)
Definition pp_inv (e : env) (out : cstr) (st : pp_state) : Prop :=
  isInsideMacro st = false /\ macroContent st = None /\ macroTable st = table_of e /\ output st = out.

(** The table as [initializeMacroTable] makes it and [addMacro] keeps it:
    ten slots, at most ten macros. *)
Definition table_bounded (t : MacroTable) : Prop := capacity t = 10 /\ 0 <= count t <= 10.

(** Every line of a source of the contract fits in [fgets]'s buffer. *)
Definition fits (l : cstr) : Prop := (length l < 80)%nat /\ ~ In nl l.

(** *** Sample states and sources *)

(** A state after the definition of [m1] and a call of it. *)
Definition pp_example : pp_state :=
  mkPP false (lit "m1") None (lit "m1")
       (mkMacroTable [mkMacro (lit "m1") (lit "inc @r1" ++ [nl])] 10) [].

(** A state inside the definition of an eleventh macro. *)
Definition pp_full_table : pp_state :=
  mkPP true (lit "m11") (Some (lit "stop" ++ [nl])) (lit "m11")
       (mkMacroTable (map (fun k => mkMacro [ascii_of_nat (97 + k)] (lit "stop" ++ [nl])) (seq 0 10)) 10)
       [].

Definition sample_items : list item :=
  [Define (lit "m1") [lit "inc @r1"; lit "clr @r2"]; Plain (lit "L: mov @r1,@r2");
   Call (lit "m1"); Plain (lit "stop")].

(** ** [trimWhitespace] *)

(** [drop_spaces] removes a prefix. *)
Lemma drop_spaces_suffix s : exists p, s = p ++ drop_spaces s.
Proof.
  induction s as [|c r [p IH]]; simpl; [now exists []|].
  destruct (isspace c); [exists (c :: p); simpl; now f_equal|now exists []].
Qed.

Lemma drop_spaces_head s c r : drop_spaces s = c :: r -> isspace c = false.
Proof.
  induction s as [|x s IH]; simpl; [discriminate|].
  destruct (isspace x) eqn:E; [exact IH|]. now intros [= <- _].
Qed.

Lemma no_nul_drop_spaces s : no_nul s = true -> no_nul (drop_spaces s) = true.
Proof.
  destruct (drop_spaces_suffix s) as [p Hp]. rewrite Hp at 1.
  rewrite no_nul_app. now intros [_ ?]%andb_prop.
Qed.

Lemma trimWhitespace_no_nul s : no_nul (trimWhitespace s) = true.
Proof.
  unfold trimWhitespace. rewrite no_nul_rev. apply no_nul_drop_spaces.
  rewrite no_nul_rev. apply no_nul_drop_spaces, c_str_no_nul_forallb.
Qed.

Lemma trimWhitespace_c_str s : c_str (trimWhitespace s) = trimWhitespace s.
Proof. apply c_str_forallb, trimWhitespace_no_nul. Qed.

(** ** [findMacro] *)

Lemma find_from_list_find ms x i :
  find_from ms x i =
  match list_find (fun m => c_str (name m) = c_str x) ms with
  | Some (j, _) => i + Z.of_nat j
  | None => -1
  end.
Proof.
  revert i. induction ms as [|m ms IH]; intros i; simpl; [reflexivity|].
  unfold streq. case_bool_decide; case_decide; try contradiction; [lia|].
  rewrite IH. destruct (list_find _ ms) as [[j y]|]; simpl; lia.
Qed.

Lemma findMacro_fits t n :
  strcpy_fits MAX_LINE_LEN n = true -> findMacro t n = Some (find_from (macros t) (trimWhitespace n) 0).
Proof. unfold findMacro. now intros ->. Qed.

Lemma findMacro_None t n : findMacro t n = None <-> strcpy_fits MAX_LINE_LEN n = false.
Proof. unfold findMacro. destruct (strcpy_fits _ _); split; congruence. Qed.

(** A word [sscanf] reads from a line that fits the line buffer fits
    [findMacro]'s buffer. *)
Lemma sscanf_word_fits x w :
  sscanf_word x = Some w -> (length x < MAX_LINE_LEN)%nat -> strcpy_fits MAX_LINE_LEN w = true.
Proof.
  intros Hw Hx. destruct (sscanf_word_word _ _ Hw) as (_ & Hn & _).
  apply strcpy_fits_no_nul; [exact Hn|]. pose proof (sscanf_word_length _ _ Hw). lia.
Qed.

(** C19: [findMacro] copies the name into its buffer of [MAX_LINE_LEN]
    bytes, undefined when the name does not fit, and returns the first
    index in the table whose name is the trimmed name, as stdpp's
    [list_find] computes it, or -1. *)
Theorem findMacro_list_find t n :
  findMacro t n =
  if strcpy_fits MAX_LINE_LEN n then
    Some match list_find (fun m => c_str (name m) = trimWhitespace n) (macros t) with
         | Some (i, _) => Z.of_nat i
         | None => -1
         end
  else None.
Proof.
  unfold findMacro. destruct (strcpy_fits _ _); [|reflexivity].
  rewrite find_from_list_find, trimWhitespace_c_str.
  destruct (list_find _ _) as [[i m]|]; f_equal; lia.
Qed.

(** C20: The result of [trimWhitespace] holds no terminator and neither starts
    nor ends with white space. *)
Theorem trimWhitespace_trimmed s :
  no_nul (trimWhitespace s) = true /\
  (forall c, hd_error (trimWhitespace s) = Some c -> isspace c = false) /\
  (forall c, hd_error (rev (trimWhitespace s)) = Some c -> isspace c = false).
Proof.
  split; [apply trimWhitespace_no_nul|]. unfold trimWhitespace. rewrite rev_involutive.
  set (v := drop_spaces (c_str s)).
  split.
  - destruct (drop_spaces_suffix (rev v)) as [p Hp].
    assert (Hv : v = rev (drop_spaces (rev v)) ++ rev p)
      by (rewrite <- rev_app_distr, <- Hp; symmetry; apply rev_involutive).
    intros c Hc. destruct (rev (drop_spaces (rev v))) as [|x r] eqn:E; [discriminate|].
    injection Hc as ->. rewrite Hv in *. unfold v in Hv.
    apply (drop_spaces_head (c_str s) c (r ++ rev p)). now rewrite Hv.
  - intros c Hc. destruct (drop_spaces (rev v)) as [|x r] eqn:E; [discriminate|].
    injection Hc as ->. exact (drop_spaces_head _ _ _ E).
Qed.

(** ** Undefined behaviour *)

Lemma addMacro_None t n c :
  addMacro t n c = None <->
  findMacro t n = None \/ findMacro t n = Some (-1) /\ (count t = capacity t \/ c = None).
Proof.
  unfold addMacro. destruct (findMacro t n) as [i|]; simpl; [|intuition].
  destruct (Z.eqb_spec i (-1)) as [->|E].
  - destruct (Z.eqb_spec (count t) (capacity t)); [intuition|].
    destruct c; split; try discriminate; intuition congruence.
  - split; [discriminate|]. intros [H|[H _]]; congruence.
Qed.

(** [cut_comment] shortens the line. *)
Lemma cut_at_length c l : (length (cut_at c l) <= length l)%nat.
Proof. induction l as [|x l IH]; simpl; [lia|]. destruct (Ascii.eqb x c); simpl; lia. Qed.

Lemma cut_comment_length l : (length (cut_comment l) <= length l)%nat.
Proof. unfold cut_comment. pose proof (c_str_length_le l). pose proof (cut_at_length ";"%char (c_str l)). lia. Qed.

(** The name [macro_start] looks up is a word of the line or [macroName];
    the lookup is undefined only when that name does not fit. *)
Lemma macro_start_name st line r :
  (length line < MAX_LINE_LEN)%nat -> macro_start st line = r ->
  match r with
  | Some (_, nm) => nm = macroName st \/ strcpy_fits MAX_LINE_LEN nm = true
  | None => strcpy_fits MAX_LINE_LEN (macroName st) = false
  end.
Proof.
  intros Hl <-. unfold macro_start. case_if; [|now left].
  match goal with |- context [if isValidMacroName ?n then _ else _] => set (nm := n) end.
  assert (Hnm : nm = macroName st \/ strcpy_fits MAX_LINE_LEN nm = true).
  { unfold nm. destruct (sscanf_word (skipn LENGTH_OF_MCRO line)) as [w|] eqn:Ew.
    - right. apply (sscanf_word_fits _ _ Ew). rewrite length_skipn. lia.
    - first [now left | now right]. }
  case_if; [|exact Hnm]. destruct (findMacro (macroTable st) nm) eqn:Hf; simpl; [exact Hnm|].
  apply findMacro_None in Hf. destruct Hnm as [<-|H]; [exact Hf|congruence].
Qed.

(** C21: A line [fgets] returns has undefined behaviour only when it is
    the [endmcro] of a macro being defined and the table is full (the
    [addMacro] of the eleventh macro writes past the array) or the macro
    has no content ([strlen(NULL)]), or when [findMacro] copies a
    [macroName] or a [trimmedLine] that does not fit its buffer: a name
    the line itself gives always fits. *)
Theorem processLine_undefined st l :
  (length l < MAX_LINE_LEN)%nat ->
  processLine st l = None ->
  (strstr (cut_comment l) (lit "endmcro") = true /\ isInsideMacro st = true /\
   (count (macroTable st) = capacity (macroTable st) \/ macroContent st = None)) \/
  strcpy_fits MAX_LINE_LEN (macroName st) = false \/
  strcpy_fits MAX_LINE_LEN (trimmedLine st) = false.
Proof.
  intros Hl Hn. pose proof (cut_comment_length l) as Hc. unfold processLine in Hn.
  case_if_in Hn; [discriminate|].
  pose proof (macro_start_name st (cut_comment l) _ ltac:(lia) eq_refl) as Hm.
  destruct (strstr (cut_comment l) (lit "endmcro")) eqn:He; destruct (isInsideMacro st) eqn:Hi;
  destruct (macro_start st (cut_comment l)) as [[started nm]|]; cbn -[findMacro addMacro] in Hn; auto;
    destruct started; try discriminate.
  1: { destruct (findMacro (macroTable st) nm) as [i|] eqn:Hf; cbn -[addMacro] in Hn.
    - destruct (i =? -1); cbn in Hn; [|discriminate].
      destruct (addMacro (macroTable st) nm (macroContent st)) eqn:Ha; cbn in Hn; [discriminate|].
      apply addMacro_None in Ha as [Ha|[_ Ha]]; [congruence|auto].
    - apply findMacro_None in Hf. destruct Hm as [->|]; [auto|congruence]. }
  all: destruct (sscanf_word (cut_comment l)) as [w|] eqn:Ew.
  all: try (rewrite findMacro_fits in Hn by exact (sscanf_word_fits _ _ Ew ltac:(lia)); cbn in Hn;
            repeat case_if_in Hn; discriminate).
  all: destruct (findMacro (macroTable st) (trimmedLine st)) eqn:Hf; cbn in Hn;
       [repeat case_if_in Hn; discriminate|apply findMacro_None in Hf; auto].
Qed.

(** ** Lines outside macros *)

(** A line without ["mcro"] has none of ["endmcro"]. *)
Lemma no_mcro_no_endmcro l : strstr l (lit "mcro") = false -> strstr l (lit "endmcro") = false.
Proof.
  unfold strstr. intros H. destruct (occurs (c_str (lit "endmcro")) (c_str l)) eqn:E; [|reflexivity].
  change (c_str (lit "endmcro")) with (lit "end" ++ lit "mcro") in E.
  apply occurs_app_r in E. change (c_str (lit "mcro")) with (lit "mcro") in H. congruence.
Qed.

(** A line without ["mcro"] does not start a macro. *)
Lemma macro_start_plain st l : strstr l (lit "mcro") = false -> macro_start st l = Some (false, macroName st).
Proof. intros H. unfold macro_start. now rewrite H. Qed.

(** The processing of a line outside a macro that neither starts nor ends
    one: the copy, or the content of the macro named by its first word. *)
Lemma processLine_plain st l :
  isInsideMacro st = false -> strspn_all (cut_comment l) blank_chars = false ->
  strstr (cut_comment l) (lit "mcro") = false ->
  processLine st l =
  let line := cut_comment l in
  let tl := match sscanf_word line with Some w => w | None => trimmedLine st end in
  macroIndex ← findMacro (macroTable st) tl;
  if negb (macroIndex =? -1) then
    let out := if (0 <=? macroIndex) && (macroIndex <? count (macroTable st))
               then match nth_error (macros (macroTable st)) (Z.to_nat macroIndex) with
                    | Some m => output st ++ content m
                    | None => output st
                    end
               else output st in
    Some (mkPP false (macroName st) (macroContent st) tl (macroTable st) out)
  else Some (mkPP false (macroName st) (macroContent st) tl (macroTable st) (output st ++ line)).
Proof.
  intros Hi Hb Hm. unfold processLine. rewrite Hb, macro_start_plain by exact Hm.
  cbn beta iota. rewrite no_mcro_no_endmcro by exact Hm. simpl. now rewrite Hi.
Qed.

(** A valid index of the table selects its macro in the call branch. *)
Lemma call_index_ok tbl i m :
  nth_error (macros tbl) i = Some m ->
  (Z.of_nat i =? -1) = false /\ (0 <=? Z.of_nat i) && (Z.of_nat i <? count tbl) = true /\
  nth_error (macros tbl) (Z.to_nat (Z.of_nat i)) = Some m.
Proof.
  intros Hm. assert (Hlt : (i < length (macros tbl))%nat) by (apply nth_error_Some; congruence).
  rewrite Nat2Z.id. unfold count. split; [lia|]. split; [|exact Hm].
  rewrite (proj2 (Z.leb_le _ _)), (proj2 (Z.ltb_lt _ _)) by lia. reflexivity.
Qed.

(** C22: A line with a comment loses its line break: the text written is the
    part before [';'], which the source's next line then continues, since
    the cut of line 27 also removes the newline [fgets] kept. *)
Theorem comment_drops_newline st l c w :
  isInsideMacro st = false -> no_nul l = true -> ~ In ";"%char l ->
  strspn_all l blank_chars = false -> strstr l (lit "mcro") = false ->
  sscanf_word l = Some w -> findMacro (macroTable st) w = Some (-1) ->
  processLine st (l ++ ";"%char :: c) =
  Some (mkPP false (macroName st) (macroContent st) w (macroTable st) (output st ++ l)).
Proof.
  intros Hi Hn Hs Hb Hm Hw Hf.
  assert (Hc : cut_comment (l ++ ";"%char :: c) = l).
  { unfold cut_comment. rewrite c_str_app_prefix by exact Hn.
    change (c_str (";"%char :: c)) with (";"%char :: c_str c). now apply cut_at_app. }
  rewrite processLine_plain by (rewrite ?Hc; assumption). cbv zeta. rewrite Hc, Hw, Hf. reflexivity.
Qed.

Lemma spaces_facts k :
  let s := repeat " "%char (S k) ++ ["010"%char] in
  cut_comment s = s /\ strspn_all s blank_chars = false /\ strstr s (lit "mcro") = false /\
  sscanf_word s = None.
Proof.
  cbv zeta.
  assert (Hin : forall x, In x (repeat " "%char (S k) ++ ["010"%char]) -> x = " "%char \/ x = "010"%char).
  { intros x Hx. apply in_app_or in Hx as [Hx|[<-|[]]]; [left; now apply repeat_spec in Hx|now right]. }
  assert (Hcs : c_str (repeat " "%char (S k) ++ ["010"%char]) = repeat " "%char (S k) ++ ["010"%char]).
  { apply c_str_forallb, forallb_forall. intros x Hx. destruct (Hin x Hx) as [->| ->]; reflexivity. }
  unfold cut_comment, strspn_all, strstr, sscanf_word. rewrite Hcs.
  split; [apply cut_at_absent; intros Hx; destruct (Hin _ Hx); discriminate|].
  split; [reflexivity|]. split.
  - change (c_str (lit "mcro")) with ("m"%char :: lit "cro"). apply occurs_absent.
    intros Hx; destruct (Hin _ Hx); discriminate.
  - rewrite skip_isspace_all; [reflexivity|]. apply forallb_forall. intros x Hx.
    destruct (Hin x Hx) as [->| ->]; reflexivity.
Qed.

(** C23: A line of spaces writes the content of the macro last named by a
    line's first word: [sscanf] finds no word and leaves [trimmedLine] as
    it was, so [findMacro] looks that name up again. *)
Theorem spaces_line_repeats_macro st k i m :
  isInsideMacro st = false ->
  findMacro (macroTable st) (trimmedLine st) = Some (Z.of_nat i) ->
  nth_error (macros (macroTable st)) i = Some m ->
  processLine st (repeat " "%char (S k) ++ ["010"%char]) =
  Some (mkPP false (macroName st) (macroContent st) (trimmedLine st) (macroTable st)
             (output st ++ content m)).
Proof.
  intros Hi Hf Hm. destruct (spaces_facts k) as (Hc & Hb & Hmc & Hw).
  rewrite processLine_plain by (rewrite ?Hc; assumption). cbv zeta. rewrite Hc, Hw, Hf. cbn [mbind option_bind].
  destruct (call_index_ok _ _ _ Hm) as (H1 & H2 & H3). now rewrite H1, H2, H3.
Qed.

(** ** Lines the contract is about *)

Lemma existsb_eqb_notin c l : existsb (Ascii.eqb c) l = false -> ~ In c l.
Proof.
  intros H Hin. assert (existsb (Ascii.eqb c) l = true) by (apply existsb_exists; exists c;
    split; [exact Hin|apply Ascii.eqb_refl]). congruence.
Qed.

Lemma line_ok_facts l :
  line_ok l = true ->
  (length l < 80)%nat /\ no_nul l = true /\ ~ In nl l /\ ~ In ";"%char l /\
  strspn_all (l ++ [nl]) blank_chars = false /\ strstr (l ++ [nl]) (lit "mcro") = false.
Proof.
  unfold line_ok. intros H. repeat (apply andb_prop in H as [H ?]).
  repeat match goal with Hb : negb _ = true |- _ => apply negb_true_iff in Hb end.
  apply Nat.ltb_lt in H. repeat split; auto using existsb_eqb_notin.
Qed.

Lemma no_nul_nl l : no_nul l = true -> no_nul (l ++ [nl]) = true.
Proof. intros H. rewrite no_nul_app, H. reflexivity. Qed.

Lemma cut_comment_line l : no_nul l = true -> ~ In ";"%char l -> cut_comment (l ++ [nl]) = l ++ [nl].
Proof.
  intros Hn Hs. unfold cut_comment. rewrite c_str_forallb by now apply no_nul_nl.
  apply cut_at_absent. intros [H|[H|[]]]%in_app_or; [contradiction|discriminate].
Qed.

Lemma drop_spaces_word w : forallb (fun c => negb (isspace c)) w = true -> drop_spaces w = w.
Proof. destruct w as [|c w]; simpl; [reflexivity|]. now intros [->%negb_true_iff _]%andb_prop. Qed.

Lemma forallb_rev_iff {A} (f : A -> bool) l : forallb f (rev l) = forallb f l.
Proof.
  induction l as [|x l IH]; simpl; [reflexivity|].
  rewrite forallb_app, IH. simpl. now rewrite Bool.andb_true_r, Bool.andb_comm.
Qed.

(** A word is its own trimmed form. *)
Lemma trimWhitespace_word w :
  no_nul w = true -> forallb (fun c => negb (isspace c)) w = true -> trimWhitespace w = w.
Proof.
  intros Hn Hs. unfold trimWhitespace. rewrite c_str_forallb by exact Hn.
  rewrite (drop_spaces_word w Hs), (drop_spaces_word (rev w)) by (rewrite forallb_rev_iff; exact Hs).
  apply rev_involutive.
Qed.

(** ** The table of an environment *)

Lemma find_from_lookup e w i :
  names_ok e = true -> no_nul w = true ->
  match lookup e w with
  | None => find_from (macros (table_of e)) w i = -1
  | Some t => exists j, find_from (macros (table_of e)) w i = i + Z.of_nat j /\
               nth_error (macros (table_of e)) j = Some (mkMacro w t)
  end.
Proof.
  unfold lookup, table_of; simpl. revert i. induction e as [|[n t] e IH]; intros i He Hw; [reflexivity|].
  simpl in He |- *. apply andb_prop in He as [Hn He].
  unfold streq. rewrite (c_str_forallb n Hn), (c_str_forallb w Hw).
  destruct (bool_decide (n = w)) eqn:E; simpl.
  - apply bool_decide_eq_true in E as ->. exists O. split; [lia|reflexivity].
  - specialize (IH (i + 1) He Hw). destruct (List.find _ e) as [[n' t']|]; simpl in *; [|exact IH].
    destruct IH as (j & H1 & H2). exists (S j). split; [lia|exact H2].
Qed.

(** ** The preprocessor on the sources of the contract *)

(** The state between two items: outside a macro, no content pending, the
    table of the macros defined, and the text written so far. *)
Lemma processLines_app st a b :
  processLines st (a ++ b) = (st' ← processLines st a; processLines st' b).
Proof.
  revert st. induction a as [|l a IH]; intros st; simpl; [reflexivity|].
  destruct (processLine st l); simpl; [apply IH|reflexivity].
Qed.

(** The lookup of a word of the source in the table of [e]. *)
Lemma findMacro_table e w :
  names_ok e = true -> sscanf_word w = Some w -> (length w < MAX_LINE_LEN)%nat ->
  match lookup e w with
  | None => findMacro (table_of e) w = Some (-1)
  | Some t => exists j, findMacro (table_of e) w = Some (Z.of_nat j) /\
               nth_error (macros (table_of e)) j = Some (mkMacro w t)
  end.
Proof.
  intros He Hw Hl. destruct (sscanf_word_word _ _ Hw) as (_ & Hn & Hs).
  rewrite findMacro_fits by (apply strcpy_fits_no_nul; assumption).
  rewrite trimWhitespace_word by assumption.
  pose proof (find_from_lookup e w 0 He Hn) as H. destruct (lookup e w); [|now rewrite H].
  destruct H as (j & H1 & H2). exists j. split; [f_equal; lia|exact H2].
Qed.

Lemma take_nonspace_word w : forallb (fun c => negb (isspace c)) w = true -> take_nonspace w = w.
Proof.
  induction w as [|c w IH]; simpl; [reflexivity|]. intros [Hc Hw]%andb_prop.
  apply negb_true_iff in Hc. now rewrite Hc, IH.
Qed.

Lemma sscanf_word_idem s w : sscanf_word s = Some w -> sscanf_word w = Some w.
Proof.
  intros H. destruct (sscanf_word_word _ _ H) as (Hne & Hn & Hs).
  unfold sscanf_word. rewrite c_str_forallb by exact Hn.
  destruct w as [|c w]; [congruence|]. pose proof Hs as Hs'. simpl in Hs'.
  apply andb_prop in Hs' as [Hc Hw]. apply negb_true_iff in Hc. simpl. rewrite !Hc.
  now rewrite take_nonspace_word.
Qed.

Lemma plain_step e st out l :
  names_ok e = true -> pp_inv e out st -> wf_item e (Plain l) = true ->
  exists st', processLine st (l ++ [nl]) = Some st' /\ pp_inv e (out ++ item_text e (Plain l)) st'.
Proof.
  intros He (Hi & Hc & Ht & Ho) Hwf. simpl in Hwf. apply andb_prop in Hwf as [Hl Hw].
  destruct (line_ok_facts l Hl) as (Hlen & Hn & _ & Hsc & Hb & Hm).
  destruct (sscanf_word l) as [w|] eqn:Ew; [|discriminate]. apply negb_true_iff in Hw.
  rewrite processLine_plain by (rewrite ?cut_comment_line; auto). cbv zeta.
  rewrite cut_comment_line, sscanf_word_newline, Ew, Ht by auto.
  pose proof (findMacro_table e w He (sscanf_word_idem _ _ Ew)
    ltac:(pose proof (sscanf_word_length _ _ Ew); unfold MAX_LINE_LEN; lia)) as Hf.
  unfold defined in Hw. destruct (lookup e w); [discriminate|]. rewrite Hf. simpl.
  eexists. split; [reflexivity|]. repeat split; simpl; congruence.
Qed.

Lemma call_step e st out n :
  names_ok e = true -> pp_inv e out st -> wf_item e (Call n) = true ->
  exists st', processLine st (n ++ [nl]) = Some st' /\ pp_inv e (out ++ item_text e (Call n)) st'.
Proof.
  intros He (Hi & Hc & Ht & Ho) Hwf. simpl in Hwf.
  apply andb_prop in Hwf as [Hwf Hd]. apply andb_prop in Hwf as [Hl Hw%bool_decide_eq_true].
  destruct (line_ok_facts n Hl) as (Hlen & Hn & _ & Hsc & Hb & Hm).
  rewrite processLine_plain by (rewrite ?cut_comment_line; auto). cbv zeta.
  rewrite cut_comment_line, sscanf_word_newline, Hw, Ht by auto.
  pose proof (findMacro_table e n He Hw ltac:(unfold MAX_LINE_LEN; lia)) as Hf. unfold defined in Hd.
  destruct (lookup e n) as [t|] eqn:El; [|discriminate]. destruct Hf as (j & Hj & Hnth). rewrite Hj. cbn [mbind option_bind].
  assert (Hlt : (j < length (macros (table_of e)))%nat) by (apply nth_error_Some; congruence).
  unfold count. replace (Z.of_nat j =? -1) with false by lia.
  rewrite (proj2 (Z.leb_le _ _)), (proj2 (Z.ltb_lt _ _)), Nat2Z.id, Hnth by lia. simpl.
  eexists. split; [reflexivity|]. repeat split; simpl; rewrite ?El; congruence.
Qed.

Lemma define_facts e n body :
  wf_item e (Define n body) = true ->
  no_nul (mcro_line n) = true /\ ~ In ";"%char (mcro_line n) /\
  strstr (mcro_line n ++ [nl]) (lit "endmcro") = false /\
  sscanf_word (skipn LENGTH_OF_MCRO (mcro_line n)) = Some n /\
  isValidMacroName n = true /\ defined e n = false /\ (length e < 10)%nat /\
  body <> [] /\ forallb line_ok body = true /\ (length n < MAX_LINE_LEN)%nat.
Proof.
  intros H. cbn [wf_item] in H. cbv zeta in H. repeat (apply andb_prop in H as [H ?]).
  repeat match goal with Hb : negb _ = true |- _ => apply negb_true_iff in Hb end.
  repeat match goal with Hb : bool_decide _ = true |- _ => apply bool_decide_eq_true in Hb end.
  repeat split; auto using existsb_eqb_notin.
  - now apply Nat.ltb_lt.
  - intros ->. discriminate.
  - match goal with Hd : (length (mcro_line n) <? 80)%nat = true |- _ => apply Nat.ltb_lt in Hd end.
    unfold mcro_line in *. rewrite length_app in *. simpl in *. unfold MAX_LINE_LEN. lia.
Qed.

(** The line [mcro NAME] of a new, valid name starts the macro. *)
Lemma mcro_step e st out n body :
  names_ok e = true -> pp_inv e out st -> wf_item e (Define n body) = true ->
  processLine st (mcro_line n ++ [nl]) =
  Some (mkPP true n None (trimmedLine st) (table_of e) out).
Proof.
  intros He (Hi & Hc & Ht & Ho) Hwf.
  destruct (define_facts e n body Hwf) as (Hn & Hs & Hend & Hw & Hv & Hd & _ & _ & _ & Hln).
  assert (Hms : macro_start st (mcro_line n ++ [nl]) = Some (true, n)).
  { unfold macro_start.
    replace (strstr (mcro_line n ++ [nl]) (lit "mcro")) with true by reflexivity.
    rewrite Hend. cbn [andb negb].
    change (skipn LENGTH_OF_MCRO (mcro_line n ++ [nl])) with (skipn LENGTH_OF_MCRO (mcro_line n) ++ [nl]).
    rewrite sscanf_word_newline, Hw by exact Hn.
    pose proof (findMacro_table e n He (sscanf_word_idem _ _ Hw) Hln) as Hf.
    unfold defined in Hd. destruct (lookup e n); [discriminate|].
    rewrite Hv, Ht, Hf. reflexivity. }
  unfold processLine. rewrite cut_comment_line by assumption.
  replace (strspn_all (mcro_line n ++ [nl]) blank_chars) with false by reflexivity.
  rewrite Hms. cbn. rewrite Ht, Hc, Ho. reflexivity.
Qed.

(** A line of a macro's body is appended to its content. *)
Lemma body_line_step n c tl tbl out l :
  line_ok l = true ->
  processLine (mkPP true n c tl tbl out) (l ++ [nl]) =
  Some (mkPP true n (Some (match c with Some x => x | None => [] end ++ l ++ [nl])) tl tbl out).
Proof.
  intros Hl. destruct (line_ok_facts l Hl) as (_ & Hn & _ & Hsc & Hb & Hm).
  unfold processLine. rewrite cut_comment_line, Hb by assumption.
  rewrite macro_start_plain, no_mcro_no_endmcro by exact Hm. reflexivity.
Qed.

Lemma body_steps n c tl tbl out body :
  forallb line_ok body = true -> body <> [] ->
  processLines (mkPP true n c tl tbl out) (map (fun l => l ++ [nl]) body) =
  Some (mkPP true n (Some (match c with Some x => x | None => [] end ++ with_newlines body)) tl tbl out).
Proof.
  revert c. induction body as [|l body IH]; intros c Hok Hne; [congruence|].
  simpl in Hok. apply andb_prop in Hok as [Hl Hok]. simpl. rewrite body_line_step by exact Hl.
  simpl. destruct body as [|l' body'].
  - unfold with_newlines. simpl. now rewrite !app_nil_r.
  - rewrite IH by (assumption || discriminate). unfold with_newlines. simpl.
    now rewrite !app_assoc.
Qed.

Lemma with_newlines_no_nul body : forallb line_ok body = true -> no_nul (with_newlines body) = true.
Proof.
  unfold with_newlines. induction body as [|l body IH]; [reflexivity|].
  cbn [forallb map concat]. intros [Hl Hok]%andb_prop.
  destruct (line_ok_facts l Hl) as (_ & Hn & _).
  rewrite no_nul_app, no_nul_nl, IH; auto.
Qed.

(** The line [endmcro] adds the macro to the table. *)
Lemma endmcro_step e n tl out text :
  names_ok e = true -> no_nul n = true -> no_nul text = true -> (length e < 10)%nat ->
  lookup e n = None -> forallb (fun c => negb (isspace c)) n = true -> (length n < MAX_LINE_LEN)%nat ->
  processLine (mkPP true n (Some text) tl (table_of e) out) (endmcro_line ++ [nl]) =
  Some (mkPP false n None tl (table_of (e ++ [(n, text)])) out).
Proof.
  intros He Hn Ht Hlen Hl Hs Hln.
  assert (Hf : findMacro (table_of e) n = Some (-1)).
  { rewrite findMacro_fits by (apply strcpy_fits_no_nul; assumption).
    rewrite trimWhitespace_word by assumption.
    pose proof (find_from_lookup e n 0 He Hn) as H. rewrite Hl in H. now rewrite H. }
  unfold processLine.
  replace (cut_comment (endmcro_line ++ [nl])) with (endmcro_line ++ [nl]) by reflexivity.
  replace (strspn_all (endmcro_line ++ [nl]) blank_chars) with false by reflexivity.
  replace (macro_start (mkPP true n (Some text) tl (table_of e) out) (endmcro_line ++ [nl]))
    with (Some (false, n)) by reflexivity.
  replace (strstr (endmcro_line ++ [nl]) (lit "endmcro")) with true by reflexivity.
  cbn -[findMacro addMacro]. rewrite Hf. cbn -[findMacro addMacro]. unfold addMacro. rewrite Hf.
  cbn [mbind option_bind].
  unfold count. change (capacity (table_of e)) with 10.
  replace (macros (table_of e)) with (map (fun p => mkMacro (fst p) (snd p)) e) by reflexivity.
  rewrite length_map, (c_str_forallb n Hn), (c_str_forallb text Ht).
  replace (Z.of_nat (length e) =? 10) with false by lia. simpl.
  unfold table_of. rewrite map_app. reflexivity.
Qed.

Lemma define_step e st out n body :
  names_ok e = true -> pp_inv e out st -> wf_item e (Define n body) = true ->
  exists st', processLines st (map (fun l => l ++ [nl]) (item_lines (Define n body))) = Some st' /\
    pp_inv (next_env e (Define n body)) (out ++ item_text e (Define n body)) st' /\
    names_ok (next_env e (Define n body)) = true.
Proof.
  intros He Hinv Hwf. pose proof (mcro_step e st out n body He Hinv Hwf) as Hm.
  destruct (define_facts e n body Hwf) as (Hn & Hs & Hend & Hw & Hv & Hd & Hlen & Hne & Hok & Hln).
  destruct (sscanf_word_word _ _ Hw) as (_ & Hnn & Hns).
  cbn [item_lines map]. cbn [processLines]. rewrite Hm. cbn [mbind option_bind].
  rewrite map_app, processLines_app, body_steps by assumption. cbn [mbind option_bind].
  unfold defined in Hd. destruct (lookup e n) eqn:El; [discriminate|].
  cbn [map processLines]. rewrite app_nil_l, endmcro_step by (auto using with_newlines_no_nul).
  eexists. split; [reflexivity|]. split.
  - repeat split; simpl; now rewrite ?app_nil_r.
  - unfold names_ok in *. simpl. rewrite forallb_app, He. simpl. now rewrite Hnn.
Qed.

Lemma item_step e st out it :
  names_ok e = true -> pp_inv e out st -> wf_item e it = true ->
  exists st', processLines st (map (fun l => l ++ [nl]) (item_lines it)) = Some st' /\
    pp_inv (next_env e it) (out ++ item_text e it) st' /\ names_ok (next_env e it) = true.
Proof.
  intros He Hinv Hwf. destruct it as [l|n body|n].
  - destruct (plain_step e st out l He Hinv Hwf) as (st' & H1 & H2).
    exists st'. simpl. rewrite H1. auto.
  - now apply define_step.
  - destruct (call_step e st out n He Hinv Hwf) as (st' & H1 & H2).
    exists st'. simpl. rewrite H1. auto.
Qed.

Lemma items_steps e st out items :
  names_ok e = true -> pp_inv e out st -> wf_items e items = true ->
  exists e' st', processLines st (map (fun l => l ++ [nl]) (concat (map item_lines items))) = Some st' /\
    pp_inv e' (out ++ expand e items) st'.
Proof.
  revert e st out. induction items as [|it items IH]; intros e st out He Hinv Hwf.
  - exists e, st. simpl. rewrite app_nil_r. auto.
  - simpl in Hwf. apply andb_prop in Hwf as [Hit Hwf].
    destruct (item_step e st out it He Hinv Hit) as (st1 & H1 & Hinv1 & He1).
    destruct (IH _ _ _ He1 Hinv1 Hwf) as (e' & st' & H2 & Hinv2).
    exists e', st'. cbn [concat map]. rewrite map_app, processLines_app. unfold cstr in *. rewrite H1. cbn [mbind option_bind].
    rewrite H2. cbn [expand]. rewrite app_assoc. auto.
Qed.

Lemma wf_items_fit e items : wf_items e items = true -> Forall fits (concat (map item_lines items)).
Proof.
  revert e. induction items as [|it items IH]; intros e Hwf; cbn [concat map]; [constructor|].
  cbn [wf_items] in Hwf. apply andb_prop in Hwf as [Hit Hwf]. apply Forall_app. split; [|exact (IH _ Hwf)].
  assert (Hl : forall l, line_ok l = true -> fits l)
    by (intros l Hl; destruct (line_ok_facts l Hl) as (? & _ & ? & _); split; assumption).
  destruct it as [l|n body|n]; cbn [wf_item item_lines] in Hit |- *.
  - apply andb_prop in Hit as [Hit _]. constructor; [now apply Hl|constructor].
  - cbv zeta in Hit. repeat (apply andb_prop in Hit as [Hit ?]).
    repeat match goal with Hb : negb _ = true |- _ => apply negb_true_iff in Hb end.
    constructor; [split; [now apply Nat.ltb_lt|now apply existsb_eqb_notin]|].
    apply Forall_app. split; [|constructor; [split; [simpl; lia|apply existsb_eqb_notin; reflexivity]|constructor]].
    apply List.Forall_forall. intros l Hin. apply Hl. eapply forallb_forall; eassumption.
  - apply andb_prop in Hit as [Hit _]. apply andb_prop in Hit as [Hit _].
    constructor; [now apply Hl|constructor].
Qed.

Lemma fgets_lines_with_newlines fuel ls :
  Forall fits ls -> (length (with_newlines ls) < fuel)%nat ->
  fgets_lines fuel (with_newlines ls) = map (fun l => l ++ [nl]) ls.
Proof.
  revert fuel. induction ls as [|l ls IH]; intros fuel Hf Hlen.
  - destruct fuel; reflexivity.
  - inversion Hf as [|? ? [Hl80 Hnl] Hf']; subst. destruct fuel as [|fuel]; [lia|].
    unfold with_newlines in *. cbn [map concat] in *. rewrite <- app_assoc.
    change (l ++ [nl] ++ concat (map (fun l0 => l0 ++ [nl]) ls))
      with (l ++ "010"%char :: concat (map (fun l0 => l0 ++ [nl]) ls)).
    rewrite fgets_lines_newline by assumption. cbn [map]. f_equal. apply IH; [exact Hf'|].
    rewrite !length_app in Hlen. simpl in Hlen. lia.
Qed.

Lemma processSourceFile_expands macroName0 trimmedLine0 items :
  wf_items [] items = true ->
  exists t, processSourceFile macroName0 trimmedLine0 (render items) initializeMacroTable
            = Some (expand [] items, t).
Proof.
  intros Hwf. unfold processSourceFile, render.
  rewrite fgets_lines_with_newlines by (apply (wf_items_fit [] items Hwf) || lia).
  destruct (items_steps [] (mkPP false macroName0 None trimmedLine0 initializeMacroTable []) []
              items eq_refl ltac:(repeat split) Hwf) as (e' & st' & H & (_ & _ & _ & Ho)).
  rewrite H. simpl. rewrite Ho. eauto.
Qed.

(** C17: Refinement: on every source of the contract, the text the
    preprocessor writes is the expansion the contract asks for, whatever
    the initial contents of its two uninitialised buffers. *)
Theorem processSourceFile_refines macroName0 trimmedLine0 items :
  wf_items [] items = true ->
  option_map fst (processSourceFile macroName0 trimmedLine0 (render items) initializeMacroTable)
  = Some (expand [] items).
Proof.
  intros Hwf. destruct (processSourceFile_expands macroName0 trimmedLine0 items Hwf) as [t ->].
  reflexivity.
Qed.

(** [sscanf] reads a word followed by a space. *)
Lemma sscanf_word_space w r :
  w <> [] -> no_nul w = true -> forallb (fun c => negb (isspace c)) w = true ->
  sscanf_word (w ++ " "%char :: r) = Some w.
Proof.
  intros Hne Hn Hs. unfold sscanf_word. rewrite c_str_app_prefix by exact Hn.
  destruct w as [|c w']; [congruence|]. cbn [forallb] in Hs. apply andb_prop in Hs as [Hc Hs'].
  apply negb_true_iff in Hc. cbn [app skip_isspace]. rewrite Hc. f_equal.
  change (c :: w' ++ c_str (" "%char :: r)) with ((c :: w') ++ " "%char :: c_str r).
  rewrite take_nonspace_app_space by reflexivity. apply take_nonspace_word. cbn. now rewrite Hc, Hs'.
Qed.

(** A line in which a word follows a prefix without NUL is not blank. *)
Lemma strspn_blank_word p w x :
  no_nul p = true -> w <> [] -> no_nul w = true -> forallb (fun c => negb (isspace c)) w = true ->
  strspn_all (p ++ w ++ x) blank_chars = false.
Proof.
  intros Hp Hne Hn Hs. unfold strspn_all. rewrite c_str_app_prefix, c_str_app_prefix by assumption.
  rewrite forallb_app. destruct w as [|c w']; [congruence|]. cbn [forallb] in Hs.
  apply andb_prop in Hs as [Hc _]. apply negb_true_iff in Hc.
  assert (Hx : existsb (Ascii.eqb c) blank_chars = false).
  { apply not_true_iff_false. intros (b & Hb & Eb)%existsb_exists.
    apply Ascii.eqb_eq in Eb as ->. cbn in Hb.
    repeat destruct Hb as [<-|Hb]; try contradiction; discriminate. }
  cbn [app forallb]. rewrite Hx. apply andb_false_r.
Qed.

Lemma no_semicolon_app l r : ~ In ";"%char l -> ~ In ";"%char r -> ~ In ";"%char (l ++ r).
Proof. intros Hl Hr [H|H]%in_app_or; contradiction. Qed.

(** ** The table stays within its allocation *)

Lemma addMacro_bounded t n c t' :
  table_bounded t -> addMacro t n c = Some t' -> table_bounded t'.
Proof.
  intros [Hc Hn]. unfold addMacro. destruct (findMacro t n) as [i|]; cbn [mbind option_bind]; [|discriminate].
  case_if; [|intros [= <-]; split; assumption].
  case_if; [discriminate|]. destruct c as [c|]; [|discriminate]. intros [= <-].
  unfold table_bounded, count in *. simpl. rewrite length_app. simpl length.
  apply Z.eqb_neq in Heqb0. lia.
Qed.

Lemma processLine_bounded st l st' :
  table_bounded (macroTable st) -> processLine st l = Some st' -> table_bounded (macroTable st').
Proof.
  intros Hb Hn. unfold processLine in Hn. case_if_in Hn; [congruence|].
  destruct (macro_start st (cut_comment l)) as [[started nm]|]; cbn -[findMacro addMacro lit strstr] in Hn;
    [|discriminate].
  destruct started; [injection Hn as <-; exact Hb|].
  destruct (strstr (cut_comment l) (lit "endmcro") && isInsideMacro st).
  - destruct (findMacro (macroTable st) nm) as [i|]; cbn -[addMacro lit strstr] in Hn; [|discriminate].
    destruct (i =? -1); cbn -[addMacro lit strstr] in Hn; [|injection Hn as <-; exact Hb].
    destruct (addMacro _ _ _) as [t|] eqn:Ht; cbn in Hn; [|discriminate].
    injection Hn as <-. exact (addMacro_bounded _ _ _ _ Hb Ht).
  - destruct (isInsideMacro st); [injection Hn as <-; exact Hb|].
    destruct (findMacro _ _); cbn in Hn; [|discriminate]. repeat case_if_in Hn; injection Hn as <-; exact Hb.
Qed.

(** C30: The name of a macro is the word [sscanf] finds at offset 4 of
    the line, whatever the four characters before it are: a line
    containing [mcro] starts a definition named after that word, so
    ["  mcro m1"] defines a macro [ro] and ["mov mcro1, r2"] a macro
    [mcro1,]. *)
Theorem offset_word_names_macro st p w r :
  length p = LENGTH_OF_MCRO -> no_nul p = true -> ~ In ";"%char p ->
  w <> [] -> no_nul w = true -> forallb (fun c => negb (isspace c)) w = true -> ~ In ";"%char w ->
  no_nul r = true -> ~ In ";"%char r ->
  strstr (p ++ w ++ " "%char :: r ++ [nl]) (lit "mcro") = true ->
  strstr (p ++ w ++ " "%char :: r ++ [nl]) (lit "endmcro") = false ->
  isValidMacroName w = true -> findMacro (macroTable st) w = Some (-1) ->
  processLine st ((p ++ w ++ " "%char :: r) ++ [nl]) =
  Some (mkPP true w (macroContent st) (trimmedLine st) (macroTable st) (output st)).
Proof.
  intros Hl Hp Hps Hne Hw Hs Hws Hr Hrs Hm He Hv Hf. unfold processLine.
  rewrite cut_comment_line; [|rewrite !no_nul_app, Hp, Hw; exact Hr|].
  2: { apply no_semicolon_app; [exact Hps|]. apply no_semicolon_app; [exact Hws|].
       intros [H|H]; [discriminate|contradiction]. }
  rewrite <- !app_assoc. cbn [app]. rewrite strspn_blank_word by assumption.
  unfold macro_start. rewrite Hm, He. cbn [andb negb]. rewrite <- Hl, drop_app_length.
  rewrite sscanf_word_space by assumption. rewrite Hv, Hf. reflexivity.
Qed.

(** C31: Only the first word of a line is compared with the macro names: a
    line whose first word names a macro writes that macro's content and
    nothing of the rest of the line. *)
Theorem first_word_call_drops_rest st w r i m :
  isInsideMacro st = false ->
  w <> [] -> no_nul w = true -> forallb (fun c => negb (isspace c)) w = true -> ~ In ";"%char w ->
  no_nul r = true -> ~ In ";"%char r ->
  strstr ((w ++ " "%char :: r) ++ [nl]) (lit "mcro") = false ->
  findMacro (macroTable st) w = Some (Z.of_nat i) -> nth_error (macros (macroTable st)) i = Some m ->
  processLine st ((w ++ " "%char :: r) ++ [nl]) =
  Some (mkPP false (macroName st) (macroContent st) w (macroTable st) (output st ++ content m)).
Proof.
  intros Hi Hne Hw Hs Hws Hr Hrs Hm Hf Hn.
  assert (Hc : cut_comment ((w ++ " "%char :: r) ++ [nl]) = (w ++ " "%char :: r) ++ [nl]).
  { apply cut_comment_line; [rewrite no_nul_app, Hw; exact Hr|].
    apply no_semicolon_app; [exact Hws|]. intros [H|H]; [discriminate|contradiction]. }
  assert (Hb : strspn_all ((w ++ " "%char :: r) ++ [nl]) blank_chars = false)
    by (rewrite <- app_assoc; exact (strspn_blank_word [] w _ eq_refl Hne Hw Hs)).
  rewrite processLine_plain by (rewrite ?Hc; assumption). cbv zeta. rewrite Hc.
  rewrite <- app_assoc. cbn [app]. rewrite sscanf_word_space, Hf by assumption. cbn [mbind option_bind].
  destruct (call_index_ok _ _ _ Hn) as (H1 & H2 & H3). now rewrite H1, H2, H3.
Qed.

(** C33: Invariant of [processSourceFile]: from [initializeMacroTable],
    every table it leaves has ten slots and at most ten macros; the
    [addMacro] that would write an eleventh is undefined behaviour (C21),
    so the doubling of the capacity is never
    reached. *)
Theorem processLines_table_bounded st ls st' :
  table_bounded (macroTable st) -> processLines st ls = Some st' -> table_bounded (macroTable st').
Proof.
  revert st. induction ls as [|l ls IH]; intros st Hb H; cbn [processLines] in H; [congruence|].
  destruct (processLine st l) as [st1|] eqn:H1; [|discriminate].
  exact (IH st1 (processLine_bounded _ _ _ Hb H1) H).
Qed.

(** The first buffer [fgets] returns from a file starting with a short line. *)
Lemma fgets_lines_first l rest :
  (length l < 80)%nat -> ~ In nl l ->
  fgets_lines (S (length (l ++ nl :: rest))) (l ++ nl :: rest) =
  (l ++ [nl]) :: fgets_lines (length (l ++ nl :: rest)) rest.
Proof. apply fgets_lines_newline. Qed.

(** C18: [macroName] and [trimmedLine] are read before any line writes
    them.  A file whose first line is made of spaces looks up the
    uninitialised [trimmedLine]; one whose first line is [mcro] without a
    name looks up the uninitialised [macroName] when its bytes form a
    valid name.  When that buffer of [MAX_LINE_LEN] bytes holds no NUL,
    the [strcpy] of [findMacro] reads and writes past it: the
    preprocessor has undefined behaviour, whatever the rest of the file. *)
Theorem uninitialised_buffer_undefined macroName0 trimmedLine0 k rest t :
  (k < 79)%nat ->
  (strcpy_fits MAX_LINE_LEN trimmedLine0 = false ->
   processSourceFile macroName0 trimmedLine0 (repeat " "%char (S k) ++ nl :: rest) t = None) /\
  (isValidMacroName macroName0 = true -> strcpy_fits MAX_LINE_LEN macroName0 = false ->
   processSourceFile macroName0 trimmedLine0 (lit "mcro" ++ nl :: rest) t = None).
Proof.
  intros Hk. unfold processSourceFile. split.
  - intros Hf. rewrite fgets_lines_first; [|rewrite repeat_length; lia|].
    2: { intros Hin. apply repeat_spec in Hin. discriminate. }
    destruct (spaces_facts k) as (Hc & Hb & Hm & Hw). cbn [processLines]. unfold nl.
    rewrite processLine_plain by (rewrite ?Hc; first [reflexivity | assumption]).
    cbv zeta. rewrite Hc, Hw. cbn [macroTable trimmedLine].
    now rewrite (proj2 (findMacro_None t _) Hf).
  - intros Hv Hf. rewrite fgets_lines_first by (simpl; intuition (lia || discriminate)).
    cbn [processLines]. apply (proj2 (findMacro_None t _)) in Hf.
    unfold processLine.
    replace (cut_comment (lit "mcro" ++ [nl])) with (lit "mcro" ++ [nl]) by reflexivity.
    replace (strspn_all (lit "mcro" ++ [nl]) blank_chars) with false by reflexivity.
    unfold macro_start.
    replace (strstr (lit "mcro" ++ [nl]) (lit "mcro") && negb (strstr (lit "mcro" ++ [nl]) (lit "endmcro")))
      with true by reflexivity.
    replace (sscanf_word (skipn LENGTH_OF_MCRO (lit "mcro" ++ [nl]))) with (@None cstr) by reflexivity.
    cbn [macroName macroTable]. now rewrite Hv, Hf.
Qed.

Lemma processLine_undefined_witness :
  (length (endmcro_line ++ [nl]) < MAX_LINE_LEN)%nat /\
  processLine pp_full_table (endmcro_line ++ [nl]) = None /\
  ((strstr (cut_comment (endmcro_line ++ [nl])) (lit "endmcro") = true /\
    isInsideMacro pp_full_table = true /\
    (count (macroTable pp_full_table) = capacity (macroTable pp_full_table) \/
     macroContent pp_full_table = None)) \/
   strcpy_fits MAX_LINE_LEN (macroName pp_full_table) = false \/
   strcpy_fits MAX_LINE_LEN (trimmedLine pp_full_table) = false).
Proof.
  assert (Hl : (length (endmcro_line ++ [nl]) < MAX_LINE_LEN)%nat) by (unfold MAX_LINE_LEN; simpl; lia).
  assert (H : processLine pp_full_table (endmcro_line ++ [nl]) = None) by (vm_compute; reflexivity).
  split; [exact Hl|]. split; [exact H|]. exact (processLine_undefined _ _ Hl H).
Defined.

Lemma comment_drops_newline_witness :
  processLine pp_example (lit "mov @r1,@r2 " ++ ";"%char :: lit " copy" ++ [nl]) =
  Some (mkPP false (lit "m1") None (lit "mov") (macroTable pp_example) (lit "mov @r1,@r2 ")).
Proof.
  apply (comment_drops_newline pp_example (lit "mov @r1,@r2 ") (lit " copy" ++ [nl]) (lit "mov"));
    [reflexivity|reflexivity|cbv; intuition discriminate|reflexivity..].
Defined.

Lemma spaces_line_repeats_macro_witness :
  processLine pp_example (repeat " "%char 3 ++ ["010"%char]) =
  Some (mkPP false (lit "m1") None (lit "m1") (macroTable pp_example) (lit "inc @r1" ++ [nl])).
Proof.
  apply (spaces_line_repeats_macro pp_example 2 0 (mkMacro (lit "m1") (lit "inc @r1" ++ [nl])));
    reflexivity.
Defined.

Lemma processSourceFile_refines_witness :
  wf_items [] sample_items = true /\
  option_map fst (processSourceFile [] [] (render sample_items) initializeMacroTable)
  = Some (lit "L: mov @r1,@r2" ++ [nl] ++ lit "inc @r1" ++ [nl] ++ lit "clr @r2" ++ [nl] ++ lit "stop" ++ [nl]).
Proof.
  assert (H : wf_items [] sample_items = true) by (vm_compute; reflexivity).
  split; [exact H|]. rewrite (processSourceFile_refines [] [] sample_items H). vm_compute. reflexivity.
Defined.

Lemma offset_word_names_macro_witness :
  processLine pp_example ((lit "  mc" ++ lit "ro" ++ " "%char :: lit "m1") ++ [nl]) =
  Some (mkPP true (lit "ro") (macroContent pp_example) (trimmedLine pp_example)
             (macroTable pp_example) (output pp_example)).
Proof.
  apply offset_word_names_macro; try reflexivity; try discriminate; cbv; intuition discriminate.
Defined.

Lemma first_word_call_drops_rest_witness :
  processLine pp_example ((lit "m1" ++ " "%char :: lit "x") ++ [nl]) =
  Some (mkPP false (macroName pp_example) (macroContent pp_example) (lit "m1")
             (macroTable pp_example) (output pp_example ++ lit "inc @r1" ++ [nl])).
Proof.
  apply (first_word_call_drops_rest pp_example (lit "m1") (lit "x") 0
           (mkMacro (lit "m1") (lit "inc @r1" ++ [nl])));
    try reflexivity; try discriminate; cbv; intuition discriminate.
Defined.

Lemma processLines_table_bounded_witness :
  table_bounded (macroTable (mkPP false [] None [] initializeMacroTable [])) /\
  exists st', processLines (mkPP false [] None [] initializeMacroTable [])
                (fgets_lines (S (length (render sample_items))) (render sample_items)) = Some st' /\
              table_bounded (macroTable st').
Proof.
  assert (Hb : table_bounded (macroTable (mkPP false [] None [] initializeMacroTable [])))
    by (unfold table_bounded; vm_compute; intuition discriminate).
  split; [exact Hb|].
  destruct (processLines _ (fgets_lines _ (render sample_items))) as [st'|] eqn:H;
    [|vm_compute in H; discriminate].
  exists st'. split; [reflexivity|]. exact (processLines_table_bounded _ _ _ Hb H).
Defined.

(** Both buffers hold 81 bytes ['a'] and no NUL. *)
Lemma uninitialised_buffer_undefined_witness :
  (2 < 79)%nat /\
  strcpy_fits MAX_LINE_LEN (repeat "a"%char 81) = false /\
  isValidMacroName (repeat "a"%char 81) = true /\
  processSourceFile (repeat "a"%char 81) (repeat "a"%char 81) (repeat " "%char 3 ++ nl :: lit "stop")
    initializeMacroTable = None /\
  processSourceFile (repeat "a"%char 81) (repeat "a"%char 81) (lit "mcro" ++ nl :: lit "stop")
    initializeMacroTable = None.
Proof.
  assert (Hf : strcpy_fits MAX_LINE_LEN (repeat "a"%char 81) = false) by (vm_compute; reflexivity).
  assert (Hv : isValidMacroName (repeat "a"%char 81) = true) by (vm_compute; reflexivity).
  destruct (uninitialised_buffer_undefined (repeat "a"%char 81) (repeat "a"%char 81) 2 (lit "stop")
              initializeMacroTable ltac:(lia)) as [H1 H2].
  split; [lia|]. split; [exact Hf|]. split; [exact Hv|]. split; [exact (H1 Hf)|exact (H2 Hv Hf)].
Defined.

End Preprocessor.
