(* ===== verification/Machine.v ===== *)
(** * The data model of src/utils.h

    Tokens, labels, and the [machine_word] record with its union of four
    bit-field structs.  The union's storage is modelled as the two C ints
    it occupies: [mw_bits], the 32-bit unit that holds every bit field, and
    [mw_line], the [line_number] int of [data_word].  Bit fields are laid
    out as GCC lays them out on x86-64 (first field in the least significant
    bits), so that a write through one member of the union and a read
    through another see the same bits, as they do in the compiled program. *)

From Stdlib Require Import ZArith List Ascii String Lia.
From stdpp Require Import base decidable strings.
From S2P Require Import Prelude CLib.
Import ListNotations.
Open Scope Z_scope.

(** ** Constants (utils.h lines 4-13) *)
Definition baseAddress : Z := 100.
Definition MAX_MEMORY_SPACE : Z := 1024.
Definition MAX_LINE_LENGTH : Z := 80.
Definition MAX_FILE_SIZE : Z := 100.
Definition MAX_LABEL_LENGTH : Z := 31.
Definition MAX_FILE_NAME_LENGTH : Z := 76.

(** ** Tokens (utils.h lines 39-61) *)
Inductive TokenType :=
| DIRECTIVE | ONE_OPERAND | TWO_OPERANDS | NO_OPERANDS | REGISTER | NUMBER
| LABEL_DECLARATION | LABEL | COMMA | DATA | END | INVALID.

#[export] Instance TokenType_eq_dec : EqDecision TokenType.
Proof. solve_decision. Defined.

(** The int value of each enumerator. *)
Definition TokenType_code (t : TokenType) : Z :=
  match t with
  | DIRECTIVE => 0 | ONE_OPERAND => 1 | TWO_OPERANDS => 2 | NO_OPERANDS => 3
  | REGISTER => 4 | NUMBER => 5 | LABEL_DECLARATION => 6 | LABEL => 7
  | COMMA => 8 | DATA => 9 | END => 10 | INVALID => 11
  end.

(** [union value { char string[32]; int integer; }]: [tok_buf] holds the
    bytes of the union read as chars.  Storing [integer] overwrites its
    first four bytes with the int in little-endian order. *)
Record Token := mkToken { tok_type : TokenType; tok_buf : cstr }.

(** [token.value.string], as a C string. *)
Definition tok_str (t : Token) : cstr := c_str (tok_buf t).

(** The four little-endian bytes of a 32-bit int. *)
Definition le_bytes (n : Z) : cstr :=
  [chr n; chr (Z.shiftr n 8); chr (Z.shiftr n 16); chr (Z.shiftr n 24)].

(** [token.value.integer = n] on a union whose string member is [s]. *)
Definition store_integer (buf : cstr) (n : Z) : cstr := le_bytes n ++ skipn 4 buf.

(** ** Labels (utils.h lines 23-36)

    The [next] pointer of the linked list is the list structure of the
    table (Labels.v); [lname] is the [name] buffer. *)
Record label := mkLabel {
  lname : cstr;
  laddress : Z;
  lisExternal : bool;
  lisEntry : bool;
  lisData : bool
}.

(** ** Machine words (utils.h lines 64-109) *)
Inductive WordType :=
| FIRST_WORD_TYPE | IMMDT_DRCT_WORD_TYPE | DATA_WORD_TYPE | RGSTR_WORD_TYPE
(** any other value an uninitialised [wordType] may hold *)
| OTHER_WORD_TYPE.

#[export] Instance WordType_eq_dec : EqDecision WordType.
Proof. solve_decision. Defined.

Record machine_word := mkWord {
  mw_label : label;
  isLabel : bool;
  wordType : WordType;
  mw_bits : Z;
  mw_line : Z
}.

(** A bit field of one of the union's structs: its position and width. *)
Record bitfield := mkField { bf_pos : Z; bf_width : Z }.

(** [struct first_word { ARE:2; dst_op_addr:3; src_op_addr:3; op_code:4 }] *)
Definition first_word_ARE := mkField 0 2.
Definition first_word_dst_op_addr := mkField 2 3.
Definition first_word_src_op_addr := mkField 5 3.
Definition first_word_op_code := mkField 8 4.

(** [struct immdt_drct_word { ARE:2; operand:10 }] *)
Definition immdt_drct_word_ARE := mkField 0 2.
Definition immdt_drct_word_operand := mkField 2 10.

(** [struct data_word { data:12; int line_number }] *)
Definition data_word_data := mkField 0 12.

(** [struct rgstr_word { ARE:2; dst_op_addr:5; src_op_addr:5 }] *)
Definition rgstr_word_ARE := mkField 0 2.
Definition rgstr_word_dst_op_addr := mkField 2 5.
Definition rgstr_word_src_op_addr := mkField 7 5.

(** [w.word.<struct>.<field>] *)
Definition get (f : bitfield) (w : machine_word) : Z :=
  field_get (mw_bits w) (bf_pos f) (bf_width f).

(** [w.word.<struct>.<field> = v] *)
Definition set (f : bitfield) (v : Z) (w : machine_word) : machine_word :=
  {| mw_label := mw_label w; isLabel := isLabel w; wordType := wordType w;
     mw_bits := field_set (mw_bits w) (bf_pos f) (bf_width f) v;
     mw_line := mw_line w |}.

Definition set_wordType (t : WordType) (w : machine_word) : machine_word :=
  {| mw_label := mw_label w; isLabel := isLabel w; wordType := t;
     mw_bits := mw_bits w; mw_line := mw_line w |}.

Definition set_isLabel (b : bool) (w : machine_word) : machine_word :=
  {| mw_label := mw_label w; isLabel := b; wordType := wordType w;
     mw_bits := mw_bits w; mw_line := mw_line w |}.

Definition set_line (n : Z) (w : machine_word) : machine_word :=
  {| mw_label := mw_label w; isLabel := isLabel w; wordType := wordType w;
     mw_bits := mw_bits w; mw_line := n |}.

(** [for (i = 0; i < strlen(s); i++) w.label.name[i] = s[i];]: the name
    buffer is overwritten on the length of [s], no terminator is copied. *)
Definition copy_name (s : cstr) (w : machine_word) : machine_word :=
  let l := mw_label w in
  {| mw_label := {| lname := s ++ skipn (length s) (lname l);
                    laddress := laddress l; lisExternal := lisExternal l;
                    lisEntry := lisEntry l; lisData := lisData l |};
     isLabel := isLabel w; wordType := wordType w;
     mw_bits := mw_bits w; mw_line := mw_line w |}.

(** A code or data image: [machine_word codeImage[MAX_MEMORY_SPACE]], a
    local array of [main] that is never initialised. *)
Definition image := zmap machine_word.

(** An index of the C array: [0 <= k < MAX_MEMORY_SPACE].  A write
    outside it is a write past the array, undefined behaviour in C. *)
Definition in_array (k : Z) : Prop := 0 <= k < MAX_MEMORY_SPACE.

(** [img'] differs from [img] at most at the indices in [P]. *)
Definition only_differ (img img' : image) (P : Z -> Prop) : Prop :=
  forall k, P k \/ img' k = img k.

(** ** Lemmas on field access *)

Definition field_ok (f : bitfield) : Prop := 0 <= bf_pos f /\ 0 <= bf_width f.

Definition disjoint (f g : bitfield) : Prop :=
  bf_pos f + bf_width f <= bf_pos g \/ bf_pos g + bf_width g <= bf_pos f.

(** ** Indeterminate values

    Three reads of the program have no defined value; each is an input of
    the model, and every theorem quantifies over it:
    - [indet_probe]: the string at [name + ':'] (58 bytes past the name in
      [createLabel], src/labels.c line 218), searched for in the table as
      the duplicate check;
    - [indet_next_type]: the type of the uninitialised local [nextToken]
      that [parseLabel] tests for a label declaration (labels.c lines 71-80);
    - [indet_guard]: the int [*(IC + *DC)] that the loop of
      [parseTwoOperands] compares with [MAX_MEMORY_SPACE] (instructions.c
      line 93); it is [*IC] itself when [DC = 0]. *)
Record indet := mkIndet {
  indet_probe : cstr;
  indet_next_type : TokenType;
  indet_guard : Z
}.

(** ** A concrete environment for the examples

    An image whose every word is zero with an unset type, and indeterminate
    values that never match: the inputs at which the witnesses of the
    theorems are evaluated. *)
Definition blank_label : label := mkLabel [] 0 false false false.
Definition blank_word : machine_word := mkWord blank_label false OTHER_WORD_TYPE 0 0.
Definition blank_image : image := fun _ => blank_word.
Definition ex_indet : indet := mkIndet (lit "?") END 0.

Lemma only_differ_refl img P : only_differ img img P.
Proof. intros k. now right. Qed.

Lemma only_differ_modify img img' P k f :
  only_differ img img' P -> P k -> only_differ img (modify img' k f) P.
Proof.
  intros H Hk j. destruct (Z.eq_dec j k) as [->|Hjk]; [now left|].
  rewrite modify_other by exact Hjk. apply H.
Qed.

Lemma get_set_same f v w :
  field_ok f -> get f (set f v w) = Z.land v (Z.ones (bf_width f)).
Proof. intros [Hp Hw]. unfold get, set. simpl. now apply field_get_set_same. Qed.

Lemma get_set_other f g v w :
  field_ok f -> field_ok g -> disjoint f g -> get g (set f v w) = get g w.
Proof.
  intros [Hp Hw] [Hp' Hw'] Hd. unfold get, set; simpl.
  apply field_get_set_other; auto.
Qed.

(** A read of a field inside the field last written. *)
Lemma get_set_inner f g v w :
  0 <= bf_pos f <= bf_pos g -> 0 <= bf_width g ->
  bf_pos g + bf_width g <= bf_pos f + bf_width f ->
  get g (set f v w) = field_get v (bf_pos g - bf_pos f) (bf_width g).
Proof. intros H1 H2 H3. unfold get, set. simpl. now apply field_get_set_inner. Qed.

Lemma get_range f w : field_ok f -> 0 <= get f w < 2 ^ bf_width f.
Proof. intros [_ Hw]. apply field_get_range; auto. Qed.

Lemma wordType_set f v w : wordType (set f v w) = wordType w.
Proof. reflexivity. Qed.

Lemma get_set_wordType f t w : get f (set_wordType t w) = get f w.
Proof. reflexivity. Qed.

Lemma get_set_isLabel f b w : get f (set_isLabel b w) = get f w.
Proof. reflexivity. Qed.

Lemma get_copy_name f s w : get f (copy_name s w) = get f w.
Proof. reflexivity. Qed.

Lemma wordType_set_wordType t w : wordType (set_wordType t w) = t.
Proof. reflexivity. Qed.

Lemma wordType_set_isLabel b w : wordType (set_isLabel b w) = wordType w.
Proof. reflexivity. Qed.

Lemma wordType_copy_name s w : wordType (copy_name s w) = wordType w.
Proof. reflexivity. Qed.

Lemma get_set_line f n w : get f (set_line n w) = get f w.
Proof. reflexivity. Qed.

Lemma wordType_set_line n w : wordType (set_line n w) = wordType w.
Proof. reflexivity. Qed.

#[export] Hint Rewrite wordType_set get_set_wordType get_set_isLabel get_copy_name
  wordType_set_wordType wordType_set_isLabel wordType_copy_name
  get_set_line wordType_set_line : asm.

(** Storing a value that fits in the field stores it unchanged. *)
Lemma land_ones_small v w : 0 <= w -> 0 <= v < 2 ^ w -> Z.land v (Z.ones w) = v.
Proof. intros Hw Hv. rewrite Z.land_ones by lia. now apply Z.mod_small. Qed.

(** Reads of a word after a sequence of writes: each read goes through the
    writes to other fields and stops at the last write to its own field. *)
Ltac word_simp :=
  repeat first
    [ rewrite modify_same
    | rewrite modify_other by lia
    | rewrite get_set_same by (unfold field_ok; simpl; lia)
    | rewrite get_set_other by (unfold field_ok, disjoint; simpl; lia)
    | rewrite get_set_inner by (simpl; lia)
    | progress autorewrite with asm ].

