(* ===== verification/Lexer.v ===== *)
(** * The tokenizer: [getNextToken] and its helpers (src/parser.c)

    [getNextToken] skips white space, returns [END] at the end of the line
    and [COMMA] for a comma, and otherwise collects a word up to white space
    or a comma and classifies it: number, quoted data, label declaration
    (validated by [isValidLabel] of src/labels.c), mnemonic, directive,
    label reference, register.  A word that is none of these ends the
    process with [exit(1)].  The line cursor [char **line] is modelled by
    returning the rest of the line. *)

From Stdlib Require Import ZArith List Ascii String Lia.
From stdpp Require Import base decidable strings.
From S2P Require Import Prelude CLib Machine.
Import ListNotations.
Open Scope Z_scope.

Module Lexer.

(** [char *instructions[]] (src/instructions.c) *)
Definition instructions : list cstr :=
  map lit ["mov"; "cmp"; "add"; "sub"; "lea"; "not"; "clr"; "inc"; "dec";
           "jmp"; "bne"; "red"; "prn"; "jsr"; "rts"; "stop"]%string.

(** [char *directives[]] (src/directives.c) *)
Definition directives : list cstr := map lit [".data"; ".string"; ".entry"; ".extern"]%string.

(** [legalLabelName]: 1 for a plain name, 2 for an instruction's name,
    3 for a directive's name. *)
Definition legalLabelName (name : cstr) : Z :=
  let isInstruction := if existsb (streq name) instructions then 2 else 1 in
  let isDirective := if existsb (streq name) directives then 3 else 1 in
  Z.max isInstruction isDirective.

(** [isValidLabel(str, type, lineNumber)].  The loop checks the characters
    at [1 .. strlen-2]; the index it stops at, [i], is then compared with
    [':'] for a declaration ([strlen-1] is unsigned, so for a one-letter
    name the loop does not run and [i = 1]). *)
Definition isValidLabel (str : cstr) (type : TokenType) : bool :=
  let s := c_str str in
  let n := length s in
  if negb (isalpha (char_at s 0)) then false
  else if (MAX_LABEL_LENGTH <? Z.of_nat n) then false
  else if negb (forallb (fun c => isalpha c || isdigit c) (firstn (n - 2) (skipn 1 s)))
  then false
  else
    let i := if (2 <=? n)%nat then (n - 1)%nat else 1%nat in
    if negb (Ascii.eqb (char_at s i) ":"%char) && bool_decide (type = LABEL_DECLARATION)
    then false
    else if legalLabelName s =? 2 then false
    else if legalLabelName s =? 3 then false
    else true.

(** [isLineTooLong]: the loop over the characters of the line; the flag
    is raised once the count passes [MAX_LINE_LENGTH]. *)
Fixpoint isLineTooLong_loop (s : cstr) (charCount : Z) (flag : bool) : bool :=
  match s with
  | [] => flag
  | c :: r =>
      if Ascii.eqb c NUL then flag
      else isLineTooLong_loop r (charCount + 1) (flag || (MAX_LINE_LENGTH <? charCount + 1))
  end.

Definition isLineTooLong (line : cstr) : bool := isLineTooLong_loop line 0 false.

(** [isNumber]: after an optional sign, digits whose running value never
    exceeds 2047, then the end of the string. *)
Fixpoint isNumber_digits (s : cstr) (num : Z) : bool :=
  match s with
  | [] => true
  | c :: r =>
      if isdigit c then
        let num' := num * 10 + (code c - 48) in
        if 2047 <? num' then false else isNumber_digits r num'
      else false
  end.

Definition is_sign (c : ascii) : bool := Ascii.eqb c "-"%char || Ascii.eqb c "+"%char.

Definition isNumber (t : Token) : bool :=
  let s := tok_str t in
  match s with
  | c :: r => if is_sign c then isNumber_digits r 0 else isNumber_digits s 0
  | [] => true
  end.

(** [skipSpaces] *)
Fixpoint skipSpaces (s : cstr) : cstr :=
  match s with
  | c :: r => if isspace c then skipSpaces r else s
  | [] => []
  end.

(** A character that ends a word: white space, the terminator, a comma. *)
Definition is_sep (c : ascii) : bool := isspace c || Ascii.eqb c NUL || Ascii.eqb c ","%char.

(** The copy loop of [getNextToken]: characters up to white space, the
    end of the string or a comma. *)
Fixpoint take_word (s : cstr) : cstr * cstr :=
  match s with
  | c :: r =>
      if is_sep c then ([], s)
      else let '(w, rest) := take_word r in (c :: w, rest)
  | [] => ([], [])
  end.

(** [*colonIndex = '\0']: the first colon of the buffer becomes a NUL. *)
Fixpoint nul_at_colon (s : cstr) : cstr :=
  match s with
  | c :: r => if Ascii.eqb c ":"%char then NUL :: r else c :: nul_at_colon r
  | [] => []
  end.

Definition is_mnemonic (names : list string) (s : cstr) : bool :=
  existsb (fun n => streq s (lit n)) names.

(** The classification chain at the end of [getNextToken]. *)
Definition classify (s : cstr) : TokenType :=
  if is_mnemonic ["mov"; "cmp"; "add"; "sub"; "lea"]%string s then TWO_OPERANDS
  else if is_mnemonic ["not"; "clr"; "inc"; "dec"; "jmp"; "bne"; "red"; "prn"; "jsr"]%string s
  then ONE_OPERAND
  else if is_mnemonic ["rts"; "stop"]%string s then NO_OPERANDS
  else if Ascii.eqb (char_at s 0) "."%char then DIRECTIVE
  else if isalpha (char_at s 0) then LABEL
  else if Ascii.eqb (char_at s 0) "@"%char then REGISTER
  else INVALID.

(** The classification of a collected word (parser.c lines 115-170): the
    token, or the [exit(1)] of line 170. *)
Definition classify_word (w : cstr) : outcome Token :=
  let buf := w ++ [NUL] in
  let c0 := char_at w 0 in
  if (is_sign c0 || isdigit c0) && isNumber (mkToken INVALID buf) then
    Ok (mkToken NUMBER (store_integer buf (atoi buf)))
  else if strchr buf dquote then Ok (mkToken DATA buf)
  else if strchr buf ":"%char then
    let ty := if isValidLabel buf LABEL_DECLARATION then LABEL_DECLARATION else INVALID in
    Ok (mkToken ty (nul_at_colon buf))
  else if (MAX_LABEL_LENGTH <=? Z.of_nat (length w)) then Ok (mkToken INVALID buf)
  else
    match classify w with
    | INVALID => Exit 1
    | ty => Ok (mkToken ty buf)
    end.

(** The tokens [getNextToken] builds with [strcpy]. *)
Definition end_token : Token := mkToken END (lit "end of line" ++ [NUL]).
Definition comma_token : Token := mkToken COMMA (lit "comma" ++ [NUL]).

(** [getNextToken(&line, lineNumber)]: the token and the rest of the line,
    or the [exit(1)] that ends the process on an invalid word. *)
Definition getNextToken (line : cstr) : outcome (Token * cstr) :=
  let line := skipSpaces line in
  match line with
  | [] => Ok (end_token, line)
  | c :: r =>
      if Ascii.eqb c "010"%char || Ascii.eqb c NUL then Ok (end_token, line)
      else if Ascii.eqb c ","%char then Ok (comma_token, r)
      else
        let '(w, rest) := take_word line in
        t <- classify_word w ;;
        Ok (t, rest)
  end.

(** [**line != '\0']: the cursor is not at the end of the string. *)
Definition not_at_end (line : cstr) : bool :=
  match line with
  | [] => false
  | c :: _ => negb (Ascii.eqb c NUL)
  end.

(** The rest of a line starts at a separator (or the line has ended). *)
Definition sep_start (s : cstr) : bool :=
  match s with [] => true | c :: _ => is_sep c end.

(** A word of the line: no separator inside. *)
Definition no_sep (w : cstr) : bool := forallb (fun c => negb (is_sep c)) w.

(** A register name ["@rN"], [N] from 0 to 7. *)
Definition reg_digit (c : ascii) : bool := (48 <=? code c) && (code c <=? 55).

(** A label reference: a letter, then letters and digits, shorter than
    [MAX_LABEL_LENGTH], and not a mnemonic. *)
Definition label_word (w : cstr) : bool :=
  isalpha (char_at w 0) && forallb (fun c => isalpha c || isdigit c) w
  && (Z.of_nat (length w) <? MAX_LABEL_LENGTH) && negb (existsb (streq w) instructions).

(** ** Lemmas: what [getNextToken] consumes *)

Lemma skipSpaces_length s : (length (skipSpaces s) <= length s)%nat.
Proof. induction s as [|c r IH]; simpl; [lia|]. destruct (isspace c); simpl; lia. Qed.

Lemma skipSpaces_head s c r : skipSpaces s = c :: r -> isspace c = false.
Proof.
  induction s as [|x s IH]; simpl; [discriminate|].
  destruct (isspace x) eqn:E; [exact IH|]. now intros [= <- _].
Qed.

Lemma take_word_app s : fst (take_word s) ++ snd (take_word s) = s.
Proof.
  induction s as [|c r IH]; simpl; [reflexivity|].
  destruct (is_sep c); simpl; [reflexivity|].
  destruct (take_word r) as [w rest]; simpl in *. now rewrite IH.
Qed.

(** The classification chain never yields [END]. *)
Lemma classify_not_end w : classify w <> END.
Proof. unfold classify. repeat case_if; discriminate. Qed.

(** Every call either ends the process, or returns [END] with the cursor at
    the end of the line, or returns another token and consumes at least
    one character. *)
Lemma getNextToken_cases line :
  getNextToken line = Exit 1 \/
  exists t rest, getNextToken line = Ok (t, rest) /\
    ((t = end_token /\ not_at_end rest = false) \/
     (tok_type t <> END /\ (length rest < length line)%nat)).
Proof.
  unfold getNextToken.
  pose proof (skipSpaces_length line) as Hlen.
  destruct (skipSpaces line) as [|c r] eqn:Hs.
  { right. do 2 eexists. split; [reflexivity|]. left. now split. }
  pose proof (skipSpaces_head _ _ _ Hs) as Hc.
  assert (Htw : exists w rest, take_word (c :: r) = (c :: w, rest) /\
            (length rest <= length r)%nat
          \/ Ascii.eqb c NUL || Ascii.eqb c ","%char = true).
  { simpl. unfold is_sep. rewrite Hc. simpl.
    destruct (Ascii.eqb c NUL || Ascii.eqb c ","%char) eqn:E; [|].
    - exists [], []. now right.
    - pose proof (take_word_app r) as Happ.
      destruct (take_word r) as [w rest]. exists w, rest. left. split; [reflexivity|].
      apply (f_equal (@length ascii)) in Happ. rewrite length_app in Happ. simpl in Happ. lia. }
  remember (take_word (c :: r)) as tw eqn:Htw'.
  destruct (Ascii.eqb c "010"%char) eqn:Hnl.
  { apply Ascii.eqb_eq in Hnl. subst c. discriminate. }
  destruct (Ascii.eqb c NUL) eqn:Hnul; simpl.
  { right. do 2 eexists. split; [reflexivity|]. left. split; [reflexivity|].
    simpl. now rewrite Hnul. }
  destruct (Ascii.eqb c ","%char) eqn:Hcomma.
  { right. do 2 eexists. split; [reflexivity|]. right. simpl in *. split; [discriminate|lia]. }
  destruct Htw as (w & rest & [[Hw Hl] | Hbad]); [|discriminate].
  rewrite Hw in Htw'. subst tw.
  assert (Hlt : (length rest < length line)%nat) by (simpl in Hlen; lia).
  unfold classify_word.
  repeat case_if;
    try (right; do 2 eexists; split; [reflexivity|]; right; split; [discriminate|exact Hlt]).
  destruct (classify (c :: w)) eqn:Hcl.
  all: try (left; reflexivity).
  all: right; do 2 eexists; split; [reflexivity|].
  all: right; split; [|exact Hlt].
  all: first [discriminate | intros _; exact (classify_not_end _ Hcl)].
Qed.

(** [END] is always the same token. *)
Lemma getNextToken_end line t rest :
  getNextToken line = Ok (t, rest) -> tok_type t = END -> t = end_token.
Proof.
  intros H Ht. destruct (getNextToken_cases line) as [E | (t' & r' & E & [[-> _] | [Hne _]])];
    rewrite E in H; [discriminate| |]; injection H as <- <-; [reflexivity|contradiction].
Qed.

(** Case analysis on one call of [getNextToken] inside a loop. *)
Ltac next_token_cases line :=
  destruct (getNextToken_cases line)
    as [-> | (?t & ?rest & -> & [[?Hend ?Hatend] | [?Hnotend ?Hshorter]])]; simpl.

Lemma getNextToken_terminates line : terminates (getNextToken line).
Proof. now next_token_cases line. Qed.

#[export] Hint Resolve getNextToken_terminates : asm.

(** ** Lemmas: [getNextToken] on each kind of word *)

Lemma take_word_word w rest :
  no_sep w = true -> sep_start rest = true -> take_word (w ++ rest) = (w, rest).
Proof.
  induction w as [|c w IH]; simpl.
  - destruct rest as [|x r]; simpl; [reflexivity|]. intros _ H. now rewrite H.
  - intros H Hr. apply andb_prop in H as [Hc Hw]. apply negb_true_iff in Hc.
    rewrite Hc, IH; auto.
Qed.

Lemma getNextToken_space c l :
  isspace c = true -> getNextToken (c :: l) = getNextToken l.
Proof. intros H. unfold getNextToken. simpl. now rewrite H. Qed.

Lemma getNextToken_blank line : skipSpaces line = [] -> getNextToken line = Ok (end_token, []).
Proof. intros H. unfold getNextToken. now rewrite H. Qed.

Lemma getNextToken_comma rest : getNextToken (","%char :: rest) = Ok (comma_token, rest).
Proof. reflexivity. Qed.

(** A word followed by a separator is classified on its own. *)
Lemma getNextToken_word w rest :
  w <> [] -> no_sep w = true -> sep_start rest = true ->
  getNextToken (w ++ rest) = (t <- classify_word w ;; Ok (t, rest)).
Proof.
  destruct w as [|c w']; [congruence|]. intros _ Hw Hr.
  pose proof (take_word_word _ _ Hw Hr) as Htw.
  simpl in Hw. apply andb_prop in Hw as [Hc _]. apply negb_true_iff in Hc.
  unfold is_sep in Hc. apply Bool.orb_false_iff in Hc as [Hc Hcomma].
  apply Bool.orb_false_iff in Hc as [Hsp Hnul].
  unfold getNextToken. simpl app. simpl skipSpaces. rewrite Hsp.
  assert (Hnl : Ascii.eqb c "010"%char = false).
  { char_arith. apply Z.eqb_neq. intros E. rewrite E in Hsp. discriminate. }
  rewrite Hnl, Hnul, Hcomma. simpl app in Htw. rewrite Htw. reflexivity.
Qed.

(** ** Lemmas: the classification of words *)

Lemma reg_digit_cases c :
  reg_digit c = true -> In c ["0"; "1"; "2"; "3"; "4"; "5"; "6"; "7"]%char.
Proof.
  unfold reg_digit, code. intros H. apply andb_prop in H as [H1 H2].
  apply Z.leb_le in H1, H2.
  rewrite <- (ascii_nat_embedding c).
  assert (Hn : In (nat_of_ascii c) (seq 48 8)) by (apply in_seq; lia).
  simpl in Hn. repeat destruct Hn as [<-|Hn]; try contradiction; simpl; tauto.
Qed.

Lemma classify_word_register c :
  reg_digit c = true ->
  classify_word ["@"; "r"; c]%char = Ok (mkToken REGISTER ["@"; "r"; c; NUL]%char).
Proof.
  intros H. apply reg_digit_cases in H. simpl in H.
  repeat destruct H as [<-|H]; [reflexivity..|contradiction].
Qed.

Lemma reg_digit_code c : reg_digit c = true -> 0 <= code c - 48 < 8.
Proof. unfold reg_digit. intros H. apply andb_prop in H as [H1 H2]. lia. Qed.

Lemma reg_digit_no_sep c : reg_digit c = true -> is_sep c = false.
Proof. intros H. apply reg_digit_cases in H. simpl in H. repeat destruct H as [<-|H]; easy. Qed.

Lemma getNextToken_register c rest :
  reg_digit c = true -> sep_start rest = true ->
  getNextToken ("@" :: "r" :: c :: rest)%char = Ok (mkToken REGISTER ["@"; "r"; c; NUL]%char, rest).
Proof.
  intros Hc Hr. change ("@" :: "r" :: c :: rest)%char with (["@"; "r"; c]%char ++ rest).
  rewrite getNextToken_word by (try discriminate; simpl; now rewrite ?reg_digit_no_sep).
  now rewrite classify_word_register.
Qed.

Lemma alnum_not c :
  isalpha c || isdigit c = true ->
  Ascii.eqb c NUL = false /\ isspace c = false /\ Ascii.eqb c ","%char = false /\
  Ascii.eqb dquote c = false /\ Ascii.eqb ":"%char c = false.
Proof. intros H. char_arith. repeat split; lia. Qed.

Lemma forallb_existsb_false {A} (P Q : A -> bool) l :
  forallb P l = true -> (forall x, P x = true -> Q x = false) -> existsb Q l = false.
Proof.
  induction l as [|x l IH]; simpl; [reflexivity|].
  intros H HPQ. apply andb_prop in H as [Hx Hl]. rewrite HPQ, IH; auto.
Qed.

Lemma label_word_no_sep w : label_word w = true -> no_sep w = true.
Proof.
  unfold label_word, no_sep. intros H. apply andb_prop in H as [H _].
  apply andb_prop in H as [H _]. apply andb_prop in H as [_ Hall].
  apply forallb_forall. intros c Hc. eapply forallb_forall in Hall; [|exact Hc].
  destruct (alnum_not c Hall) as (Hn & Hs & Hcm & _). unfold is_sep. now rewrite Hn, Hs, Hcm.
Qed.

Lemma classify_word_label w :
  label_word w = true -> classify_word w = Ok (mkToken LABEL (w ++ [NUL])).
Proof.
  intros H. pose proof H as Hw. unfold label_word in H.
  apply andb_prop in H as [H Hmn]. apply andb_prop in H as [H Hlen].
  apply andb_prop in H as [Halpha Hall]. apply negb_true_iff in Hmn.
  assert (Hnonul : forallb (fun c => negb (Ascii.eqb c NUL)) w = true).
  { apply forallb_forall. intros c Hc. eapply forallb_forall in Hall; [|exact Hc].
    now rewrite (proj1 (alnum_not c Hall)). }
  assert (Hcs : c_str (w ++ [NUL]) = w) by now apply c_str_app_nul.
  unfold classify_word, strchr. rewrite Hcs.
  rewrite (forallb_existsb_false _ (Ascii.eqb dquote) _ Hall) by (intros c Hc; apply (alnum_not c Hc)).
  rewrite (forallb_existsb_false _ (Ascii.eqb ":"%char) _ Hall) by (intros c Hc; apply (alnum_not c Hc)).
  assert (Hns : is_sign (char_at w 0) || isdigit (char_at w 0) = false).
  { unfold is_sign. char_arith. repeat rewrite Bool.orb_false_iff. repeat split; lia. }
  rewrite Hns. simpl andb. cbv iota.
  rewrite (proj2 (Z.leb_gt _ _)) by lia.
  unfold classify, is_mnemonic.
  unfold instructions in Hmn. simpl in Hmn |- *.
  repeat rewrite Bool.orb_false_iff in Hmn. destruct_and! Hmn.
  repeat match goal with H : streq _ _ = false |- _ => rewrite H; clear H end.
  simpl. assert (Hdot : Ascii.eqb (char_at w 0) "."%char = false) by (char_arith; lia).
  now rewrite Hdot, Halpha.
Qed.

Lemma getNextToken_label w rest :
  label_word w = true -> sep_start rest = true ->
  getNextToken (w ++ rest) = Ok (mkToken LABEL (w ++ [NUL]), rest).
Proof.
  intros Hw Hr. rewrite getNextToken_word; auto using label_word_no_sep.
  - now rewrite classify_word_label.
  - intros ->. discriminate.
Qed.

Lemma label_word_no_nul w :
  label_word w = true -> forallb (fun c => negb (Ascii.eqb c NUL)) w = true.
Proof.
  unfold label_word. intros H. apply andb_prop in H as [H _].
  apply andb_prop in H as [H _]. apply andb_prop in H as [_ Hall].
  apply forallb_forall. intros c Hc.
  eapply forallb_forall in Hall; [|exact Hc]. now rewrite (proj1 (alnum_not c Hall)).
Qed.

(** A label word holds no terminator: it is its own string, and the
    string of its buffer. *)
Lemma label_word_c_str w : label_word w = true -> c_str (w ++ [NUL]) = w.
Proof. intros H. now apply c_str_app_nul, label_word_no_nul. Qed.

Lemma label_word_c_str_self w : label_word w = true -> c_str w = w.
Proof.
  intros H. pose proof (label_word_c_str w H) as E.
  apply label_word_no_nul in H. induction w as [|c w IH]; [reflexivity|].
  simpl in H, E |- *. apply andb_prop in H as [Hc Hw]. apply negb_true_iff in Hc.
  rewrite Hc in E |- *. injection E as E. now rewrite IH.
Qed.

Lemma forallb_firstn_skipn {A} (P : A -> bool) l n m :
  forallb P l = true -> forallb P (firstn n (skipn m l)) = true.
Proof.
  intros H. rewrite <- (firstn_skipn m l), forallb_app in H. apply andb_prop in H as [_ H].
  rewrite <- (firstn_skipn n (skipn m l)), forallb_app in H. now apply andb_prop in H as [H _].
Qed.

(** A label word is a valid label reference for [isValidLabel]. *)
Lemma label_word_valid w : label_word w = true -> isValidLabel (w ++ [NUL]) LABEL = true.
Proof.
  intros H. pose proof (label_word_c_str w H) as Hc. unfold label_word in H.
  apply andb_prop in H as [H Hmn]. apply andb_prop in H as [H Hlen].
  apply andb_prop in H as [Halpha Hall]. apply negb_true_iff in Hmn.
  unfold isValidLabel. rewrite Hc, Halpha, forallb_firstn_skipn by exact Hall.
  rewrite (proj2 (Z.ltb_ge _ _)) by lia. simpl.
  assert (Hdir : existsb (streq w) directives = false).
  { unfold directives, streq. simpl. rewrite c_str_no_nul with (b := w).
    2:{ apply List.Forall_forall. intros c Hin. eapply forallb_forall in Hall; [|exact Hin].
        apply Ascii.eqb_neq, (proj1 (alnum_not c Hall)). }
    repeat case_bool_decide; subst; try (vm_compute in Halpha; discriminate). reflexivity. }
  unfold legalLabelName. rewrite Hmn, Hdir, Bool.andb_false_r. reflexivity.
Qed.

Lemma label_word_nonempty w : label_word w = true -> w <> [].
Proof. intros H ->. discriminate. Qed.

Lemma label_word_len w : label_word w = true -> Z.of_nat (length w) < MAX_LABEL_LENGTH.
Proof.
  unfold label_word. intros H. apply andb_prop in H as [H _].
  apply andb_prop in H as [_ H]. lia.
Qed.

Lemma app_colon_neq w s : List.last s NUL <> ":"%char -> w ++ [":"%char] <> s.
Proof. intros H E. apply H. rewrite <- E. apply List.last_last. Qed.

(** A label word followed by a colon is a valid declaration. *)
Lemma label_word_declaration_valid x :
  label_word x = true -> isValidLabel (x ++ [":"%char; NUL]) LABEL_DECLARATION = true.
Proof.
  intros H. pose proof (label_word_len x H) as Hlen. pose proof (label_word_no_nul x H) as Hn.
  assert (Hc : c_str (x ++ [":"%char; NUL]) = x ++ [":"%char]).
  { change [":"%char; NUL] with ([":"%char] ++ [NUL]). rewrite app_assoc.
    apply c_str_app_nul. now rewrite forallb_app, Hn. }
  assert (Hcs : c_str (x ++ [":"%char]) = x ++ [":"%char])
    by (apply c_str_forallb; now rewrite forallb_app, Hn).
  unfold label_word in H. apply andb_prop in H as [H _]. apply andb_prop in H as [H _].
  apply andb_prop in H as [Halpha Hall].
  destruct x as [|c0 x']; [discriminate|].
  unfold isValidLabel. rewrite Hc. change (char_at (c0 :: x') 0) with c0 in Halpha.
  change (char_at ((c0 :: x') ++ [":"%char]) 0) with c0. rewrite Halpha. simpl negb. cbv iota.
  simpl length in Hlen |- *. rewrite !length_app. cbn [length skipn].
  rewrite (proj2 (Z.ltb_ge _ _)) by (unfold MAX_LABEL_LENGTH in *; lia). cbv iota.
  replace (length x' + 1 - 1)%nat with (length x') by lia.
  change (skipn 0 (x' ++ [":"%char])) with (x' ++ [":"%char]).
  rewrite firstn_app, firstn_all, Nat.sub_diag, app_nil_r.
  simpl in Hall. apply andb_prop in Hall as [_ Hall]. rewrite Hall. cbn [negb].
  replace (length x' + 1)%nat with (S (length x')) by lia. rewrite Nat.sub_0_r.
  unfold char_at. cbn [nth]. rewrite nth_middle. simpl.
  unfold legalLabelName, instructions, directives, streq.
  change (c0 :: x' ++ [":"%char]) with ((c0 :: x') ++ [":"%char]). rewrite Hcs. simpl.
  change (c0 :: x' ++ [":"%char]) with ((c0 :: x') ++ [":"%char]).
  repeat rewrite bool_decide_eq_false_2 by (apply app_colon_neq; simpl; discriminate).
  reflexivity.
Qed.

Lemma nul_at_colon_alnum x r :
  forallb (fun c => isalpha c || isdigit c) x = true ->
  nul_at_colon (x ++ ":"%char :: r) = x ++ NUL :: r.
Proof.
  induction x as [|c x IH]; simpl; [reflexivity|]. intros H. apply andb_prop in H as [Hc Hx].
  destruct (alnum_not c Hc) as (_ & _ & _ & _ & Hcol).
  rewrite Ascii.eqb_sym, Hcol. now rewrite IH.
Qed.

(** A declaration [X:] of a label word [X]: a [LABEL_DECLARATION] token
    whose buffer holds [X], the colon replaced by a terminator. *)
Lemma getNextToken_declaration x rest :
  label_word x = true -> sep_start rest = true ->
  getNextToken (x ++ ":"%char :: rest) =
  Ok (mkToken LABEL_DECLARATION (x ++ [NUL; NUL]), rest).
Proof.
  intros H Hr. pose proof (label_word_declaration_valid x H) as Hv.
  pose proof (label_word_no_sep x H) as Hns. pose proof (label_word_no_nul x H) as Hn.
  unfold label_word in H. apply andb_prop in H as [H _]. apply andb_prop in H as [H _].
  apply andb_prop in H as [Halpha Hall].
  destruct x as [|c0 x']; [discriminate|].
  replace ((c0 :: x') ++ ":"%char :: rest) with (((c0 :: x') ++ [":"%char]) ++ rest)
    by now rewrite <- app_assoc.
  rewrite getNextToken_word; [| now destruct x' | unfold no_sep in *; now rewrite forallb_app, Hns
                             | exact Hr].
  unfold classify_word. change (char_at ((c0 :: x') ++ [":"%char]) 0) with c0.
  change (char_at (c0 :: x') 0) with c0 in Halpha.
  assert (Hsd : is_sign c0 || isdigit c0 = false).
  { unfold is_sign. char_arith. repeat rewrite Bool.orb_false_iff. repeat split; lia. }
  rewrite Hsd. cbv iota beta.
  rewrite <- app_assoc. change ([":"%char] ++ [NUL]) with [":"%char; NUL]. unfold strchr.
  assert (Hc : c_str ((c0 :: x') ++ [":"%char; NUL]) = (c0 :: x') ++ [":"%char]).
  { change [":"%char; NUL] with ([":"%char] ++ [NUL]). rewrite app_assoc.
    apply c_str_app_nul. now rewrite forallb_app, Hn. }
  rewrite Hc, !existsb_app.
  rewrite (forallb_existsb_false _ (Ascii.eqb dquote) _ Hall) by (intros c Hc'; apply (alnum_not c Hc')).
  rewrite (forallb_existsb_false _ (Ascii.eqb ":"%char) _ Hall) by (intros c Hc'; apply (alnum_not c Hc')).
  change (existsb (Ascii.eqb ":"%char) [":"%char]) with true.
  change (existsb (Ascii.eqb dquote) [":"%char]) with false. cbn [orb].
  rewrite Hv, (nul_at_colon_alnum (c0 :: x') [NUL]) by exact Hall. reflexivity.
Qed.

(** ** The immediate operands that the encoders read *)

(** C5: An immediate [n] of a [NUMBER] token is stored over the token's string
    ([token.value.integer = atoi(..)], parser.c line 117), and the encoders
    then read it back with [atoi(token.value.string)].  For every [n] the
    lexer accepts, that read yields the digit whose code is the low byte of
    [n], or 0: not [n]. *)
Theorem atoi_store_integer buf n :
  -2047 <= n <= 2047 ->
  atoi (store_integer buf n) = if isdigit (chr n) then n mod 256 - 48 else 0.
Proof.
  intros Hn. unfold store_integer, le_bytes. simpl app.
  assert (Hc1 : 0 <= code (chr (Z.shiftr n 8)) <= 7 \/ 248 <= code (chr (Z.shiftr n 8)) <= 255).
  { rewrite code_chr, Z.shiftr_div_pow2 by lia. change (2 ^ 8) with 256.
    Z.div_mod_to_equations. lia. }
  rewrite atoi_first_digit by (char_arith; lia).
  now rewrite code_chr.
Qed.

(** ** Label declarations *)

(** C9: The reserved-name check of [isValidLabel] compares the declaration
    with its colon still attached, so a mnemonic followed by a colon is a
    valid label declaration, whose name (cut at the colon) is the
    mnemonic. *)
Theorem mnemonic_declaration_accepted m rest :
  In m instructions -> sep_start rest = true ->
  getNextToken (m ++ ":"%char :: rest) = Ok (mkToken LABEL_DECLARATION (m ++ [NUL; NUL]), rest).
Proof.
  intros Hm Hr. unfold instructions in Hm. apply in_map_iff in Hm as (s & <- & Hs).
  replace (lit s ++ ":"%char :: rest) with ((lit s ++ [":"%char]) ++ rest)
    by now rewrite <- app_assoc.
  simpl in Hs. repeat destruct Hs as [<-|Hs]; try contradiction;
    rewrite getNextToken_word by (easy || reflexivity); reflexivity.
Qed.

(** ** The line-length check *)

Lemma isLineTooLong_loop_spec s k :
  0 <= k ->
  isLineTooLong_loop s k (MAX_LINE_LENGTH <? k) = (MAX_LINE_LENGTH <? k + Z.of_nat (strlen s)).
Proof.
  unfold strlen. revert k. induction s as [|c r IH]; intros k Hk; simpl.
  - now rewrite Z.add_0_r.
  - destruct (Ascii.eqb c NUL); simpl; [now rewrite Z.add_0_r|].
    replace ((MAX_LINE_LENGTH <? k) || (MAX_LINE_LENGTH <? k + 1)) with (MAX_LINE_LENGTH <? k + 1)
      by (unfold MAX_LINE_LENGTH; destruct (Z.ltb_spec 80 k), (Z.ltb_spec 80 (k + 1)); simpl; lia).
    rewrite IH by lia. f_equal. lia.
Qed.

(** The character-counting loop of [isLineTooLong] computes "the string is
    longer than [MAX_LINE_LENGTH]". *)
Lemma isLineTooLong_spec line :
  isLineTooLong line = (MAX_LINE_LENGTH <? Z.of_nat (strlen line)).
Proof. apply (isLineTooLong_loop_spec line 0). lia. Qed.

(** ** Examples *)

(** [prn 53]: the immediate 53 is read back as the digit of its low byte,
    ['5'], so the operand word holds 5. *)
Lemma atoi_store_integer_witness : atoi (store_integer (lit "53" ++ [NUL]) 53) = 5.
Proof. rewrite (atoi_store_integer (lit "53" ++ [NUL]) 53) by lia. reflexivity. Defined.

(** [mov: stop] declares a label named [mov]. *)
Lemma mnemonic_declaration_accepted_witness :
  getNextToken (lit "mov" ++ ":"%char :: lit " stop") =
  Ok (mkToken LABEL_DECLARATION (lit "mov" ++ [NUL; NUL]), lit " stop").
Proof.
  apply (mnemonic_declaration_accepted (lit "mov") (lit " stop")); [simpl; tauto | reflexivity].
Defined.

End Lexer.
