(* ===== verification/Labels.v ===== *)
(** * The label table (src/labels.c)

    The table is a linked list with insertion at the head; it is modelled
    as a list whose head is the most recent label.  [createLabel] refuses
    a label when its duplicate check finds the probed name in the table,
    and otherwise inserts a label whose address is [IC] (or [DC] for a data
    label).  [parseLabel] is the entry point of the line driver (for a
    declaration [X:]) and of [.entry]/[.extern] (for a label reference). *)

From Stdlib Require Import ZArith List Ascii String Lia.
From stdpp Require Import base decidable strings.
From S2P Require Import Prelude CLib Machine Lexer.
Import ListNotations.
Open Scope Z_scope.

Module Labels.
Import Lexer.

Definition label_table := list label.

(** [createLabelTable()]: an empty table; the [malloc] succeeds. *)
Definition createLabelTable : label_table := [].

(** [match(expectedType, expectedValue, token)], called only in the code
    of [parseLabel] that follows its [return TRUE] and is never reached. *)
Definition match_token (expectedType : TokenType) (expectedValue : cstr) (token : Token) : bool :=
  bool_decide (tok_type token = expectedType) && streq (tok_buf token) expectedValue.

(** [findLabel(name, labelTable)] *)
Definition findLabel (name : cstr) (tbl : label_table) : bool :=
  existsb (fun l => streq name (lname l)) tbl.

(** [insertLabel(newLabel, labelTable, lineNumber)]: the new label becomes
    the head. *)
Definition insertLabel (newLabel : label) (tbl : label_table) : label_table :=
  newLabel :: tbl.

(** [createLabel(name, labelTable, isExternal, isEntry, isData, IC, DC)].
    The duplicate check searches for [probe], the bytes at [name + ':']. *)
Definition createLabel (probe name : cstr) (tbl : label_table)
    (isExternal isEntry isData : bool) (IC DC : Z) : bool * label_table :=
  if findLabel probe tbl then (false, tbl)
  else
    let newLabel := {| lname := c_str name;
                       laddress := if isData then DC else IC;
                       lisExternal := isExternal; lisEntry := isEntry;
                       lisData := isData |} in
    (true, insertLabel newLabel tbl).

(** [parseLabel(token, line, ..., isData, isExternal, isEntry, IC, DC,
    lineNumber)].  Its [while (token.type != 0)] loop returns in its first
    iteration, and the branches on [TWO_OPERANDS], [ONE_OPERAND] and
    [DIRECTIVE] inside the declaration branch test a token known to be a
    declaration, so they never run; what remains is:
    - a [DIRECTIVE] token (type 0) skips the loop, reads one more token
      and returns TRUE;
    - a declaration tests the uninitialised [nextToken] and creates the
      label;
    - any other token is checked by [isValidLabel] and, when valid, creates
      the label; TRUE is returned whether or not it was created. *)
Definition parseLabel (ind : indet) (token : Token) (line : cstr) (tbl : label_table)
    (isData isExternal isEntry : bool) (IC DC : Z) : outcome (bool * label_table * cstr) :=
  match tok_type token with
  | DIRECTIVE =>
      tl <- getNextToken line ;;
      Ok (true, tbl, snd tl)
  | LABEL_DECLARATION =>
      let nt := indet_next_type ind in
      if bool_decide (nt = COMMA) then Ok (false, tbl, line)
      else if bool_decide (nt = NUMBER) || bool_decide (nt = INVALID) then Ok (false, tbl, line)
      else
        let r := createLabel (indet_probe ind) (tok_buf token) tbl isExternal isEntry isData IC DC in
        Ok (fst r, snd r, line)
  | ty =>
      if isValidLabel (tok_buf token) ty then
        Ok (true, snd (createLabel (indet_probe ind) (tok_buf token) tbl isExternal isEntry isData IC DC), line)
      else Ok (true, tbl, line)
  end.

(** ** The table only grows *)

(** [tbl'] extends [tbl]: labels were added at the head, none removed. *)
Definition extends (tbl' tbl : label_table) : Prop := exists pre, tbl' = pre ++ tbl.

Lemma extends_refl tbl : extends tbl tbl.
Proof. now exists []. Qed.

Lemma extends_trans t1 t2 t3 : extends t1 t2 -> extends t2 t3 -> extends t1 t3.
Proof. intros [p1 ->] [p2 ->]. exists (p1 ++ p2). now rewrite app_assoc. Qed.

Lemma extends_cons l tbl : extends (l :: tbl) tbl.
Proof. now exists [l]. Qed.

Lemma createLabel_extends probe name tbl e n d ic dc :
  extends (snd (createLabel probe name tbl e n d ic dc)) tbl.
Proof.
  unfold createLabel. destruct (findLabel probe tbl); simpl;
    auto using extends_refl, extends_cons.
Qed.

#[export] Hint Resolve extends_refl extends_cons createLabel_extends : asm.

(** [parseLabel] returns or exits, and only adds labels to the table. *)
Lemma parseLabel_terminates ind token line tbl d e n ic dc :
  terminates (parseLabel ind token line tbl d e n ic dc).
Proof.
  unfold parseLabel. destruct (tok_type token); repeat case_if; try exact I.
  apply obind_terminates; [apply getNextToken_terminates|now intros].
Qed.

Lemma parseLabel_extends ind token line tbl d e n ic dc b tbl' line' :
  parseLabel ind token line tbl d e n ic dc = Ok (b, tbl', line') -> extends tbl' tbl.
Proof.
  unfold parseLabel. destruct (tok_type token); repeat case_if;
    try (intros [= _ <- _]; auto with asm).
  destruct (getNextToken line) as [[]| |]; simpl; intros [= _ <- _]; auto with asm.
Qed.

#[export] Hint Resolve parseLabel_terminates : asm.

End Labels.
