(* ===== verification/Instructions.v ===== *)
(** * The instruction encoders (src/instructions.c)

    [parseTwoOperands], [parseOneOperand] and [parseNoOperands] write the
    first word of the instruction at [codeImage[*IC]], then loop over the
    operand tokens of the line, writing through the fields of the
    [machine_word] union at the indices the code computes, and finally add
    the operand count to [IC] and check the memory bound, the comma count
    and the operand count.  Each loop is a [Fixpoint] on fuel; the
    termination theorems show that the fuel each encoder supplies, one more
    than the length of the line, is never exhausted. *)

From Stdlib Require Import ZArith List Ascii String Lia.
From stdpp Require Import base decidable strings.
From S2P Require Import Prelude CLib Machine Lexer.
Import ListNotations.
Open Scope Z_scope.

Module Instructions.
Import Lexer.

(** [findOpcode(token)] *)
Definition findOpcode (token : Token) : Z :=
  let s := tok_buf token in
  if streq s (lit "mov") then 0
  else if streq s (lit "cmp") then 1
  else if streq s (lit "add") then 2
  else if streq s (lit "sub") then 3
  else if streq s (lit "not") then 4
  else if streq s (lit "clr") then 5
  else if streq s (lit "lea") then 6
  else if streq s (lit "inc") then 7
  else if streq s (lit "dec") then 8
  else if streq s (lit "jmp") then 9
  else if streq s (lit "bne") then 10
  else if streq s (lit "red") then 11
  else if streq s (lit "prn") then 12
  else if streq s (lit "jsr") then 13
  else if streq s (lit "rts") then 14
  else if streq s (lit "stop") then 15
  else -1.

(** [isRegister(&token, lineNumber)]: ["@r0"] to ["@r7"]. *)
Definition isRegister (token : Token) : bool :=
  let s := tok_str token in
  Ascii.eqb (char_at s 1) "r"%char
  && (48 <=? code (char_at s 2)) && (code (char_at s 2) <=? 55)
  && Ascii.eqb (char_at s 3) NUL.

(** [opCode == a || opCode == b || ...] *)
Definition one_of (opCode : Z) (l : list Z) : bool := existsb (Z.eqb opCode) l.

(** What a loop of an encoder ends with: the [break] or the failed loop
    condition, with the counters; or a [return FALSE] from its body. *)
Inductive loop_result :=
| Finished (img : image) (operandCount commaCount : Z) (line : cstr)
| Failed (img : image) (line : cstr).

(** What an encoder returns: its boolean result, the code image and [IC]
    it leaves, and the rest of the line. *)
Record enc_result := mkEnc {
  enc_ok : bool;
  enc_img : image;
  enc_IC : Z;
  enc_line : cstr
}.

(** The first word, written before the operands are read. *)
Definition write_first_word (img : image) (IC opCode : Z) : image :=
  let img := modify img IC (set_wordType FIRST_WORD_TYPE) in
  let img := modify img IC (set first_word_ARE 0) in
  modify img IC (set first_word_op_code opCode).

(** ** [parseTwoOperands] *)

(** The body of the loop (instructions.c lines 98-179) for one token that
    is not [END], [operandCount] already incremented by the caller.  The
    register number is [atoi(token.value.string + 2)]; an immediate is
    [atoi(token.value.string)], read after [getNextToken] stored the integer
    over the string. *)
Definition two_operands_body (IC opCode : Z) (token : Token) (img : image)
    (operandCount commaCount : Z) : option (image * Z * Z) :=
  let buf := tok_buf token in
  match tok_type token with
  | REGISTER =>
      if negb (isRegister token) then None
      else if operandCount =? 1 then
        if one_of opCode [0; 1; 2; 3] then
          let img := modify img (IC - operandCount) (set first_word_src_op_addr 5) in
          let img := modify img IC (set_wordType IMMDT_DRCT_WORD_TYPE) in
          let img := modify img IC (set rgstr_word_src_op_addr 0) in
          let img := modify img IC (set rgstr_word_dst_op_addr (atoi (skipn 2 buf))) in
          Some (img, operandCount, commaCount)
        else None
      else if operandCount =? 2 then
        if one_of opCode [0; 1; 2; 3; 6] then
          let img := modify img (IC - - operandCount) (set_wordType FIRST_WORD_TYPE) in
          let img := modify img (IC - operandCount) (set first_word_dst_op_addr 5) in
          let img := modify img IC (set_wordType RGSTR_WORD_TYPE) in
          let img := modify img IC (set rgstr_word_dst_op_addr (atoi (skipn 2 buf))) in
          Some (img, operandCount, commaCount)
        else None
      else None
  | NUMBER =>
      let img :=
        if (operandCount =? 1) && one_of opCode [0; 1; 2; 3] then
          let img := modify img (IC - operandCount) (set first_word_dst_op_addr 1) in
          let img := modify img IC (set_wordType IMMDT_DRCT_WORD_TYPE) in
          modify img IC (set immdt_drct_word_operand (atoi buf))
        else img in
      let img :=
        if (operandCount =? 2) && (opCode =? 1) && (commaCount =? 1) then
          let img := modify img (IC - - operandCount) (set_wordType FIRST_WORD_TYPE) in
          let img := modify img (IC - operandCount) (set first_word_dst_op_addr 1) in
          let img := modify img IC (set_wordType IMMDT_DRCT_WORD_TYPE) in
          modify img IC (set immdt_drct_word_operand (atoi buf))
        else img in
      Some (img, operandCount, commaCount)
  | LABEL =>
      if (operandCount =? 1) || (operandCount =? 2) then
        if one_of opCode [0; 1; 2; 3; 6] then
          let img := modify img (IC - operandCount) (set_wordType FIRST_WORD_TYPE) in
          let img := modify img (IC - operandCount) (set first_word_dst_op_addr 3) in
          let img := modify img IC (set_wordType IMMDT_DRCT_WORD_TYPE) in
          let img := modify img IC (set_isLabel true) in
          let img := modify img IC (copy_name (tok_str token)) in
          Some (img, operandCount, commaCount)
        else None
      else None
  | COMMA => Some (img, operandCount - 1, commaCount + 1)
  | _ => Some (img, operandCount, commaCount)
  end.

(** The loop shared by [parseTwoOperands] (lines 93-180) and
    [parseOneOperand] (lines 222-281):
    [while ( **line != '\0' && <guard>) { token = getNextToken(line, ..);
    if (token.type == END) break; operandCount++; <body> }].
    [guard] is the value of the second conjunct, which the body never
    changes; [body] is the rest of the loop body, given the token and the
    counters with [operandCount] already incremented. *)
Fixpoint operands_loop (body : Token -> image -> Z -> Z -> option (image * Z * Z))
    (fuel : nat) (guard : bool) (line : cstr) (img : image)
    (operandCount commaCount : Z) : outcome loop_result :=
  match fuel with
  | O => OutOfFuel
  | S fuel =>
      if not_at_end line && guard then
        tl <- getNextToken line ;;
        let token := fst tl in
        let line := snd tl in
        if bool_decide (tok_type token = END) then Ok (Finished img operandCount commaCount line)
        else
          match body token img (operandCount + 1) commaCount with
          | Some (img, oc, cc) => operands_loop body fuel guard line img oc cc
          | None => Ok (Failed img line)
          end
      else Ok (Finished img operandCount commaCount line)
  end.

(** The second conjunct of the loop condition, [*(IC + *DC) < MAX_MEMORY_SPACE]:
    it reads [*IC] when [DC = 0] and an indeterminate int otherwise. *)
Definition two_operands_guard (ind : indet) (IC DC : Z) : bool :=
  (if DC =? 0 then IC else indet_guard ind) <? MAX_MEMORY_SPACE.

(** The checks after the loop of [parseTwoOperands] (lines 181-201):
    [IC] is advanced by the operand count even when a check then fails. *)
Definition two_operands_check (IC DC : Z) (r : loop_result) : enc_result :=
  match r with
  | Failed img line => mkEnc false img IC line
  | Finished img operandCount commaCount line =>
      let IC := IC + operandCount in
      if MAX_MEMORY_SPACE <=? IC + DC then mkEnc false img IC line
      else if 1 <? commaCount then mkEnc false img IC line
      else if negb (operandCount =? 2) then mkEnc false img IC line
      else mkEnc true img IC line
  end.

(** [parseTwoOperands(line, token, codeImage, IC, DC, lineNumber)] *)
Definition parseTwoOperands (ind : indet) (line : cstr) (token : Token) (img : image)
    (IC DC : Z) : outcome enc_result :=
  let opCode := findOpcode token in
  if opCode =? -1 then Ok (mkEnc false img IC line)
  else
    let img := write_first_word img IC opCode in
    r <- operands_loop (two_operands_body IC opCode) (S (length line))
           (two_operands_guard ind IC DC) line img 0 0 ;;
    Ok (two_operands_check IC DC r).

(** ** [parseOneOperand] *)

(** The body of the loop (lines 227-280). *)
Definition one_operand_body (IC opCode : Z) (token : Token) (img : image)
    (operandCount commaCount : Z) : option (image * Z * Z) :=
  let buf := tok_buf token in
  match tok_type token with
  | REGISTER =>
      if negb (isRegister token) then None
      else if operandCount =? 1 then
        if one_of opCode [4; 5; 7; 8; 9; 10; 11; 12; 13] then
          let img := modify img (IC - operandCount) (set first_word_src_op_addr 5) in
          let img := modify img IC (set_wordType IMMDT_DRCT_WORD_TYPE) in
          let img := modify img IC (set rgstr_word_src_op_addr 0) in
          let img := modify img IC (set rgstr_word_dst_op_addr (atoi (skipn 2 buf))) in
          Some (img, operandCount, commaCount)
        else None
      else None
  | NUMBER =>
      if (operandCount =? 1) && (opCode =? 12) then
        let img := modify img (IC - operandCount) (set first_word_dst_op_addr 1) in
        let img := modify img IC (set_wordType IMMDT_DRCT_WORD_TYPE) in
        let img := modify img IC (set immdt_drct_word_operand (atoi buf)) in
        Some (img, operandCount, commaCount)
      else None
  | LABEL =>
      if operandCount =? 1 then
        if one_of opCode [4; 5; 7; 8; 9; 10; 11; 12; 13] then
          let img := modify img (IC - operandCount) (set_wordType FIRST_WORD_TYPE) in
          let img := modify img (IC - operandCount) (set first_word_dst_op_addr 3) in
          let img := modify img IC (set_wordType IMMDT_DRCT_WORD_TYPE) in
          let img := modify img IC (set_isLabel true) in
          let img := modify img IC (copy_name (tok_str token)) in
          Some (img, operandCount, commaCount)
        else None
      else None
  | COMMA => Some (img, operandCount - 1, commaCount + 1)
  | _ => Some (img, operandCount, commaCount)
  end.

(** The checks after the loop of [parseOneOperand] (lines 282-302). *)
Definition one_operand_check (IC DC : Z) (r : loop_result) : enc_result :=
  match r with
  | Failed img line => mkEnc false img IC line
  | Finished img operandCount commaCount line =>
      let IC := IC + operandCount in
      if MAX_MEMORY_SPACE <=? IC + DC then mkEnc false img IC line
      else if 0 <? commaCount then mkEnc false img IC line
      else if 1 <? operandCount then mkEnc false img IC line
      else mkEnc true img IC line
  end.

(** [parseOneOperand(line, token, codeImage, IC, DC, lineNumber)]; the loop
    condition is [( *IC + *DC) < MAX_MEMORY_SPACE]. *)
Definition parseOneOperand (line : cstr) (token : Token) (img : image) (IC DC : Z)
    : outcome enc_result :=
  let opCode := findOpcode token in
  if opCode =? -1 then Ok (mkEnc false img IC line)
  else
    let img := write_first_word img IC opCode in
    let img := modify img IC (set first_word_src_op_addr 0) in
    r <- operands_loop (one_operand_body IC opCode) (S (length line))
           (IC + DC <? MAX_MEMORY_SPACE) line img 0 0 ;;
    Ok (one_operand_check IC DC r).

(** ** [parseNoOperands] *)

(** The loop of lines 321-327: any token but [END] is an error; [END]
    leaves the cursor at the end of the line, which stops the loop. *)
Fixpoint no_operands_loop (fuel : nat) (guard : bool) (line : cstr) : outcome (bool * cstr) :=
  match fuel with
  | O => OutOfFuel
  | S fuel =>
      if not_at_end line && guard then
        tl <- getNextToken line ;;
        if bool_decide (tok_type (fst tl) = END) then no_operands_loop fuel guard (snd tl)
        else Ok (false, snd tl)
      else Ok (true, line)
  end.

(** [parseNoOperands(line, token, codeImage, IC, DC, lineNumber)] *)
Definition parseNoOperands (line : cstr) (token : Token) (img : image) (IC DC : Z)
    : outcome enc_result :=
  let opCode := findOpcode token in
  if opCode =? -1 then Ok (mkEnc false img IC line)
  else
    let img := write_first_word img IC opCode in
    let img := modify img IC (set first_word_src_op_addr 0) in
    r <- no_operands_loop (S (S (length line))) (IC + DC <? MAX_MEMORY_SPACE) line ;;
    if negb (fst r) then Ok (mkEnc false img IC (snd r))
    else
      let IC := IC + 1 in
      if MAX_MEMORY_SPACE <=? IC + DC then Ok (mkEnc false img IC (snd r))
      else Ok (mkEnc true img IC (snd r)).

(** The line [ @rA,@rD] as [fgets] reads it. *)
Definition register_pair_line (a d : ascii) : cstr :=
  [" "; "@"; "r"; a; ","; "@"; "r"; d; "010"]%char.

(** ** Termination: the fuel of each loop is enough *)

Lemma operands_loop_terminates body fuel guard line img oc cc :
  (length line < fuel)%nat -> terminates (operands_loop body fuel guard line img oc cc).
Proof.
  revert line img oc cc. induction fuel as [|fuel IH]; intros line img oc cc Hf; [lia|].
  simpl. destruct (not_at_end line && guard); [|exact I].
  next_token_cases line; [exact I| |].
  - subst. now rewrite bool_decide_eq_true_2.
  - rewrite bool_decide_eq_false_2 by exact Hnotend.
    destruct (body _ _ _ _) as [[[img' oc'] cc']|]; [apply IH; lia|exact I].
Qed.

(** After [END] the cursor is at the end, so two rounds of fuel suffice. *)
Lemma no_operands_loop_terminates fuel guard line :
  (2 <= fuel)%nat -> terminates (no_operands_loop fuel guard line).
Proof.
  intros Hf. destruct fuel as [|[|fuel]]; [lia|lia|]. simpl.
  destruct (not_at_end line && guard); [|exact I].
  next_token_cases line; [exact I| |].
  - subst. rewrite bool_decide_eq_true_2 by reflexivity. simpl. now rewrite Hatend.
  - now rewrite bool_decide_eq_false_2 by exact Hnotend.
Qed.

(** The three encoders return or exit; they never run out of fuel. *)
Lemma parseTwoOperands_terminates ind line token img IC DC :
  terminates (parseTwoOperands ind line token img IC DC).
Proof.
  unfold parseTwoOperands. case_if; [exact I|].
  apply obind_terminates; [apply operands_loop_terminates; lia|now intros].
Qed.

Lemma parseOneOperand_terminates line token img IC DC :
  terminates (parseOneOperand line token img IC DC).
Proof.
  unfold parseOneOperand. case_if; [exact I|].
  apply obind_terminates; [apply operands_loop_terminates; lia|now intros].
Qed.

Lemma parseNoOperands_terminates line token img IC DC :
  terminates (parseNoOperands line token img IC DC).
Proof.
  unfold parseNoOperands. case_if; [exact I|].
  apply obind_terminates; [apply no_operands_loop_terminates; lia|].
  intros [b line'] _; simpl; repeat case_if; exact I.
Qed.

#[export] Hint Resolve parseTwoOperands_terminates parseOneOperand_terminates
  parseNoOperands_terminates : asm.

(** ** The encoders never move [IC] back *)

(** A loop body that lowers [operandCount] by at most the one its caller
    added keeps the count of a finished loop non-negative. *)
Lemma operands_loop_nonneg body fuel guard line img oc cc img' oc' cc' line' :
  (forall t i o c i' o' c', body t i o c = Some (i', o', c') -> o - 1 <= o') ->
  0 <= oc -> operands_loop body fuel guard line img oc cc = Ok (Finished img' oc' cc' line') ->
  0 <= oc'.
Proof.
  intros Hb. revert line img oc cc. induction fuel as [|fuel IH]; intros line img oc cc Hoc H;
    cbn [operands_loop] in H; [discriminate|].
  destruct (not_at_end line && guard); [|congruence].
  apply obind_ok_inv in H as ([t rest] & _ & H). cbn [fst snd] in H.
  destruct (bool_decide (tok_type t = END)); [congruence|].
  destruct (body t img (oc + 1) cc) as [[[i o] c]|] eqn:E; [|discriminate].
  refine (IH _ _ _ _ _ H). specialize (Hb _ _ _ _ _ _ _ E). lia.
Qed.

Lemma two_operands_body_count IC opCode t i o c i' o' c' :
  two_operands_body IC opCode t i o c = Some (i', o', c') -> o - 1 <= o'.
Proof. unfold two_operands_body. destruct (tok_type t); repeat case_if; intros [= _ <- _]; lia. Qed.

Lemma one_operand_body_count IC opCode t i o c i' o' c' :
  one_operand_body IC opCode t i o c = Some (i', o', c') -> o - 1 <= o'.
Proof. unfold one_operand_body. destruct (tok_type t); repeat case_if; intros [= _ <- _]; lia. Qed.

Lemma two_operands_check_IC IC DC r : IC <= enc_IC (two_operands_check IC DC r) \/
  exists img oc cc line, r = Finished img oc cc line /\ enc_IC (two_operands_check IC DC r) = IC + oc.
Proof.
  destruct r as [img oc cc line|img line]; [right|left; simpl; lia].
  exists img, oc, cc, line. split; [reflexivity|]. unfold two_operands_check. now repeat case_if.
Qed.

Lemma parseTwoOperands_IC ind line token img IC DC r :
  parseTwoOperands ind line token img IC DC = Ok r -> IC <= enc_IC r.
Proof.
  unfold parseTwoOperands. case_if; [intros [= <-]; simpl; lia|].
  intros H. apply obind_ok_inv in H as (lr & Hl & H). injection H as <-.
  destruct (two_operands_check_IC IC DC lr) as [H|(i & oc & cc & l & -> & ->)]; [exact H|].
  assert (0 <= oc) by (eapply (operands_loop_nonneg _ _ _ _ _ 0); [apply two_operands_body_count|lia|exact Hl]). lia.
Qed.

Lemma parseOneOperand_IC line token img IC DC r :
  parseOneOperand line token img IC DC = Ok r -> IC <= enc_IC r.
Proof.
  unfold parseOneOperand. case_if; [intros [= <-]; simpl; lia|].
  intros H. apply obind_ok_inv in H as (lr & Hl & H). injection H as <-.
  destruct lr as [i oc cc l|i l]; [|simpl; lia].
  assert (0 <= oc) by (eapply (operands_loop_nonneg _ _ _ _ _ 0); [apply one_operand_body_count|lia|exact Hl]).
  unfold one_operand_check. repeat case_if; simpl; lia.
Qed.

Lemma parseNoOperands_IC line token img IC DC r :
  parseNoOperands line token img IC DC = Ok r -> IC <= enc_IC r.
Proof.
  unfold parseNoOperands. case_if; [intros [= <-]; simpl; lia|].
  intros H. apply obind_ok_inv in H as ([b l] & _ & H). cbn [fst snd] in H.
  repeat case_if_in H; injection H as <-; simpl; lia.
Qed.

(** ** Accepted instructions stay within the memory bound *)

(** C16: A two-operand instruction that is accepted advances [IC] by exactly two
    and leaves [IC + DC] below [MAX_MEMORY_SPACE]. *)
Theorem parseTwoOperands_accept_bounds ind line token img IC DC r :
  parseTwoOperands ind line token img IC DC = Ok r -> enc_ok r = true ->
  enc_IC r = IC + 2 /\ enc_IC r + DC < MAX_MEMORY_SPACE.
Proof.
  unfold parseTwoOperands. case_if; [now intros [= <-]|].
  destruct (operands_loop _ _ _ _ _ _ _) as [[img' oc cc line'|img' line']| |];
    simpl; try discriminate; intros [= <-]; simpl; [|discriminate].
  repeat case_if; simpl; try discriminate; intros _; lia.
Qed.

(** ** Symbolic execution of the encoders *)

#[local] Arguments getNextToken : simpl never.

Lemma operands_loop_token body fuel guard line img oc cc t rest :
  not_at_end line = true -> guard = true -> getNextToken line = Ok (t, rest) ->
  tok_type t <> END ->
  operands_loop body (S fuel) guard line img oc cc =
    match body t img (oc + 1) cc with
    | Some (img', oc', cc') => operands_loop body fuel guard rest img' oc' cc'
    | None => Ok (Failed img rest)
    end.
Proof.
  intros H1 H2 H3 H4. simpl. rewrite H1, H2, H3. simpl.
  now rewrite bool_decide_eq_false_2.
Qed.

Lemma operands_loop_end body fuel guard line img oc cc rest :
  not_at_end line = true -> guard = true -> getNextToken line = Ok (end_token, rest) ->
  operands_loop body (S fuel) guard line img oc cc = Ok (Finished img oc cc rest).
Proof. intros H1 H2 H3. simpl. now rewrite H1, H2, H3. Qed.

#[local] Arguments operands_loop : simpl never.

Lemma parseTwoOperands_eq ind line token img IC DC op :
  findOpcode token = op -> op <> -1 ->
  parseTwoOperands ind line token img IC DC =
    (r <- operands_loop (two_operands_body IC op) (S (length line))
            (two_operands_guard ind IC DC) line (write_first_word img IC op) 0 0 ;;
     Ok (two_operands_check IC DC r)).
Proof.
  intros <- Hop. unfold parseTwoOperands. apply Z.eqb_neq in Hop. now rewrite Hop.
Qed.

Lemma isRegister_reg c :
  reg_digit c = true -> isRegister (mkToken REGISTER ["@"; "r"; c; NUL]%char) = true.
Proof. intros H. apply reg_digit_cases in H. simpl in H. repeat destruct H as [<-|H]; easy. Qed.

Lemma atoi_reg c : reg_digit c = true -> atoi (skipn 2 ["@"; "r"; c; NUL]%char) = code c - 48.
Proof. intros H. apply reg_digit_cases in H. simpl in H. repeat destruct H as [<-|H]; easy. Qed.

Lemma one_of_incl x l1 l2 :
  (forall y, In y l1 -> In y l2) -> one_of x l1 = true -> one_of x l2 = true.
Proof.
  unfold one_of. intros Hincl H. apply existsb_exists in H as (y & Hy & E).
  apply existsb_exists. eauto.
Qed.

(** The run of [parseTwoOperands] on [op @rA,@rD]: what it leaves at [IC],
    at the words around it, and that it writes no other word. *)
Lemma register_pair_run ind img IC DC token a d :
  one_of (findOpcode token) [0; 1; 2; 3] = true ->
  reg_digit a = true -> reg_digit d = true ->
  two_operands_guard ind IC DC = true -> IC + 2 + DC < MAX_MEMORY_SPACE ->
  exists img', parseTwoOperands ind (register_pair_line a d) token img IC DC
               = Ok (mkEnc true img' (IC + 2) []) /\
    (wordType (img' IC) = RGSTR_WORD_TYPE /\
     get rgstr_word_dst_op_addr (img' IC) = code d - 48 /\
     get rgstr_word_src_op_addr (img' IC) = 0 /\
     get first_word_op_code (img' IC) = 0) /\
    (get first_word_src_op_addr (img' (IC - 1)) = 5 /\
     get first_word_dst_op_addr (img' (IC - 2)) = 5 /\
     wordType (img' (IC + 2)) = FIRST_WORD_TYPE) /\
    only_differ img img' (fun k => IC - 2 <= k <= IC + 2).
Proof.
  intros Hop Ha Hd Hg Hb.
  assert (Hop6 : one_of (findOpcode token) [0; 1; 2; 3; 6] = true)
    by (revert Hop; apply one_of_incl; simpl; tauto).
  rewrite (parseTwoOperands_eq _ _ _ _ _ _ (findOpcode token)) by
    (reflexivity || (intros E; rewrite E in Hop; discriminate)).
  unfold register_pair_line.
  erewrite operands_loop_token; [| reflexivity | exact Hg
    | rewrite getNextToken_space by reflexivity; now apply getNextToken_register | discriminate].
  unfold two_operands_body at 1. cbn [tok_type tok_buf].
  rewrite isRegister_reg, atoi_reg, Hop by exact Ha. simpl.
  erewrite operands_loop_token; [| reflexivity | exact Hg | apply getNextToken_comma | discriminate].
  simpl.
  erewrite operands_loop_token; [| reflexivity | exact Hg | now apply getNextToken_register | discriminate].
  unfold two_operands_body at 1. cbn [tok_type tok_buf].
  rewrite isRegister_reg, atoi_reg, Hop6 by exact Hd. simpl.
  erewrite operands_loop_end; [| reflexivity | exact Hg | now apply getNextToken_blank].
  simpl. unfold two_operands_check.
  replace (IC + (0 + 1 + 1 - 1 + 1)) with (IC + 2) by lia.
  rewrite (proj2 (Z.leb_gt _ _)) by lia.
  eexists. split; [reflexivity|].
  pose proof (reg_digit_code _ Hd).
  split; [|split].
  - word_simp. split; [reflexivity|]. split; [apply land_ones_small; simpl; lia|].
    split; [reflexivity|]. unfold write_first_word. word_simp. reflexivity.
  - word_simp. repeat split; reflexivity.
  - unfold write_first_word. repeat (apply only_differ_modify; [|lia]). apply only_differ_refl.
Qed.

(** C1: For [op @rA,@rD] with [op] one of [mov], [cmp], [add], [sub], the
    encoder accepts and advances [IC] by two, but every operand word is
    written at [IC], over the first word: the word left at [IC] is a
    register word whose destination field holds [D] and whose source
    field, and with it the opcode bits, hold 0.  Neither the opcode nor
    the source register [A] is left in the word at [IC]. *)
Theorem register_pair_overwrites_first_word ind img IC DC token a d :
  one_of (findOpcode token) [0; 1; 2; 3] = true ->
  reg_digit a = true -> reg_digit d = true ->
  two_operands_guard ind IC DC = true -> IC + 2 + DC < MAX_MEMORY_SPACE ->
  exists img', parseTwoOperands ind (register_pair_line a d) token img IC DC
               = Ok (mkEnc true img' (IC + 2) []) /\
    wordType (img' IC) = RGSTR_WORD_TYPE /\
    get rgstr_word_dst_op_addr (img' IC) = code d - 48 /\
    get rgstr_word_src_op_addr (img' IC) = 0 /\
    get first_word_op_code (img' IC) = 0.
Proof.
  intros Hop Ha Hd Hg Hb.
  destruct (register_pair_run ind img IC DC token a d Hop Ha Hd Hg Hb) as (img' & H & HIC & _).
  exists img'. split; [exact H|exact HIC].
Qed.

(** C29: The same instruction also writes outside its two words: the
    first-word fields of the first and of the second register go to
    [codeImage[*IC - 1]] and [codeImage[*IC - 2]], and the type of a first
    word to [codeImage[*IC - -2]], that is [IC + 2].  Every other word is
    left as it was.  For the first instruction of a file ([IC = 0]) the
    words [-1] and [-2] lie before the array, a write out of its bounds. *)
Theorem register_pair_writes_outside ind img IC DC token a d :
  one_of (findOpcode token) [0; 1; 2; 3] = true ->
  reg_digit a = true -> reg_digit d = true ->
  two_operands_guard ind IC DC = true -> IC + 2 + DC < MAX_MEMORY_SPACE ->
  exists img', parseTwoOperands ind (register_pair_line a d) token img IC DC
               = Ok (mkEnc true img' (IC + 2) []) /\
    get first_word_src_op_addr (img' (IC - 1)) = 5 /\
    get first_word_dst_op_addr (img' (IC - 2)) = 5 /\
    wordType (img' (IC + 2)) = FIRST_WORD_TYPE /\
    only_differ img img' (fun k => IC - 2 <= k <= IC + 2).
Proof.
  intros Hop Ha Hd Hg Hb.
  destruct (register_pair_run ind img IC DC token a d Hop Ha Hd Hg Hb)
    as (img' & H & _ & (H1 & H2 & H3) & H4).
  exists img'. repeat split; assumption.
Qed.

Lemma findOpcode_range token : findOpcode token = -1 \/ 0 <= findOpcode token < 16.
Proof. unfold findOpcode. repeat case_if; lia. Qed.

(** [fgets] leaves the newline at the end of a line. *)
Lemma getNextToken_newline : getNextToken ["010"%char] = Ok (end_token, []).
Proof. reflexivity. Qed.

(** C8: A one-operand instruction with no operand ([inc] alone on its line)
    is accepted, and [IC] is not advanced: the first word written at [IC],
    with the opcode, is overwritten by whatever the next line encodes. *)
Theorem one_operand_missing_accepted token img IC DC :
  findOpcode token <> -1 -> IC + DC < MAX_MEMORY_SPACE ->
  exists img', parseOneOperand ["010"%char] token img IC DC = Ok (mkEnc true img' IC []) /\
    wordType (img' IC) = FIRST_WORD_TYPE /\ get first_word_op_code (img' IC) = findOpcode token.
Proof.
  intros Hop Hb. unfold parseOneOperand. apply Z.eqb_neq in Hop as Hop'. rewrite Hop'.
  erewrite operands_loop_end; [| reflexivity | now apply Z.ltb_lt | apply getNextToken_newline].
  cbn [obind one_operand_check]. rewrite Z.add_0_r, (proj2 (Z.leb_gt _ _)) by lia.
  eexists. split; [reflexivity|]. unfold write_first_word. word_simp. split; [reflexivity|].
  apply land_ones_small; simpl; [lia|]. destruct (findOpcode_range token); [contradiction|simpl; lia].
Qed.

(** C7: A two-operand instruction whose two label operands are not separated
    by a comma ([mov A B]) is accepted: only more than one comma is
    rejected (line 191), not a missing one. *)
Theorem two_operands_no_comma_accepted ind token img IC DC a b :
  one_of (findOpcode token) [0; 1; 2; 3; 6] = true ->
  label_word a = true -> label_word b = true ->
  two_operands_guard ind IC DC = true -> IC + 2 + DC < MAX_MEMORY_SPACE ->
  exists img', parseTwoOperands ind (" "%char :: a ++ " "%char :: b ++ ["010"%char]) token img IC DC
               = Ok (mkEnc true img' (IC + 2) []).
Proof.
  intros Hop Ha Hb Hg Hbound.
  rewrite (parseTwoOperands_eq _ _ _ _ _ _ (findOpcode token)) by
    (reflexivity || (intros E; rewrite E in Hop; discriminate)).
  cbn [length]. rewrite length_app. cbn [length].
  erewrite operands_loop_token; [| reflexivity | exact Hg
    | rewrite getNextToken_space by reflexivity; now apply getNextToken_label | discriminate].
  unfold two_operands_body at 1. cbn [tok_type]. rewrite Hop. simpl.
  erewrite operands_loop_token; [| reflexivity | exact Hg
    | rewrite getNextToken_space by reflexivity; now apply getNextToken_label | discriminate].
  unfold two_operands_body at 1. cbn [tok_type]. rewrite Hop. simpl.
  rewrite length_app. cbn [length]. rewrite Nat.add_1_r, Nat.add_succ_r.
  erewrite operands_loop_end; [| reflexivity | exact Hg | apply getNextToken_newline].
  cbn [obind two_operands_check].
  rewrite (proj2 (Z.leb_gt _ _)) by lia. eexists. reflexivity.
Qed.

(** [op L] with one label operand: the label word is written at [IC], over
    the first word, and the first-word fields at [IC - 1]. *)
Lemma label_operand_run token img IC DC l :
  one_of (findOpcode token) [4; 5; 7; 8; 9; 10; 11; 12; 13] = true ->
  label_word l = true -> IC + 1 + DC < MAX_MEMORY_SPACE ->
  exists img', parseOneOperand (" "%char :: l ++ ["010"%char]) token img IC DC
               = Ok (mkEnc true img' (IC + 1) []) /\
    isLabel (img' IC) = true /\ wordType (img' IC) = IMMDT_DRCT_WORD_TYPE /\
    wordType (img' (IC - 1)) = FIRST_WORD_TYPE /\ get first_word_dst_op_addr (img' (IC - 1)) = 3.
Proof.
  intros Hop Hl Hb.
  assert (Hne : findOpcode token <> -1) by (intros E; rewrite E in Hop; discriminate).
  unfold parseOneOperand. rewrite (proj2 (Z.eqb_neq _ _) Hne).
  cbn [length]. rewrite length_app. cbn [length].
  erewrite operands_loop_token; [| reflexivity | apply Z.ltb_lt; lia
    | rewrite getNextToken_space by reflexivity; now apply getNextToken_label | discriminate].
  unfold one_operand_body at 1. cbn [tok_type]. rewrite Hop. simpl.
  rewrite Nat.add_1_r.
  erewrite operands_loop_end; [| reflexivity | apply Z.ltb_lt; lia | apply getNextToken_newline].
  cbn [obind one_operand_check]. rewrite (proj2 (Z.leb_gt _ _)) by lia. simpl.
  eexists. split; [reflexivity|]. word_simp. repeat split; reflexivity.
Qed.

(** ** Examples *)

(** [mov @r1,@r2] at [IC = 0] on a blank image. *)
Lemma register_pair_overwrites_first_word_witness :
  exists img', parseTwoOperands ex_indet (register_pair_line "1" "2") (mkToken TWO_OPERANDS (lit "mov" ++ [NUL]))
                 blank_image 0 0 = Ok (mkEnc true img' 2 []) /\
    wordType (img' 0) = RGSTR_WORD_TYPE /\ get rgstr_word_dst_op_addr (img' 0) = code "2" - 48 /\
    get rgstr_word_src_op_addr (img' 0) = 0 /\ get first_word_op_code (img' 0) = 0.
Proof.
  apply (register_pair_overwrites_first_word ex_indet blank_image 0 0
           (mkToken TWO_OPERANDS (lit "mov" ++ [NUL])) "1" "2");
    reflexivity || (vm_compute; reflexivity).
Defined.

(** [mov @r1,@r2] is accepted at [IC = 0]. *)
Lemma parseTwoOperands_accept_bounds_witness :
  exists r, parseTwoOperands ex_indet (register_pair_line "1" "2") (mkToken TWO_OPERANDS (lit "mov" ++ [NUL]))
              blank_image 0 0 = Ok r /\ enc_ok r = true /\
            enc_IC r = 0 + 2 /\ enc_IC r + 0 < MAX_MEMORY_SPACE.
Proof.
  destruct (parseTwoOperands ex_indet (register_pair_line "1" "2")
              (mkToken TWO_OPERANDS (lit "mov" ++ [NUL])) blank_image 0 0) as [r| |] eqn:E;
    [|vm_compute in E; discriminate..].
  assert (Hok : enc_ok r = true) by (vm_compute in E; injection E as <-; reflexivity).
  exists r. split; [reflexivity|]. split; [exact Hok|].
  exact (parseTwoOperands_accept_bounds ex_indet _ _ blank_image 0 0 r E Hok).
Defined.

(** [inc] alone at [IC = 5]. *)
Lemma one_operand_missing_accepted_witness :
  exists img', parseOneOperand ["010"%char] (mkToken ONE_OPERAND (lit "inc" ++ [NUL])) blank_image 5 0
               = Ok (mkEnc true img' 5 []) /\
    wordType (img' 5) = FIRST_WORD_TYPE /\
    get first_word_op_code (img' 5) = findOpcode (mkToken ONE_OPERAND (lit "inc" ++ [NUL])).
Proof.
  apply (one_operand_missing_accepted (mkToken ONE_OPERAND (lit "inc" ++ [NUL])) blank_image 5 0);
    [vm_compute; discriminate | vm_compute; reflexivity].
Defined.

(** [mov A B] at [IC = 0]. *)
Lemma two_operands_no_comma_accepted_witness :
  exists img', parseTwoOperands ex_indet (" "%char :: lit "A" ++ " "%char :: lit "B" ++ ["010"%char])
                 (mkToken TWO_OPERANDS (lit "mov" ++ [NUL])) blank_image 0 0
               = Ok (mkEnc true img' (0 + 2) []).
Proof.
  apply (two_operands_no_comma_accepted ex_indet (mkToken TWO_OPERANDS (lit "mov" ++ [NUL])) blank_image 0 0
           (lit "A") (lit "B")); reflexivity || (vm_compute; reflexivity).
Defined.

Lemma register_pair_writes_outside_witness :
  (exists img', parseTwoOperands ex_indet (register_pair_line "1" "2") (mkToken TWO_OPERANDS (lit "mov" ++ [NUL]))
                 blank_image 0 0 = Ok (mkEnc true img' (0 + 2) []) /\
    get first_word_src_op_addr (img' (0 - 1)) = 5 /\ get first_word_dst_op_addr (img' (0 - 2)) = 5 /\
    wordType (img' (0 + 2)) = FIRST_WORD_TYPE /\ only_differ blank_image img' (fun k => 0 - 2 <= k <= 0 + 2)) /\
  ~ in_array (0 - 1) /\ ~ in_array (0 - 2).
Proof.
  split; [|unfold in_array; lia].
  apply (register_pair_writes_outside ex_indet blank_image 0 0
           (mkToken TWO_OPERANDS (lit "mov" ++ [NUL])) "1" "2");
    reflexivity || (vm_compute; reflexivity).
Defined.

End Instructions.
