(* ===== verification/Directives.v ===== *)
(** * The directive encoders (src/directives.c)

    [parseDirective] dispatches on the directive's name to [.data]
    ([parseDirectiveData]), [.string] ([parseDirectiveString]) and
    [.entry]/[.extern] ([parseDirectiveExtEnt]).  The state they share with
    the rest of the assembler, the locals of [main], is the record
    [asm_state] defined here. *)

From Stdlib Require Import ZArith List Ascii String Lia.
From stdpp Require Import base decidable strings.
From S2P Require Import Prelude CLib Machine Lexer Labels.
Import ListNotations.
Open Scope Z_scope.

(** The locals of [main] that [parseLine] threads through the encoders:
    the two images, the label table and the counters [IC] and [DC]. *)
Record asm_state := mkState {
  codeImage : image;
  dataImage : image;
  labelTable : Labels.label_table;
  IC : Z;
  DC : Z
}.

Module Directives.
Import Lexer Labels.

(** What [parseDirectiveData] and [parseDirectiveString] return: their
    result, the data image, [DC] and the rest of the line. *)
Record data_result := mkData {
  data_ok : bool;
  data_img : image;
  data_DC : Z;
  data_line : cstr
}.

(** ** [.data] *)

(** One data word, as lines 66-68 and 119-121 write it. *)
Definition write_data_word (img : image) (k v lineNumber : Z) : image :=
  let img := modify img k (set data_word_data v) in
  let img := modify img k (set_line lineNumber) in
  modify img k (set_wordType DATA_WORD_TYPE).

(** The loop of lines 62-83.  The value stored for a number is
    [token.type & 0xFFF], the code of [NUMBER].  The boolean is [false]
    when the body returned FALSE on a token that is neither a number nor a
    comma; the words written and the [DC] advanced before stay. *)
Fixpoint data_loop (fuel : nat) (IC lineNumber : Z) (token : Token) (line : cstr)
    (img : image) (DC numberCounter commaCounter : Z)
    : outcome (bool * image * Z * Z * Z * cstr) :=
  match fuel with
  | O => OutOfFuel
  | S fuel =>
      if bool_decide (tok_type token = END) then
        Ok (true, img, DC, numberCounter, commaCounter, line)
      else
        let step :=
          match tok_type token with
          | NUMBER =>
              Some (write_data_word img DC (Z.land (TokenType_code (tok_type token)) 4095) lineNumber,
                    DC + 1, numberCounter + 1, commaCounter)
          | COMMA => Some (img, DC, numberCounter, commaCounter + 1)
          | _ => None
          end in
        match step with
        | None => Ok (false, img, DC, numberCounter, commaCounter, line)
        | Some (img, DC, nc, cc) =>
            if MAX_FILE_SIZE <=? IC + DC then Ok (true, img, DC, nc, cc, line)
            else
              tl <- getNextToken line ;;
              data_loop fuel IC lineNumber (fst tl) (snd tl) img DC nc cc
        end
  end.

(** [parseDirectiveData(line, dataImage, IC, DC, lineNumber)]: accepted
    when the loop ends normally with one more number than commas. *)
Definition parseDirectiveData (line : cstr) (img : image) (IC DC lineNumber : Z)
    : outcome data_result :=
  tl <- getNextToken line ;;
  let token := fst tl in
  let line := snd tl in
  if MAX_FILE_SIZE <=? IC + DC then Ok (mkData false img DC line)
  else
    r <- data_loop (S (S (length line))) IC lineNumber token line img DC 0 0 ;;
    let '(ok, img', DC', nc, cc, line') := r in
    Ok (mkData (ok && (nc =? cc + 1)) img' DC' line').

(** ** [.string] *)

(** The loop of lines 115-127 over the characters of the string it reads:
    [counter] words are written from [DC].  The boolean is [false] for the
    [return FALSE] on reaching [MAX_MEMORY_SPACE]; the words written before
    it stay in the image and [DC] is not advanced. *)
Fixpoint string_loop (s : cstr) (img : image) (IC DC counter lineNumber : Z)
    : bool * image * Z :=
  match s with
  | [] => (true, img, counter)
  | c :: r =>
      if IC + counter + DC <? MAX_MEMORY_SPACE then
        string_loop r (write_data_word img (DC + counter) (Z.land (code c) 4095) lineNumber)
          IC DC (counter + 1) lineNumber
      else (false, img, counter)
  end.

(** [parseDirectiveString(token, line, dataImage, IC, DC, lineNumber)].
    The characters stored are those of [token.value.string] after the
    second [getNextToken], that is of the [END] token; the terminator of
    lines 129-136 gets its data and line number but no [wordType]. *)
Definition parseDirectiveString (line : cstr) (img : image) (IC DC lineNumber : Z)
    : outcome data_result :=
  tl <- getNextToken line ;;
  let s := tok_str (fst tl) in
  let line := snd tl in
  if negb (Ascii.eqb (char_at s 0) dquote)
     || negb (Ascii.eqb (char_at s (length s - 1)) dquote)
  then Ok (mkData false img DC line)
  else
    tl <- getNextToken line ;;
    let token := fst tl in
    let line := snd tl in
    if negb (bool_decide (tok_type token = END)) then Ok (mkData false img DC line)
    else
      let '(ok, img, counter) := string_loop (tok_str token) img IC DC 0 lineNumber in
      if negb ok then Ok (mkData false img DC line)
      else if DC + counter + IC <? MAX_MEMORY_SPACE then
        let img := modify img (DC + counter) (set data_word_data 0) in
        let img := modify img (DC + counter) (set_line lineNumber) in
        Ok (mkData true img (DC + (counter + 1)) line)
      else Ok (mkData false img DC line).

(** ** [.entry] and [.extern] *)

(** The loop of lines 154-167.  Only the second token of the line, when it
    is a label, is passed to [parseLabel]; both calls pass [TRUE] for
    [isEntry], the [.extern] one included. *)
Fixpoint extent_loop (fuel : nat) (ind : indet) (token : Token) (line : cstr)
    (tbl : label_table) (tokenCounter : Z) (isLable isExternal isEntry : bool) (IC DC : Z)
    : outcome (Token * label_table * Z * bool) :=
  match fuel with
  | O => OutOfFuel
  | S fuel =>
      if negb (bool_decide (tok_type token = END)) && (tokenCounter <=? 3)
         && negb (bool_decide (tok_type token = INVALID)) then
        r <- (if (tokenCounter =? 2) && bool_decide (tok_type token = LABEL) then
                r <- (if isEntry then parseLabel ind token line tbl false isExternal true IC DC
                      else Ok (isLable, tbl, line)) ;;
                let '(isLable, tbl, line) := r in
                if isExternal then parseLabel ind token line tbl false isExternal true IC DC
                else Ok (isLable, tbl, line)
              else Ok (isLable, tbl, line)) ;;
        let '(isLable, tbl, line) := r in
        tl <- getNextToken line ;;
        extent_loop fuel ind (fst tl) (snd tl) tbl (tokenCounter + 1) isLable isExternal isEntry IC DC
      else Ok (token, tbl, tokenCounter, isLable)
  end.

(** [parseDirectiveExtEnt(token, line, ..., isData, isExternal, isEntry, IC,
    DC, lineNumber)]; [token] is the directive itself, counted as the first
    token.  The loop runs at most three times, so four rounds of fuel
    suffice. *)
Definition parseDirectiveExtEnt (ind : indet) (token : Token) (line : cstr)
    (tbl : label_table) (isExternal isEntry : bool) (IC DC : Z)
    : outcome (bool * label_table) :=
  if isExternal && isEntry then Ok (false, tbl)
  else
    r <- extent_loop 4 ind token line tbl 1 false isExternal isEntry IC DC ;;
    let '(token, tbl, tokenCounter, isLable) := r in
    if bool_decide (tok_type token = INVALID) then Ok (false, tbl)
    else if 3 <? tokenCounter then Ok (false, tbl)
    else if negb isLable then Ok (false, tbl)
    else Ok (true, tbl).

(** ** [parseDirective] *)

(** [parseDirective(token, line, ..., isData, isExternal, isEntry, IC, DC,
    lineNumber)]: the dispatch on the directive's name. *)
Definition parseDirective (ind : indet) (token : Token) (line : cstr) (st : asm_state)
    (isExternal isEntry : bool) (lineNumber : Z) : outcome (bool * asm_state) :=
  let s := tok_buf token in
  let '(mkState cimg dimg tbl ic dc) := st in
  if streq s (lit ".data") then
    r <- parseDirectiveData line dimg ic dc lineNumber ;;
    Ok (data_ok r, mkState cimg (data_img r) tbl ic (data_DC r))
  else if streq s (lit ".string") then
    r <- parseDirectiveString line dimg ic dc lineNumber ;;
    Ok (data_ok r, mkState cimg (data_img r) tbl ic (data_DC r))
  else if streq s (lit ".entry") then
    r <- parseDirectiveExtEnt ind token line tbl isExternal true ic dc ;;
    Ok (fst r, mkState cimg dimg (snd r) ic dc)
  else if streq s (lit ".extern") then
    r <- parseDirectiveExtEnt ind token line tbl true isEntry ic dc ;;
    Ok (fst r, mkState cimg dimg (snd r) ic dc)
  else Ok (false, st).

(** A [.data] line of 121 numbers at [IC = 0, DC = 0]: it stops at [DC = 100]. *)
Definition many_numbers : cstr := concat (repeat (lit " 1,") 120) ++ lit " 1".

(** ** Data words *)

Lemma write_data_word_same img k v ln :
  get data_word_data (write_data_word img k v ln k) = Z.land v 4095 /\
  wordType (write_data_word img k v ln k) = DATA_WORD_TYPE.
Proof. unfold write_data_word. word_simp. split; reflexivity. Qed.

Lemma write_data_word_other img k v ln j :
  j <> k -> write_data_word img k v ln j = img j.
Proof. intros H. unfold write_data_word. now rewrite !modify_other. Qed.

Lemma land_code c : Z.land (code c) 4095 = code c.
Proof. apply (land_ones_small _ 12); [lia|]. pose proof (code_range c). simpl. lia. Qed.

(** The [.data] loop writes exactly the words from [DC] to the [DC] it
    returns, one per number, each holding the code of [NUMBER]. *)
Lemma data_loop_words fuel IC ln token line img DC nc cc ok img' DC' nc' cc' line' :
  data_loop fuel IC ln token line img DC nc cc = Ok (ok, img', DC', nc', cc', line') ->
  DC <= DC' /\ DC' - DC = nc' - nc /\
  (forall k, DC <= k < DC' ->
     get data_word_data (img' k) = TokenType_code NUMBER /\ wordType (img' k) = DATA_WORD_TYPE) /\
  (forall k, ~ (DC <= k < DC') -> img' k = img k).
Proof.
  revert token line img DC nc cc. induction fuel as [|fuel IH];
    intros token line img DC nc cc H; simpl in H; [discriminate|].
  destruct (bool_decide (tok_type token = END)).
  { injection H as <- <- <- <- <- <-. repeat split; intros; lia || reflexivity. }
  assert (Hstep : forall img1 DC1 nc1,
    DC <= DC1 <= DC + 1 -> DC1 - DC = nc1 - nc ->
    (forall k, DC <= k < DC1 ->
       get data_word_data (img1 k) = TokenType_code NUMBER /\ wordType (img1 k) = DATA_WORD_TYPE) ->
    (forall k, ~ (DC <= k < DC1) -> img1 k = img k) ->
    forall cc1,
    (if MAX_FILE_SIZE <=? IC + DC1 then Ok (true, img1, DC1, nc1, cc1, line)
     else tl <- getNextToken line ;; data_loop fuel IC ln (fst tl) (snd tl) img1 DC1 nc1 cc1)
    = Ok (ok, img', DC', nc', cc', line') ->
    DC <= DC' /\ DC' - DC = nc' - nc /\
    (forall k, DC <= k < DC' ->
       get data_word_data (img' k) = TokenType_code NUMBER /\ wordType (img' k) = DATA_WORD_TYPE) /\
    (forall k, ~ (DC <= k < DC') -> img' k = img k)).
  { intros img1 DC1 nc1 Hr Hn Hin Hout cc1 E.
    destruct (MAX_FILE_SIZE <=? IC + DC1).
    - injection E as <- <- <- <- <- <-. split; [lia|]. split; [lia|]. now split.
    - destruct (getNextToken line) as [[t r]| |]; simpl in E; try discriminate.
      destruct (IH _ _ _ _ _ _ E) as (H1 & H2 & H3 & H4).
      split; [lia|]. split; [lia|]. split.
      + intros k Hk. destruct (Z.lt_ge_cases k DC1).
        * rewrite H4 by lia. apply Hin. lia.
        * apply H3. lia.
      + intros k Hk. rewrite H4 by lia. apply Hout. lia. }
  destruct (tok_type token); try (injection H as <- <- <- <- <- <-; repeat split; intros; lia || reflexivity).
  - refine (Hstep _ (DC + 1) (nc + 1) _ _ _ _ _ H); [lia|lia| |].
    + intros k Hk. assert (k = DC) as -> by lia. apply write_data_word_same.
    + intros k Hk. apply write_data_word_other. lia.
  - refine (Hstep img DC nc _ _ _ _ _ H); [lia|lia| |]; intros k Hk; [lia|reflexivity].
Qed.

(** The [.string] loop writes the characters of its string from
    [DC + counter] on and nothing else. *)
Lemma string_loop_words s img IC DC counter ln img' counter' :
  string_loop s img IC DC counter ln = (true, img', counter') ->
  counter' = counter + Z.of_nat (length s) /\
  (forall i, 0 <= i < Z.of_nat (length s) ->
     get data_word_data (img' (DC + counter + i)) = code (char_at s (Z.to_nat i))) /\
  (forall k, k < DC + counter \/ DC + counter + Z.of_nat (length s) <= k -> img' k = img k).
Proof.
  revert img counter. induction s as [|c r IH]; intros img counter H; simpl in H.
  { injection H as <- <-. simpl. repeat split; intros; lia || reflexivity. }
  destruct (IC + counter + DC <? MAX_MEMORY_SPACE); [|discriminate].
  destruct (IH _ _ H) as (H1 & H2 & H3). simpl length. split; [lia|]. split.
  - intros i Hi. destruct (Z.eq_dec i 0) as [->|Hi0].
    + rewrite H3 by lia. rewrite Z.add_0_r, (proj1 (write_data_word_same _ _ _ _)).
      rewrite land_code. simpl. apply land_code.
    + replace (DC + counter + i) with (DC + (counter + 1) + (i - 1)) by lia.
      rewrite H2 by lia. replace (Z.to_nat i) with (S (Z.to_nat (i - 1))) by lia. reflexivity.
  - intros k Hk. rewrite H3 by lia. apply write_data_word_other. lia.
Qed.

(** ** The directives never move the counters back *)

Lemma string_loop_counter s img IC DC counter ln : counter <= snd (string_loop s img IC DC counter ln).
Proof.
  revert img counter. induction s as [|c r IH]; intros img counter; cbn [string_loop]; [simpl; lia|].
  case_if; [specialize (IH (write_data_word img (DC + counter) (Z.land (code c) 4095) ln) (counter + 1)); lia|].
  simpl; lia.
Qed.

Lemma data_loop_DC fuel IC ln token line img DC nc cc ok img' DC' nc' cc' line' :
  data_loop fuel IC ln token line img DC nc cc = Ok (ok, img', DC', nc', cc', line') -> DC <= DC'.
Proof.
  revert token line img DC nc cc. induction fuel as [|fuel IH];
    intros token line img DC nc cc H; cbn [data_loop] in H; [discriminate|].
  destruct (bool_decide (tok_type token = END)); [injection H as _ _ <- _ _ _; lia|].
  destruct (tok_type token); try (injection H as _ _ <- _ _ _; lia);
    (case_if_in H; [injection H as _ _ <- _ _ _; lia|]);
    apply obind_ok_inv in H as (tl & _ & H); apply IH in H; lia.
Qed.

Lemma parseDirectiveData_DC line img IC DC ln r : parseDirectiveData line img IC DC ln = Ok r -> DC <= data_DC r.
Proof.
  unfold parseDirectiveData. intros H. apply obind_ok_inv in H as (tl & _ & H). cbv beta in H.
  case_if_in H; [injection H as <-; simpl; lia|].
  apply obind_ok_inv in H as ([[[[[ok img'] DC'] nc] cc] line'] & Hl & H). injection H as <-.
  simpl. exact (data_loop_DC _ _ _ _ _ _ _ _ _ _ _ _ _ _ _ Hl).
Qed.

Lemma parseDirectiveString_DC line img IC DC ln r : parseDirectiveString line img IC DC ln = Ok r -> DC <= data_DC r.
Proof.
  unfold parseDirectiveString. intros H. apply obind_ok_inv in H as (tl & _ & H). cbv beta in H.
  case_if_in H; [injection H as <-; simpl; lia|].
  apply obind_ok_inv in H as (tl' & _ & H). cbv beta in H. case_if_in H; [injection H as <-; simpl; lia|].
  pose proof (string_loop_counter (tok_str (fst tl')) img IC DC 0 ln) as Hc.
  destruct (string_loop _ _ _ _ _ _) as [[ok img'] counter]. cbn [snd] in Hc.
  repeat case_if_in H; injection H as <-; simpl; lia.
Qed.

(** A directive leaves [IC] as it is and [DC] where it was or further. *)
Lemma parseDirective_counters ind token line st e n ln b st' :
  parseDirective ind token line st e n ln = Ok (b, st') -> IC st' = IC st /\ DC st <= DC st'.
Proof.
  destruct st as [cimg dimg tbl ic dc]. unfold parseDirective.
  repeat case_if; intros H; try (injection H as _ <-; simpl; lia);
    apply obind_ok_inv in H as (r & Hr & H); injection H as _ <-; simpl; split; try reflexivity;
    try lia; [apply (parseDirectiveData_DC _ _ _ _ _ _ Hr)|apply (parseDirectiveString_DC _ _ _ _ _ _ Hr)].
Qed.

(** ** Termination: the fuel of each loop is enough *)

(** Each round of the [.data] loop after the first reads a token that is
    [END] (and the next round stops) or shortens the line. *)
Lemma data_loop_terminates fuel IC ln token line img DC nc cc :
  (S (length line) < fuel)%nat -> terminates (data_loop fuel IC ln token line img DC nc cc).
Proof.
  revert token line img DC nc cc.
  induction fuel as [|fuel IH]; intros token line img DC nc cc Hf; [lia|].
  simpl. destruct (bool_decide (tok_type token = END)); [exact I|].
  destruct (match tok_type token with NUMBER => _ | COMMA => _ | _ => None end)
    as [[[[img1 DC1] nc1] cc1]|]; [|exact I].
  case_if; [exact I|].
  next_token_cases line; [exact I| |].
  - subst. destruct fuel as [|fuel]; [lia|]. exact I.
  - apply IH. lia.
Qed.

(** The [.entry]/[.extern] loop stops once the counter passes 3. *)
Lemma extent_loop_terminates fuel ind token line tbl k isLable e n IC DC :
  k <= 4 -> 5 <= k + Z.of_nat fuel ->
  terminates (extent_loop fuel ind token line tbl k isLable e n IC DC).
Proof.
  revert token line tbl k isLable.
  induction fuel as [|fuel IH]; intros token line tbl k isLable Hk Hf; simpl; [lia|].
  destruct (negb _ && (k <=? 3) && negb _) eqn:Hc; [|exact I].
  assert (k <= 3) by (apply andb_prop in Hc as [Hc _]; apply andb_prop in Hc as [_ Hc]; lia).
  terminates_auto. apply IH; lia.
Qed.

Lemma parseDirectiveData_terminates line img IC DC ln :
  terminates (parseDirectiveData line img IC DC ln).
Proof. unfold parseDirectiveData. terminates_auto. apply data_loop_terminates. lia. Qed.

Lemma parseDirectiveString_terminates line img IC DC ln :
  terminates (parseDirectiveString line img IC DC ln).
Proof.
  unfold parseDirectiveString. terminates_auto.
  destruct (string_loop _ _ _ _ _ _) as [[? ?] ?]. terminates_auto.
Qed.

Lemma parseDirectiveExtEnt_terminates ind token line tbl e n IC DC :
  terminates (parseDirectiveExtEnt ind token line tbl e n IC DC).
Proof. unfold parseDirectiveExtEnt. terminates_auto. apply extent_loop_terminates; lia. Qed.

#[export] Hint Resolve parseDirectiveData_terminates parseDirectiveString_terminates
  parseDirectiveExtEnt_terminates : asm.

(** The directive encoders return or exit. *)
Lemma parseDirective_terminates ind token line st e n ln :
  terminates (parseDirective ind token line st e n ln).
Proof. unfold parseDirective. destruct st. terminates_auto. Qed.

#[export] Hint Resolve parseDirective_terminates : asm.

(** ** The bound of [.data] *)

Lemma data_loop_bound fuel IC ln token line img DC nc cc ok img' DC' nc' cc' line' :
  data_loop fuel IC ln token line img DC nc cc = Ok (ok, img', DC', nc', cc', line') ->
  IC + DC < MAX_FILE_SIZE -> IC + DC' <= MAX_FILE_SIZE.
Proof.
  revert token line img DC nc cc. induction fuel as [|fuel IH];
    intros token line img DC nc cc H Hb; simpl in H; [discriminate|].
  destruct (bool_decide (tok_type token = END)); [injection H as _ _ <- _ _ _; lia|].
  destruct (tok_type token); try (injection H as _ _ <- _ _ _; lia).
  - case_if_in H; [injection H as _ _ <- _ _ _; lia|].
    apply obind_ok_inv in H as (tl & _ & H). apply IH in H; lia.
  - case_if_in H; [injection H as _ _ <- _ _ _; lia|].
    apply obind_ok_inv in H as (tl & _ & H). apply IH in H; lia.
Qed.

(** C14: [.data] stops writing once [IC + DC] reaches [MAX_FILE_SIZE] (100),
    not [MAX_MEMORY_SPACE] (1024): whatever the line, the [DC] it leaves
    is at most [100 - IC]. *)
Theorem data_bounded_by_file_size line img IC DC lineNumber r :
  parseDirectiveData line img IC DC lineNumber = Ok r -> IC + DC < MAX_FILE_SIZE ->
  IC + data_DC r <= MAX_FILE_SIZE.
Proof.
  unfold parseDirectiveData. intros H Hb.
  apply obind_ok_inv in H as ([t l] & _ & H). cbv beta in H. case_if_in H; [lia|].
  apply obind_ok_inv in H as ([[[[[ok img'] DC'] nc] cc] l'] & Hl & H).
  injection H as <-. simpl. exact (data_loop_bound _ _ _ _ _ _ _ _ _ _ _ _ _ _ _ Hl Hb).
Qed.

(** ** The label table only grows *)

Lemma extent_loop_extends fuel ind token line tbl k il e n IC DC t' tbl' k' il' :
  extent_loop fuel ind token line tbl k il e n IC DC = Ok (t', tbl', k', il') -> extends tbl' tbl.
Proof.
  revert token line tbl k il. induction fuel as [|fuel IH]; intros token line tbl k il H;
    simpl in H; [discriminate|].
  destruct (negb _ && _ && negb _); [|injection H as _ <- _ _; auto with asm].
  apply obind_ok_inv in H as ([[il1 tbl1] l1] & Hstep & H).
  apply obind_ok_inv in H as (tl & _ & H).
  apply IH in H. apply (extends_trans _ tbl1); [exact H|].
  destruct ((k =? 2) && _); [|injection Hstep as _ <- _; auto with asm].
  apply obind_ok_inv in Hstep as ([[il2 tbl2] l2] & H1 & H2).
  assert (extends tbl2 tbl).
  { destruct n; [exact (parseLabel_extends _ _ _ _ _ _ _ _ _ _ _ _ H1)|].
    injection H1 as _ <- _; auto with asm. }
  destruct e; [apply parseLabel_extends in H2; eauto using extends_trans|].
  injection H2 as _ <- _; auto.
Qed.

Lemma parseDirectiveExtEnt_extends ind token line tbl e n IC DC b tbl' :
  parseDirectiveExtEnt ind token line tbl e n IC DC = Ok (b, tbl') -> extends tbl' tbl.
Proof.
  unfold parseDirectiveExtEnt. case_if; [intros [= _ <-]; auto with asm|].
  intros H. apply obind_ok_inv in H as ([[[t' tbl1] k'] il'] & Hl & H).
  apply extent_loop_extends in Hl. cbv beta iota in H.
  repeat case_if_in H; injection H as _ <-; exact Hl.
Qed.

Lemma parseDirective_extends ind token line st e n ln b st' :
  parseDirective ind token line st e n ln = Ok (b, st') -> extends (labelTable st') (labelTable st).
Proof.
  destruct st as [cimg dimg tbl ic dc]. unfold parseDirective.
  repeat case_if; intros H; try (injection H as _ <-; apply extends_refl);
    apply obind_ok_inv in H as (r & Hr & H); cbv beta in H; injection H as _ <-; simpl;
    try apply extends_refl; destruct r; eapply parseDirectiveExtEnt_extends; exact Hr.
Qed.

(** ** What [.data] and [.string] store *)

(** C3: Every word a [.data] directive writes, from [DC] up to the [DC] it
    leaves, holds the code of the token type [NUMBER] (5) instead of the
    number written in the source ([token.type & 0xFFF], line 66); no other
    word of the data image changes. *)
Theorem data_words_hold_token_type line img IC DC lineNumber r :
  parseDirectiveData line img IC DC lineNumber = Ok r ->
  DC <= data_DC r /\
  (forall k, DC <= k < data_DC r ->
     get data_word_data (data_img r k) = TokenType_code NUMBER /\
     wordType (data_img r k) = DATA_WORD_TYPE) /\
  (forall k, ~ (DC <= k < data_DC r) -> data_img r k = img k).
Proof.
  unfold parseDirectiveData.
  destruct (getNextToken line) as [[t l]| |]; cbn [obind fst snd]; try discriminate.
  case_if; [intros [= <-]; simpl; repeat split; intros; lia || reflexivity|].
  destruct (data_loop (S (S (length l))) IC lineNumber t l img DC 0 0) as [[[[[[ok img'] DC'] nc] cc] l']| |] eqn:E;
    cbn [obind]; try discriminate.
  intros [= <-]. simpl. destruct (data_loop_words _ _ _ _ _ _ _ _ _ _ _ _ _ _ _ E) as (? & _ & ? & ?).
  auto.
Qed.

(** The characters of the [END] token. *)
Lemma end_token_str : tok_str end_token = lit "end of line".
Proof. reflexivity. Qed.

(** C4: An accepted [.string] directive stores the eleven characters of
    ["end of line"], the string of the [END] token it read last, and a
    zero terminator: twelve words whatever the quoted string was. *)
Theorem string_stores_end_of_line line img IC DC lineNumber r :
  parseDirectiveString line img IC DC lineNumber = Ok r -> data_ok r = true ->
  data_DC r = DC + 12 /\
  (forall i, 0 <= i < 12 ->
     get data_word_data (data_img r (DC + i)) = code (char_at (lit "end of line") (Z.to_nat i))).
Proof.
  unfold parseDirectiveString.
  destruct (getNextToken line) as [[t1 l1]| |]; simpl; try discriminate.
  case_if; [now intros [= <-]|].
  destruct (getNextToken l1) as [[t2 l2]| |] eqn:E2; simpl; try discriminate.
  destruct (bool_decide (tok_type t2 = END)) eqn:Hend; simpl; [|now intros [= <-]].
  apply bool_decide_eq_true in Hend. rewrite (getNextToken_end _ _ _ E2 Hend), end_token_str.
  destruct (string_loop _ _ _ _ _ _) as [[ok img'] counter] eqn:Es.
  destruct ok; simpl; [|now intros [= <-]].
  destruct (string_loop_words _ _ _ _ _ _ _ _ Es) as (Hc & Hw & Ho). simpl in Hc.
  case_if; [|now intros [= <-]].
  intros [= <-] _. simpl. split; [lia|].
  intros i Hi. destruct (Z.eq_dec i 11) as [->|Hi11].
  - rewrite Hc. simpl. word_simp. reflexivity.
  - rewrite !modify_other by lia. rewrite <- (Z.add_0_r DC) at 1. rewrite Hw by (simpl; lia).
    reflexivity.
Qed.

(** ** [.extern] *)

(** [.extern X] runs the loop three times: over the directive, over the
    label (the [.extern] call of [parseLabel], with [isEntry] TRUE) and over
    the [END] token. *)
Lemma extern_label_inserted ind t x tbl IC DC :
  label_word x = true -> findLabel (indet_probe ind) tbl = false -> tok_type t = DIRECTIVE ->
  parseDirectiveExtEnt ind t (" "%char :: x) tbl true false IC DC =
  Ok (true, {| lname := x; laddress := IC; lisExternal := true; lisEntry := true;
               lisData := false |} :: tbl).
Proof.
  intros Hx Hf Ht. pose proof (getNextToken_label x [] Hx eq_refl) as Hl.
  rewrite app_nil_r in Hl.
  unfold parseDirectiveExtEnt. cbn -[getNextToken parseLabel]. rewrite Ht.
  cbn -[getNextToken parseLabel]. rewrite getNextToken_space by reflexivity. rewrite Hl.
  cbn -[getNextToken]. rewrite label_word_valid by exact Hx.
  unfold createLabel. rewrite Hf. cbn. rewrite label_word_c_str by exact Hx. reflexivity.
Qed.

(** ** Examples *)

(** [.data 7, -3]: two words written, each holding 5. *)
Lemma data_words_hold_token_type_witness :
  exists r, parseDirectiveData (lit " 7, -3") blank_image 0 0 1 = Ok r /\
    0 <= data_DC r /\
    (forall k, 0 <= k < data_DC r ->
       get data_word_data (data_img r k) = TokenType_code NUMBER /\
       wordType (data_img r k) = DATA_WORD_TYPE) /\
    (forall k, ~ (0 <= k < data_DC r) -> data_img r k = blank_image k).
Proof.
  destruct (parseDirectiveData (lit " 7, -3") blank_image 0 0 1) as [r| |] eqn:E;
    [|vm_compute in E; discriminate..].
  exists r. split; [reflexivity|]. exact (data_words_hold_token_type _ _ _ _ _ r E).
Defined.

(** [.string "a"]: twelve words, ["end of line"] and the terminator. *)
Lemma string_stores_end_of_line_witness :
  exists r, parseDirectiveString [" "; dquote; "a"; dquote]%char blank_image 0 0 1 = Ok r /\
    data_ok r = true /\ data_DC r = 0 + 12 /\
    (forall i, 0 <= i < 12 ->
       get data_word_data (data_img r (0 + i)) = code (char_at (lit "end of line") (Z.to_nat i))).
Proof.
  destruct (parseDirectiveString [" "; dquote; "a"; dquote]%char blank_image 0 0 1) as [r| |] eqn:E;
    [|vm_compute in E; discriminate..].
  assert (Hok : data_ok r = true) by (vm_compute in E; injection E as <-; reflexivity).
  exists r. split; [reflexivity|]. split; [exact Hok|].
  exact (string_stores_end_of_line _ _ _ _ _ r E Hok).
Defined.

Lemma data_bounded_by_file_size_witness :
  exists r, parseDirectiveData many_numbers blank_image 0 0 1 = Ok r /\ 0 + data_DC r <= MAX_FILE_SIZE.
Proof.
  destruct (parseDirectiveData many_numbers blank_image 0 0 1) as [r| |] eqn:E;
    [|vm_compute in E; discriminate..].
  exists r. split; [reflexivity|].
  apply (data_bounded_by_file_size _ _ _ _ _ r E). reflexivity.
Defined.

End Directives.
