(* ===== verification/Parser.v ===== *)
(** * The line driver: [parseLine] (src/parser.c) and the loop of [main]
    (src/main.c)

    [parseLine] rejects a line longer than 80 characters, reads the first
    token, handles a leading label declaration with [parseLabel], and
    dispatches on the next token to a directive or an instruction encoder.
    [main] reads the expanded file with [fgets] into an 81-byte buffer and
    ORs the failures of [parseLine] into [ERROR_FOUND]; the images, the
    label table and the counters are locals of [main] that are not reset
    between input files. *)

From Stdlib Require Import ZArith List Ascii String Lia.
From stdpp Require Import base decidable strings.
From S2P Require Import Prelude CLib Machine Lexer Labels Instructions Directives.
Import ListNotations.
Open Scope Z_scope.

Module Parser.
Import Lexer Labels Instructions Directives.

(** An instruction encoder's result, put back into the state. *)
Definition with_enc (st : asm_state) (r : enc_result) : bool * asm_state :=
  (enc_ok r, mkState (enc_img r) (dataImage st) (labelTable st) (enc_IC r) (DC st)).

(** The [switch (token.type)] of [parseLine] (lines 197-215). *)
Definition dispatch (ind : indet) (token : Token) (line : cstr) (st : asm_state)
    (lineNumber : Z) : outcome (bool * asm_state) :=
  match tok_type token with
  | END => Ok (true, st)
  | DIRECTIVE => parseDirective ind token line st false false lineNumber
  | ONE_OPERAND =>
      r <- parseOneOperand line token (codeImage st) (IC st) (DC st) ;; Ok (with_enc st r)
  | TWO_OPERANDS =>
      r <- parseTwoOperands ind line token (codeImage st) (IC st) (DC st) ;; Ok (with_enc st r)
  | NO_OPERANDS =>
      r <- parseNoOperands line token (codeImage st) (IC st) (DC st) ;; Ok (with_enc st r)
  | _ => Ok (false, st)
  end.

(** [parseLine(line, codeImage, dataImage, labelTable, IC, DC, lineNumber)].
    After a declaration the next token is read before the result of
    [parseLabel] is tested. *)
Definition parseLine (ind : indet) (line : cstr) (st : asm_state) (lineNumber : Z)
    : outcome (bool * asm_state) :=
  let line := c_str line in
  if isLineTooLong line then Ok (false, st)
  else
    tl <- getNextToken line ;;
    let token := fst tl in
    let line := snd tl in
    if bool_decide (tok_type token = LABEL_DECLARATION) then
      r <- parseLabel ind token line (labelTable st) false false false (IC st) (DC st) ;;
      let '(ok, tbl, line) := r in
      let st := mkState (codeImage st) (dataImage st) tbl (IC st) (DC st) in
      tl <- getNextToken line ;;
      if negb ok then Ok (false, st)
      else dispatch ind (fst tl) (snd tl) st lineNumber
    else dispatch ind token line st lineNumber.

(** The loop of [main] over the lines of one file (main.c lines 75-85):
    [ERROR_FOUND |= (parseLine(...) == FALSE)], line numbers from
    [lineNumber].  [ind] gives the indeterminate values met on each line. *)
Fixpoint parseLines (ind : Z -> indet) (lines : list cstr) (st : asm_state)
    (lineNumber : Z) (ERROR_FOUND : bool) : outcome (bool * asm_state) :=
  match lines with
  | [] => Ok (ERROR_FOUND, st)
  | line :: rest =>
      r <- parseLine (ind lineNumber) line st lineNumber ;;
      parseLines ind rest (snd r) (lineNumber + 1) (ERROR_FOUND || negb (fst r))
  end.

(** One expanded file: its lines from line 1, starting with no error. *)
Definition assembleFile (ind : Z -> indet) (text : cstr) (st : asm_state)
    : outcome (bool * asm_state) :=
  parseLines ind (fgets_lines (S (length text)) text) st 1 false.

(** [st'] has counters at least those of [st]. *)
Definition counters_le (st st' : asm_state) : Prop := IC st <= IC st' /\ DC st <= DC st'.

(** [LOOP:] declared a second time: the table gets a second [LOOP]. *)
Definition loop_label : label :=
  {| lname := lit "LOOP"; laddress := 0; lisExternal := false; lisEntry := false; lisData := false |}.

(** A file with a label declaration and an [.extern] line. *)
Definition example_file : cstr :=
  lit "X: .data 5" ++ ["010"%char] ++ lit ".extern Y" ++ ["010"%char].

(** ** Termination *)

Lemma dispatch_terminates ind token line st ln : terminates (dispatch ind token line st ln).
Proof. unfold dispatch. destruct (tok_type token); terminates_auto. Qed.

#[export] Hint Resolve dispatch_terminates : asm.

(** Every line is handled to its end or ends the process with [exit]: the
    fuel of every loop of the lexer, the label code and the encoders is
    enough, whatever the line. *)
Lemma parseLine_terminates ind line st ln : terminates (parseLine ind line st ln).
Proof. unfold parseLine. terminates_auto. Qed.

(** [main] reads every line of a file: the loop over the lines returns or
    exits. *)
Lemma parseLines_terminates ind lines st n e : terminates (parseLines ind lines st n e).
Proof.
  revert st n e. induction lines as [|l rest IH]; intros st n e; simpl; [exact I|].
  apply obind_terminates; [apply parseLine_terminates|]. intros. apply IH.
Qed.

Lemma assembleFile_total ind text st : terminates (assembleFile ind text st).
Proof. apply parseLines_terminates. Qed.

Theorem assembleFile_terminates ind text st : terminates (assembleFile ind text st).
Proof. apply assembleFile_total. Qed.

(** ** No label is ever removed *)

Lemma dispatch_extends ind token line st ln b st' :
  dispatch ind token line st ln = Ok (b, st') -> extends (labelTable st') (labelTable st).
Proof.
  unfold dispatch. destruct (tok_type token); intros H;
    try (injection H as _ <-; apply extends_refl);
    try (eapply parseDirective_extends; exact H);
    apply obind_ok_inv in H as (r & _ & H); injection H as _ <-; apply extends_refl.
Qed.

Lemma parseLine_extends ind line st ln b st' :
  parseLine ind line st ln = Ok (b, st') -> extends (labelTable st') (labelTable st).
Proof.
  unfold parseLine. case_if; [intros [= _ <-]; apply extends_refl|].
  intros H. apply obind_ok_inv in H as (tl & _ & H). cbv beta in H. case_if_in H.
  - apply obind_ok_inv in H as ([[ok tbl] l] & Hl & H). apply parseLabel_extends in Hl.
    apply obind_ok_inv in H as (tl' & _ & H). cbv beta in H. case_if_in H.
    + injection H as _ <-. exact Hl.
    + apply dispatch_extends in H. eauto using extends_trans.
  - eapply dispatch_extends. exact H.
Qed.

Lemma parseLines_extends ind lines st n err e st' :
  parseLines ind lines st n err = Ok (e, st') -> extends (labelTable st') (labelTable st).
Proof.
  revert st n err. induction lines as [|l rest IH]; intros st n err H; simpl in H.
  - injection H as _ <-. apply extends_refl.
  - apply obind_ok_inv in H as ([b st1] & H1 & H). apply parseLine_extends in H1.
    apply IH in H. eauto using extends_trans.
Qed.

(** C13: No label is ever removed from the table: after any number of lines,
    the table is the initial one with labels added at its head. *)
Theorem assembleFile_table_grows ind text st e st' :
  assembleFile ind text st = Ok (e, st') -> extends (labelTable st') (labelTable st).
Proof. apply parseLines_extends. Qed.

(** ** The counters never move back *)

Lemma counters_le_refl st : counters_le st st.
Proof. split; lia. Qed.

Lemma counters_le_trans a b c : counters_le a b -> counters_le b c -> counters_le a c.
Proof. unfold counters_le. lia. Qed.

Lemma dispatch_counters ind token line st ln b st' :
  dispatch ind token line st ln = Ok (b, st') -> counters_le st st'.
Proof.
  unfold dispatch. destruct (tok_type token); intros H;
    try (injection H as _ <-; apply counters_le_refl);
    try (apply parseDirective_counters in H as [H1 H2]; split; lia);
    apply obind_ok_inv in H as (r & Hr & H); injection H as _ <-; split; simpl; try lia;
    [eapply parseOneOperand_IC|eapply parseTwoOperands_IC|eapply parseNoOperands_IC]; exact Hr.
Qed.

Lemma parseLine_counters ind line st ln b st' :
  parseLine ind line st ln = Ok (b, st') -> counters_le st st'.
Proof.
  unfold parseLine. case_if; [intros [= _ <-]; apply counters_le_refl|].
  intros H. apply obind_ok_inv in H as (tl & _ & H). cbv beta in H. case_if_in H.
  - apply obind_ok_inv in H as ([[ok tbl] l] & _ & H).
    apply obind_ok_inv in H as (tl' & _ & H). cbv beta in H. case_if_in H.
    + injection H as _ <-. split; simpl; lia.
    + apply dispatch_counters in H. exact H.
  - eapply dispatch_counters. exact H.
Qed.

Lemma parseLines_counters ind lines st n err e st' :
  parseLines ind lines st n err = Ok (e, st') -> counters_le st st'.
Proof.
  revert st n err. induction lines as [|l rest IH]; intros st n err H; cbn [parseLines] in H.
  - injection H as _ <-. apply counters_le_refl.
  - apply obind_ok_inv in H as ([b st1] & H1 & H). eapply counters_le_trans;
      [exact (parseLine_counters _ _ _ _ _ _ H1)|exact (IH _ _ _ H)].
Qed.

(** ** What [fgets] reads *)


(** C15: With more fuel than characters, the buffers [fgets] returns are the
    whole file in order, and none holds more than 80 characters, so the
    line-length check of [parseLine] never rejects a line of a file (a
    longer source line is split into several lines instead). *)
Theorem fgets_lines_cover fuel text :
  (length text < fuel)%nat ->
  concat (fgets_lines fuel text) = text /\
  Forall (fun l => isLineTooLong (c_str l) = false) (fgets_lines fuel text).
Proof.
  revert text. induction fuel as [|fuel IH]; intros text Hf; [lia|].
  destruct text as [|c r]; [split; [reflexivity|constructor]|].
  cbn [fgets_lines]. destruct (fgets_line_split 80 (c :: r)) as (H1 & H2 & H3).
  destruct (fgets_line 80 (c :: r)) as [l rest] eqn:E. simpl in H1, H2, H3.
  destruct (IH rest) as [IH1 IH2]; [specialize (H3 ltac:(lia) ltac:(congruence)); simpl in *; lia|].
  simpl. rewrite IH1. split; [exact H1|]. constructor; [|exact IH2].
  rewrite isLineTooLong_spec. unfold strlen. rewrite c_str_idem.
  pose proof (c_str_length_le l). apply Z.ltb_ge. unfold MAX_LINE_LENGTH. lia.
Qed.

(** ** [.extern] lines *)

(** C6: A line [.extern X], for a label name [X] not yet in the table (as the
    indeterminate duplicate probe sees it), is accepted and puts at the
    head of the table a label [X] at address [IC] that is external and
    also an entry ([isEntry] is passed TRUE by directives.c line 162). *)
Theorem extern_label_marked_entry ind x st n :
  label_word x = true -> findLabel (indet_probe ind) (labelTable st) = false ->
  parseLine ind (lit ".extern " ++ x) st n =
  Ok (true, mkState (codeImage st) (dataImage st)
              ({| lname := x; laddress := IC st; lisExternal := true; lisEntry := true;
                  lisData := false |} :: labelTable st) (IC st) (DC st)).
Proof.
  intros Hx Hf. unfold parseLine.
  assert (Hc : c_str (lit ".extern " ++ x) = lit ".extern " ++ x)
    by (simpl; now rewrite label_word_c_str_self).
  rewrite Hc, isLineTooLong_spec. unfold strlen. rewrite Hc, length_app.
  assert (Hlen : (Z.of_nat (length x) < 31)%Z).
  { unfold label_word in Hx. apply andb_prop in Hx as [Hx _]. apply andb_prop in Hx as [_ Hx].
    unfold MAX_LABEL_LENGTH in Hx. lia. }
  rewrite (proj2 (Z.ltb_ge _ _)) by (simpl length; unfold MAX_LINE_LENGTH; lia).
  change (lit ".extern " ++ x) with (lit ".extern" ++ " "%char :: x).
  rewrite getNextToken_word by (easy || reflexivity).
  replace (classify_word (lit ".extern")) with (Ok (mkToken DIRECTIVE (lit ".extern" ++ [NUL])))
    by reflexivity.
  cbn -[parseDirectiveExtEnt].
  destruct st as [cimg dimg tbl ic dc]. cbn -[parseDirectiveExtEnt].
  rewrite extern_label_inserted by (easy || reflexivity). reflexivity.
Qed.

(** ** Label declarations *)

(** C2: A line [X: rest] declaring a label word [X] puts a label [X] at
    address [IC] at the head of the table and then handles [rest] as a
    line without label, whether or not [X] is already in the table and
    whatever [rest] holds ([.data] and [.string] included: [isData] is
    never set).  The duplicate check of [createLabel] (labels.c line 218)
    searches for the bytes at [name + ':'], not for [X], so the label is
    refused only when that indeterminate probe happens to name a label of
    the table.  The other hypotheses: [rest] starts with a separator, the
    line fits in 80 characters, and the uninitialised [nextToken] of
    [parseLabel] does not look like a comma, a number or an invalid token. *)
Theorem label_declaration_inserted ind x rest st n :
  label_word x = true -> sep_start (c_str rest) = true ->
  (S (length x + strlen rest) <= 80)%nat ->
  findLabel (indet_probe ind) (labelTable st) = false ->
  ~ In (indet_next_type ind) [COMMA; NUMBER; INVALID] ->
  parseLine ind (x ++ ":"%char :: rest) st n =
  (tl <- getNextToken (c_str rest) ;;
   dispatch ind (fst tl) (snd tl)
     (mkState (codeImage st) (dataImage st)
        ({| lname := x; laddress := IC st; lisExternal := false; lisEntry := false;
            lisData := false |} :: labelTable st) (IC st) (DC st)) n).
Proof.
  intros Hx Hr Hlen Hf Hnt. unfold parseLine.
  assert (Hc : c_str (x ++ ":"%char :: rest) = x ++ ":"%char :: c_str rest).
  { rewrite c_str_app_prefix by now apply label_word_no_nul. reflexivity. }
  rewrite Hc, isLineTooLong_spec. unfold strlen in *.
  replace (c_str (x ++ ":"%char :: c_str rest)) with (x ++ ":"%char :: c_str rest)
    by (rewrite c_str_app_prefix by (now apply label_word_no_nul);
        change (c_str (":"%char :: c_str rest)) with (":"%char :: c_str (c_str rest));
        now rewrite c_str_idem).
  rewrite length_app.
  rewrite (proj2 (Z.ltb_ge _ _)) by (simpl length; unfold MAX_LINE_LENGTH; lia).
  rewrite getNextToken_declaration by assumption. cbn -[parseLabel getNextToken dispatch].
  unfold parseLabel. cbn [tok_type tok_buf].
  rewrite bool_decide_eq_true_2 by reflexivity.
  rewrite !bool_decide_eq_false_2 by (intros E; apply Hnt; rewrite E; simpl; tauto).
  unfold createLabel. rewrite Hf. cbn -[getNextToken dispatch].
  rewrite c_str_app_nul by now apply label_word_no_nul. reflexivity.
Qed.

(** C37: [IC] and [DC] never decrease over a file: every encoder adds
    its operand count (never negative, a comma taking back only the one the
    loop added) or leaves the counter, and a label declaration leaves both;
    so a word once counted is never counted again by a later line. *)
Theorem assembleFile_counters_grow ind text st e st' :
  assembleFile ind text st = Ok (e, st') -> IC st <= IC st' /\ DC st <= DC st'.
Proof. apply parseLines_counters. Qed.

(** ** Examples *)

Lemma label_declaration_inserted_witness :
  parseLine ex_indet (lit "LOOP" ++ ":"%char :: lit " .data 7") (mkState blank_image blank_image [loop_label] 3 0) 2 =
  (tl <- getNextToken (c_str (lit " .data 7")) ;;
   dispatch ex_indet (fst tl) (snd tl)
     (mkState blank_image blank_image
        ({| lname := lit "LOOP"; laddress := 3; lisExternal := false; lisEntry := false;
            lisData := false |} :: [loop_label]) 3 0) 2).
Proof.
  apply (label_declaration_inserted ex_indet (lit "LOOP") (lit " .data 7")
           (mkState blank_image blank_image [loop_label] 3 0) 2);
    [reflexivity | reflexivity | vm_compute; lia | reflexivity | simpl; intros [H|[H|[H|H]]]; easy].
Defined.

(** [.extern W] on an empty table. *)
Lemma extern_label_marked_entry_witness :
  parseLine ex_indet (lit ".extern " ++ lit "W") (mkState blank_image blank_image [] 0 0) 1 =
  Ok (true, mkState blank_image blank_image
              [{| lname := lit "W"; laddress := 0; lisExternal := true; lisEntry := true;
                  lisData := false |}] 0 0).
Proof.
  apply (extern_label_marked_entry ex_indet (lit "W") (mkState blank_image blank_image [] 0 0) 1);
    reflexivity.
Defined.

(** A file of two lines, the first of 100 characters. *)
Lemma fgets_lines_cover_witness :
  concat (fgets_lines 200 (repeat "a"%char 100 ++ lit " stop")) = repeat "a"%char 100 ++ lit " stop" /\
  Forall (fun l => isLineTooLong (c_str l) = false) (fgets_lines 200 (repeat "a"%char 100 ++ lit " stop")).
Proof. apply fgets_lines_cover. simpl. lia. Defined.

Lemma assembleFile_table_grows_witness :
  exists e st', assembleFile (fun _ => ex_indet) example_file (mkState blank_image blank_image [loop_label] 0 0)
                = Ok (e, st') /\ extends (labelTable st') [loop_label].
Proof.
  destruct (assembleFile (fun _ => ex_indet) example_file (mkState blank_image blank_image [loop_label] 0 0))
    as [[e st']| |] eqn:E; [|vm_compute in E; discriminate..].
  exists e, st'. split; [reflexivity|]. exact (assembleFile_table_grows _ _ _ e st' E).
Defined.

Lemma assembleFile_counters_grow_witness :
  exists e st', assembleFile (fun _ => ex_indet) example_file (mkState blank_image blank_image [] 0 0) = Ok (e, st') /\
    IC (mkState blank_image blank_image [] 0 0) <= IC st' /\ DC (mkState blank_image blank_image [] 0 0) <= DC st'.
Proof.
  destruct (assembleFile (fun _ => ex_indet) example_file (mkState blank_image blank_image [] 0 0))
    as [[e st']| |] eqn:H; try (vm_compute in H; discriminate).
  exists e, st'. split; [reflexivity|]. exact (assembleFile_counters_grow _ _ _ _ _ H).
Defined.

End Parser.
