(* ===== verification/Serializer.v ===== *)
(** * The serializer (src/writeFiles.c)

    [convertToBinary] packs a machine word into 12 bits according to its
    [wordType] (a word flagged [isLabel] is looked up in the label table,
    may print a line to the .ext or .ent file, and packs to 0);
    [binaryToBase64] maps 12 bits to two characters of the base-64
    alphabet; [convertArrays] does both for the code image then the data
    image; [writeLabelFiles] prints the entry and external labels of the
    table; [writeFiles] writes the three files.  A file is modelled by the
    text written to it. *)

From Stdlib Require Import ZArith List Ascii String Lia.
From stdpp Require Import base decidable strings.
From S2P Require Import Prelude CLib Machine Lexer Labels Instructions Directives.
Import ListNotations.
Open Scope Z_scope.

Module Serializer.
Import Lexer Labels Instructions.

(** [0, 1, ..., n - 1] as ints. *)
Definition zrange (n : Z) : list Z := map Z.of_nat (seq 0 (Z.to_nat n)).

(** [fprintf(f, "%s\t%d", name, address)] *)
Definition name_tab_address (l : label) : cstr :=
  c_str (lname l) ++ lit "	" ++ dec (laddress l).

(** [convertToBinary(machineWord, externFile, entryFile, labelTable,
    lineNumber)]: the 12-bit value and the texts appended to the .ext and
    .ent files.  The label fields printed are those of the word's own
    [label] member, not of the table's label. *)
Definition convertToBinary (w : machine_word) (tbl : label_table) : Z * cstr * cstr :=
  if isLabel w then
    let l := mw_label w in
    if findLabel (lname l) tbl then
      let ext := if lisExternal l then name_tab_address l else [] in
      let ent := if lisEntry l || negb (lisExternal l) then name_tab_address l else [] in
      (0, ext, ent)
    else (0, [], [])
  else
    let binary :=
      match wordType w with
      | FIRST_WORD_TYPE =>
          Z.lor (Z.lor (Z.lor (Z.shiftl (Z.land (get first_word_ARE w) 3) 10)
                              (Z.shiftl (Z.land (get first_word_dst_op_addr w) 7) 7))
                       (Z.shiftl (Z.land (get first_word_op_code w) 15) 3))
                (Z.land (get first_word_src_op_addr w) 7)
      | IMMDT_DRCT_WORD_TYPE =>
          Z.lor (Z.shiftl (Z.land (get immdt_drct_word_ARE w) 3) 10)
                (Z.land (get immdt_drct_word_operand w) 1023)
      | DATA_WORD_TYPE => Z.land (get data_word_data w) 4095
      | RGSTR_WORD_TYPE =>
          Z.lor (Z.lor (Z.shiftl (Z.land (get rgstr_word_ARE w) 3) 10)
                       (Z.shiftl (Z.land (get rgstr_word_dst_op_addr w) 15) 6))
                (Z.land (get rgstr_word_src_op_addr w) 15)
      | OTHER_WORD_TYPE => 0
      end in
    (Z.land binary 4095, [], []).

(** [base64Chars] *)
Definition base64Chars : cstr :=
  lit "ABCDEFGHIJKLMNOPQRSTUVWXYZabcdefghijklmnopqrstuvwxyz0123456789+/".

(** [binaryToBase64(binaryWord)]: the high then the low six bits. *)
Definition binaryToBase64 (binaryWord : Z) : cstr :=
  let b := Z.land binaryWord 4095 in
  [char_at base64Chars (Z.to_nat (Z.land (Z.shiftr b 6) 63));
   char_at base64Chars (Z.to_nat (Z.land b 63))].

(** [printBinaryRepresentation(number)]: [putchar] of bit [i], tested with
    [number & (1 << i)], for [i] from 11 down to 0, then a newline. *)
Definition printBinaryRepresentation (number : Z) : cstr :=
  map (fun i => if Z.land number (Z.shiftl 1 (Z.of_nat i)) =? 0 then "0"%char else "1"%char)
      (rev (seq 0 12)) ++ ["010"%char].

(** What [convertArrays] produces: the binary words of each image, the
    base-64 strings [codeImage64] and [dataImage64], and the texts written
    to the .ext and .ent files. *)
Record converted := mkConverted {
  codeImageBinary : list Z;
  dataImageBinary : list Z;
  codeImage64 : cstr;
  dataImage64 : cstr;
  conv_ext : cstr;
  conv_ent : cstr
}.

(** One of the two conversion loops of [convertArrays] (lines 166-178). *)
Definition convert_words (img : image) (n : Z) (tbl : label_table) : list Z * cstr * cstr :=
  fold_left (fun acc i =>
               let '(bins, ext, ent) := acc in
               let '(b, e, n) := convertToBinary (img i) tbl in
               (bins ++ [b], ext ++ e, ent ++ n))
            (zrange n) ([], [], []).

(** [convertArrays(codeImage, dataImage, ..., labelTable, IC, DC)]; the
    base-64 strings are the concatenation of the two-character codes. *)
Definition convertArrays (cimg dimg : image) (tbl : label_table) (IC DC : Z) : converted :=
  let '(cbins, ext1, ent1) := convert_words cimg IC tbl in
  let '(dbins, ext2, ent2) := convert_words dimg DC tbl in
  mkConverted cbins dbins (concat (map binaryToBase64 cbins)) (concat (map binaryToBase64 dbins))
    (ext1 ++ ext2) (ent1 ++ ent2).

(** [fprintf(f, "%s %d\n", name, address)] *)
Definition name_space_address (l : label) : cstr :=
  c_str (lname l) ++ lit " " ++ dec (laddress l) ++ lit "
".

(** [writeLabelFiles(entryFile, externFile, labelTable)]: the texts for
    the .ent and the .ext file, in table order (most recent label first). *)
Fixpoint writeLabelFiles (tbl : label_table) : cstr * cstr :=
  match tbl with
  | [] => ([], [])
  | l :: rest =>
      let '(ent, ext) := writeLabelFiles rest in
      if lisEntry l then (name_space_address l ++ ent, ext)
      else if lisExternal l then (ent, name_space_address l ++ ext)
      else (ent, ext)
  end.

(** The output files: their names and the texts written to them. *)
Record output_files := mkOutput {
  obj_name : cstr; obj_text : cstr;
  ext_name : cstr; ext_text : cstr;
  ent_name : cstr; ent_text : cstr
}.

(** [generateOutputFileNames(inputFileName, ...)]: the name up to the last
    dot, which must start [".am"], with [.ent], [.ext], [.obj] appended;
    [None] where the code prints an error and leaves the names unset. *)
Definition generateOutputFileNames (inputFileName : cstr) : option (cstr * cstr * cstr) :=
  let s := c_str inputFileName in
  let r := rev s in
  let dot := length (cut_at "."%char r) in
  if (dot =? length r)%nat then None
  else
    let base := firstn (length s - S dot) s in
    let ext := skipn (length s - S dot) s in
    if negb (streq ext (lit ".am")) then None
    else if negb (Z.of_nat (length base) <? MAX_FILE_NAME_LENGTH - 4) then None
    else Some (base ++ lit ".ent", base ++ lit ".ext", base ++ lit ".obj").

(** [fprintf(objFile, "%d:\t %s\n", base + i, &image64[i])]: the index
    and the base-64 string from offset [i]. *)
Definition obj_line (s64 : cstr) (base i : Z) : cstr :=
  dec (base + i) ++ lit ":	 " ++ skipn (Z.to_nat i) s64 ++ lit "
".

(** The object file's lines for one image, [i] from 0 to [n - 1]. *)
Definition obj_lines (s64 : cstr) (base n : Z) : cstr :=
  concat (map (obj_line s64 base) (zrange n)).

(** [writeFiles(fileName, codeImage, dataImage, ..., labelTable, IC, DC)] *)
Definition writeFiles (fileName : cstr) (st : asm_state) : option output_files :=
  match generateOutputFileNames fileName with
  | None => None
  | Some (ent, ext, obj) =>
      let c := convertArrays (codeImage st) (dataImage st) (labelTable st) (IC st) (DC st) in
      let '(ent2, ext2) := writeLabelFiles (labelTable st) in
      let objText :=
        dec (IC st) ++ lit " " ++ dec (DC st) ++ lit "
" ++
        obj_lines (codeImage64 c) 0 (IC st) ++ obj_lines (dataImage64 c) (IC st) (DC st) in
      Some (mkOutput obj objText ext (conv_ext c ++ ext2) ent (conv_ent c ++ ent2))
  end.

(** ** Decoding: not code of the program, the inverse the tests assume *)

(** The position of a character in a string. *)
Fixpoint index_of (c : ascii) (s : cstr) : Z :=
  match s with
  | [] => 0
  | x :: r => if Ascii.eqb x c then 0 else 1 + index_of c r
  end.

(** The 12-bit value of a two-character base-64 code. *)
Definition base64Decode (s : cstr) : Z :=
  match s with
  | c1 :: c2 :: _ => index_of c1 base64Chars * 64 + index_of c2 base64Chars
  | _ => 0
  end.

(** A first word with [ARE = 0], destination mode 3, opcode 2, source
    mode 1 packs to [3 * 128 + 2 * 8 + 1 = 401]. *)
Definition first_word_example : machine_word :=
  set first_word_src_op_addr 1 (set first_word_op_code 2 (set first_word_dst_op_addr 3
    (set_wordType FIRST_WORD_TYPE blank_word))).

(** A code image whose word 1 is [first_word_example] and whose other
    words are blank. *)
Definition obj_example_image : image :=
  fun i => if Z.eqb i 1 then first_word_example else blank_word.

(** ** Base-64 codes *)

(** The 64 characters of [base64Chars] are distinct. *)
Lemma base64_index k : 0 <= k < 64 -> index_of (char_at base64Chars (Z.to_nat k)) base64Chars = k.
Proof.
  intros Hk.
  assert (Hall : forallb (fun n => index_of (char_at base64Chars n) base64Chars =? Z.of_nat n)
                   (seq 0 64) = true) by (vm_compute; reflexivity).
  rewrite forallb_forall in Hall. specialize (Hall (Z.to_nat k)).
  rewrite Z2Nat.id in Hall by lia. apply Z.eqb_eq, Hall, in_seq. lia.
Qed.

(** [n & (1 << k)] is zero exactly when bit [k] of [n] is clear. *)
Lemma land_shiftl_1_eqb n k : 0 <= k -> (Z.land n (Z.shiftl 1 k) =? 0) = negb (Z.testbit n k).
Proof.
  intros Hk. rewrite Z.shiftl_1_l. destruct (Z.testbit n k) eqn:E; simpl.
  - apply Z.eqb_neq. intros H. assert (Ht := f_equal (fun z => Z.testbit z k) H). simpl in Ht.
    rewrite Z.land_spec, E, Z.pow2_bits_true, Z.bits_0 in Ht by lia. discriminate.
  - apply Z.eqb_eq. apply Z.bits_inj'. intros m Hm.
    rewrite Z.land_spec, Z.pow2_bits_eqb, Z.bits_0 by lia.
    destruct (Z.eqb_spec k m) as [<-|_]; [now rewrite E|apply andb_false_r].
Qed.

(** [printBinaryRepresentation] prints the twelve low bits of the
    word, the most significant first, as [Z.testbit] gives them. *)
Theorem printBinaryRepresentation_bits n :
  printBinaryRepresentation n =
  map (fun k => if Z.testbit n (11 - Z.of_nat k) then "1"%char else "0"%char) (seq 0 12) ++ ["010"%char].
Proof.
  unfold printBinaryRepresentation. f_equal.
  rewrite (map_ext (fun i => if Z.land n (Z.shiftl 1 (Z.of_nat i)) =? 0 then "0"%char else "1"%char)
                   (fun i => if Z.testbit n (Z.of_nat i) then "1"%char else "0"%char)).
  - reflexivity.
  - intros i. rewrite land_shiftl_1_eqb by lia. now destruct (Z.testbit n _).
Qed.

(** C11: [binaryToBase64] loses nothing of a 12-bit word: decoding its two
    characters gives the word back. *)
Theorem binaryToBase64_roundtrip b : base64Decode (binaryToBase64 b) = Z.land b 4095.
Proof.
  unfold binaryToBase64, base64Decode.
  assert (Hm : 0 <= Z.land b 4095 < 4096).
  { change 4095 with (Z.ones 12). rewrite Z.land_ones by lia.
    apply (Z.mod_pos_bound b (2 ^ 12)). lia. }
  set (m := Z.land b 4095) in *.
  change 63 with (Z.ones 6). rewrite !Z.land_ones, Z.shiftr_div_pow2 by lia.
  change (2 ^ 6) with 64.
  rewrite !base64_index by (split; [apply Z.mod_pos_bound|apply Z.mod_pos_bound]; lia).
  rewrite (Z.mod_small (m / 64)) by (split; [apply Z.div_pos|apply Z.div_lt_upper_bound]; lia).
  pose proof (Z.div_mod m 64). lia.
Qed.

(** ** The lines of the object file *)

Lemma codeImage64_concat cimg dimg tbl IC DC :
  codeImage64 (convertArrays cimg dimg tbl IC DC) =
  concat (map binaryToBase64 (codeImageBinary (convertArrays cimg dimg tbl IC DC))).
Proof.
  unfold convertArrays. destruct (convert_words cimg _ tbl) as [[cb e1] n1].
  destruct (convert_words dimg _ tbl) as [[db e2] n2]. reflexivity.
Qed.

Lemma dataImage64_concat cimg dimg tbl IC DC :
  dataImage64 (convertArrays cimg dimg tbl IC DC) =
  concat (map binaryToBase64 (dataImageBinary (convertArrays cimg dimg tbl IC DC))).
Proof.
  unfold convertArrays. destruct (convert_words cimg _ tbl) as [[cb e1] n1].
  destruct (convert_words dimg _ tbl) as [[db e2] n2]. reflexivity.
Qed.

(** The conversion loop converts one word per index. *)
Lemma convert_words_length img n tbl : length (convert_words img n tbl).1.1 = Z.to_nat n.
Proof.
  unfold convert_words.
  assert (H : forall l (acc : list Z * cstr * cstr),
    length (fold_left (fun acc i => let '(bins, ext, ent) := acc in
                          let '(b, e, n) := convertToBinary (img i) tbl in (bins ++ [b], ext ++ e, ent ++ n))
              l acc).1.1 = (length acc.1.1 + length l)%nat).
  { induction l as [|i l IH]; intros [[bins ext] ent]; cbn [fold_left length]; [simpl; lia|].
    destruct (convertToBinary (img i) tbl) as [[b e] m]. rewrite IH. simpl. rewrite length_app. simpl. lia. }
  rewrite H. unfold zrange. rewrite length_map, length_seq. reflexivity.
Qed.

Lemma concat_codes_length bins : length (concat (map binaryToBase64 bins)) = (2 * length bins)%nat.
Proof. induction bins as [|b bins IH]; [reflexivity|]. cbn [map concat]. rewrite length_app, IH. simpl. lia. Qed.

(** Every word takes two characters of the base-64 string, so offset [2 j]
    is the code of word [j]. *)
Lemma skipn_concat_codes bins j b :
  nth_error bins j = Some b ->
  skipn (2 * j) (concat (map binaryToBase64 bins)) =
  binaryToBase64 b ++ concat (map binaryToBase64 (skipn (S j) bins)).
Proof.
  revert bins. induction j as [|j IH]; intros [|x bins] H; cbn in H; try discriminate.
  - injection H as ->. reflexivity.
  - replace (2 * S j)%nat with (S (S (2 * j))) by lia.
    transitivity (skipn (2 * j) (concat (map binaryToBase64 bins))); [reflexivity|].
    exact (IH bins H).
Qed.

(** C12: [convertArrays] writes two base-64 characters per word: the
    strings it builds in [codeImage64] and [dataImage64] hold [2 * IC] and
    [2 * DC] characters.  Both arrays have [MAX_MEMORY_SPACE] (1024)
    bytes, so from [IC = 512] on the code characters and their terminator,
    written at [codeImage64[IC * 2]], run past the end of the array,
    although [IC] itself may reach 1023. *)
Theorem image64_length cimg dimg tbl IC DC :
  0 <= IC -> 0 <= DC ->
  Z.of_nat (length (codeImage64 (convertArrays cimg dimg tbl IC DC))) = 2 * IC /\
  Z.of_nat (length (dataImage64 (convertArrays cimg dimg tbl IC DC))) = 2 * DC.
Proof.
  intros HI HD. rewrite codeImage64_concat, dataImage64_concat, !concat_codes_length.
  unfold convertArrays. pose proof (convert_words_length cimg IC tbl) as H1.
  pose proof (convert_words_length dimg DC tbl) as H2.
  destruct (convert_words cimg IC tbl) as [[cb e1] n1]. destruct (convert_words dimg DC tbl) as [[db e2] n2].
  simpl in *. lia.
Qed.

(** C32: The object file shows the wrong words: its line for word [2 j]
    prints [&codeImage64[2 j]], which is the base-64 code of word [j]
    followed by the codes of all the words after it, since every word
    takes two characters of [codeImage64]. *)
Theorem obj_line_shows_half_index cimg dimg tbl IC DC j b :
  nth_error (codeImageBinary (convertArrays cimg dimg tbl IC DC)) j = Some b ->
  obj_line (codeImage64 (convertArrays cimg dimg tbl IC DC)) 0 (2 * Z.of_nat j) =
  dec (2 * Z.of_nat j) ++ lit ":	 " ++ binaryToBase64 b
  ++ concat (map binaryToBase64 (skipn (S j) (codeImageBinary (convertArrays cimg dimg tbl IC DC))))
  ++ lit "
".
Proof.
  intros H. unfold obj_line. rewrite codeImage64_concat, Z.add_0_l.
  replace (Z.to_nat (2 * Z.of_nat j)) with (2 * j)%nat by lia.
  rewrite (skipn_concat_codes _ _ _ H). now rewrite <- !app_assoc.
Qed.

(** ** The label files *)

(** C40: [writeLabelFiles] is the reference definition by filters: the
    .ent text lists the entry labels and the .ext text the external labels
    that are not entries, each in table order; so an [.extern] label, which
    [parseLabel] also marks as an entry, is listed in the .ent file only. *)
Theorem writeLabelFiles_filter tbl :
  writeLabelFiles tbl =
  (concat (map name_space_address (List.filter lisEntry tbl)),
   concat (map name_space_address (List.filter (fun l => negb (lisEntry l) && lisExternal l) tbl))).
Proof.
  induction tbl as [|l rest IH]; [reflexivity|]. cbn [writeLabelFiles List.filter]. rewrite IH.
  destruct (lisEntry l), (lisExternal l); reflexivity.
Qed.

(** ** The packing of a first word *)

(** C10: A first word (not a label reference) is packed with the source
    addressing mode in bits 0-2, the opcode in bits 3-6, the destination
    mode in bits 7-9 and [ARE] in bits 10-11, and nothing is written to
    the .ent and .ext files. *)
Theorem first_word_packing w tbl :
  isLabel w = false -> wordType w = FIRST_WORD_TYPE ->
  convertToBinary w tbl =
  (get first_word_ARE w * 2 ^ 10 + get first_word_dst_op_addr w * 2 ^ 7
   + get first_word_op_code w * 2 ^ 3 + get first_word_src_op_addr w, [], []).
Proof.
  intros Hl Ht. unfold convertToBinary. rewrite Hl, Ht.
  pose proof (get_range first_word_ARE w ltac:(split; simpl; lia)) as HA.
  pose proof (get_range first_word_dst_op_addr w ltac:(split; simpl; lia)) as HD.
  pose proof (get_range first_word_op_code w ltac:(split; simpl; lia)) as HO.
  pose proof (get_range first_word_src_op_addr w ltac:(split; simpl; lia)) as HS.
  simpl bf_width in HA, HD, HO, HS.
  set (A := get first_word_ARE w) in *. set (D := get first_word_dst_op_addr w) in *.
  set (O := get first_word_op_code w) in *. set (S := get first_word_src_op_addr w) in *.
  change (Z.land A 3) with (Z.land A (Z.ones 2)). change (Z.land D 7) with (Z.land D (Z.ones 3)).
  change (Z.land O 15) with (Z.land O (Z.ones 4)). change (Z.land S 7) with (Z.land S (Z.ones 3)).
  rewrite !land_ones_small by lia. rewrite !Z.shiftl_mul_pow2 by lia.
  rewrite (lor_aligned (A * 2 ^ 10) (D * 2 ^ 7) 10) by (simpl in *; Z.div_mod_to_equations; lia).
  rewrite (lor_aligned _ (O * 2 ^ 3) 7) by (simpl in *; Z.div_mod_to_equations; lia).
  rewrite (lor_aligned _ S 3) by (simpl in *; Z.div_mod_to_equations; lia).
  change 4095 with (Z.ones 12). rewrite land_ones_small by (simpl in *; lia). reflexivity.
Qed.

(** ** Label operands *)

(** A word flagged [isLabel] packs to 0, whatever the table holds. *)
Lemma convertToBinary_label w tbl : isLabel w = true -> (convertToBinary w tbl).1.1 = 0.
Proof. intros H. unfold convertToBinary. rewrite H. now destruct (findLabel _ _). Qed.

(** C34: An instruction with one label operand ([jmp L], [prn L], ...) is
    accepted and advances [IC] by one, but its label word is written at
    [IC], over the instruction's first word: the word at [IC] is flagged
    [isLabel], and [convertToBinary] packs it to 0 whatever the label
    table, so neither the opcode nor the label's address reaches the
    object file; the first-word fields go to the word before, [IC - 1]. *)
Theorem label_operand_packs_zero token img IC DC l tbl :
  one_of (findOpcode token) [4; 5; 7; 8; 9; 10; 11; 12; 13] = true ->
  label_word l = true -> IC + 1 + DC < MAX_MEMORY_SPACE ->
  exists img', parseOneOperand (" "%char :: l ++ ["010"%char]) token img IC DC
               = Ok (mkEnc true img' (IC + 1) []) /\
    (convertToBinary (img' IC) tbl).1.1 = 0 /\
    wordType (img' (IC - 1)) = FIRST_WORD_TYPE /\ get first_word_dst_op_addr (img' (IC - 1)) = 3.
Proof.
  intros Hop Hl Hb. destruct (label_operand_run token img IC DC l Hop Hl Hb) as (img' & H & HL & _ & H1 & H2).
  exists img'. repeat split; [exact H|apply convertToBinary_label, HL|exact H1|exact H2].
Qed.

(** ** Examples *)

Lemma obj_line_shows_half_index_witness :
  nth_error (codeImageBinary (convertArrays obj_example_image blank_image [] 3 0)) 1 =
    Some (fst (fst (convertToBinary first_word_example []))) /\
  obj_line (codeImage64 (convertArrays obj_example_image blank_image [] 3 0)) 0 (2 * Z.of_nat 1) =
  dec (2 * Z.of_nat 1) ++ lit ":	 " ++ binaryToBase64 (fst (fst (convertToBinary first_word_example [])))
  ++ concat (map binaryToBase64 (skipn 2 (codeImageBinary (convertArrays obj_example_image blank_image [] 3 0))))
  ++ lit "
".
Proof.
  assert (H : nth_error (codeImageBinary (convertArrays obj_example_image blank_image [] 3 0)) 1 =
                Some (fst (fst (convertToBinary first_word_example [])))) by (vm_compute; reflexivity).
  split; [exact H|]. exact (obj_line_shows_half_index _ _ _ _ _ _ _ H).
Defined.

Lemma first_word_packing_witness :
  convertToBinary first_word_example [] =
  (get first_word_ARE first_word_example * 2 ^ 10 + get first_word_dst_op_addr first_word_example * 2 ^ 7
   + get first_word_op_code first_word_example * 2 ^ 3 + get first_word_src_op_addr first_word_example, [], []).
Proof. apply first_word_packing; reflexivity. Defined.

Lemma image64_length_witness :
  0 <= 512 /\ 0 <= 0 /\
  Z.of_nat (length (codeImage64 (convertArrays blank_image blank_image [] 512 0))) = 2 * 512 /\
  Z.of_nat (length (dataImage64 (convertArrays blank_image blank_image [] 512 0))) = 2 * 0 /\
  ~ in_array (2 * 512).
Proof.
  split; [lia|]. split; [lia|]. split; [|split; [|unfold in_array, MAX_MEMORY_SPACE; lia]];
    apply (image64_length blank_image blank_image [] 512 0); lia.
Defined.

(** [jmp L] at [IC = 1] on a blank image. *)
Lemma label_operand_packs_zero_witness :
  exists img', parseOneOperand (" "%char :: lit "L" ++ ["010"%char]) (mkToken ONE_OPERAND (lit "jmp" ++ [NUL]))
                 blank_image 1 0 = Ok (mkEnc true img' (1 + 1) []) /\
    (convertToBinary (img' 1) []).1.1 = 0 /\
    wordType (img' (1 - 1)) = FIRST_WORD_TYPE /\ get first_word_dst_op_addr (img' (1 - 1)) = 3.
Proof.
  apply (label_operand_packs_zero (mkToken ONE_OPERAND (lit "jmp" ++ [NUL])) blank_image 1 0 (lit "L") []);
    [vm_compute; reflexivity | vm_compute; reflexivity | unfold MAX_MEMORY_SPACE; lia].
Defined.

End Serializer.
