(* ===== verification/Driver.v ===== *)
(** * The driver: [main] and [generateIntermediateFileName] (src/main.c)

    [main] takes the file names of its command line in order.  A name that
    does not end in [".as"] is skipped with a message.  For the others it
    expands the macros of the source into an [".am"] file
    ([processSourceFile], with a fresh macro table), reads that file back
    with [fgets] and assembles it line by line ([parseLine]), prints the
    names of the label table and, when no line failed, writes the output
    files with [writeFiles("output.am", ...)].  The images, the label table
    and [IC]/[DC] are locals of [main] that are set once, before the loop.

    The model makes the effects explicit: a [world] holds the files (an
    association list, the latest write first) and the text written to the
    standard output; [process_file] is one turn of the loop of [main] and
    returns either the next state or how [main] ends ([main_result]).  The
    indeterminate values the code reads (the uninitialised buffers of
    [processSourceFile], the arrays of [main], the values [parseLine] reads
    through [ind]) are fields of a [main_env]. *)

From Stdlib Require Import ZArith List Ascii String Lia.
From stdpp Require Import base decidable relations strings.
From S2P Require Import Prelude CLib Machine Labels Directives Preprocessor Parser Serializer.
Import ListNotations.
Open Scope Z_scope.

Module Driver.
Import Labels Preprocessor Parser Serializer.

(** ** The world outside the process *)

Definition fs := list (cstr * cstr).

(** [fopen(name, "r")] followed by reading to the end: the latest contents
    written under the name, [None] when there is no such file. *)
Fixpoint fs_read (f : fs) (n : cstr) : option cstr :=
  match f with
  | [] => None
  | (m, t) :: r => if streq m n then Some t else fs_read r n
  end.

(** [fopen(name, "w")] and the writes up to [fclose]. *)
Definition fs_write (f : fs) (n t : cstr) : fs := (c_str n, t) :: f.

Record world := mkWorld { files : fs; stdout : cstr }.

Definition print (w : world) (s : cstr) : world := mkWorld (files w) (stdout w ++ s).

(** The values [main] reads without having written them. *)
Record main_env := mkEnv {
  pp_macroName0 : nat -> cstr;      (** [macroName] of [processSourceFile], per file *)
  pp_trimmedLine0 : nat -> cstr;    (** [trimmedLine] of [processSourceFile], per file *)
  line_ind : nat -> Z -> indet;     (** what line [n] of file [k] reads through [ind] *)
  codeImage0 : image;               (** [codeImage] of [main] *)
  dataImage0 : image                (** [dataImage] of [main] *)
}.

(** How [main] ends: [return code], [exit(status)] from [parseLine], or
    undefined behaviour. *)
Inductive main_result :=
| Returned (code : Z) (w : world)
| Exited (status : Z) (w : world)
| Undefined
| NoFuel.

(** ** Diagnostics: [printError] and [printWarning] (src/parser.c) *)

Definition ESC : ascii := ascii_of_nat 27.

(** [printf("\033[1;31mERROR\033[0m - \033[1;34mline #%d\033[0m:  %s.\n", lineNumber, error)] *)
Definition printError (error : cstr) (lineNumber : Z) : cstr :=
  ESC :: lit "[1;31mERROR" ++ ESC :: lit "[0m - " ++ ESC :: lit "[1;34mline #" ++ dec lineNumber
  ++ ESC :: lit "[0m:  " ++ c_str error ++ lit "." ++ [nl].

(** [printf("\033[1;33mWARNING\033[0m - \033[1;32mline #%d\033[0m: %s.\n", lineNumber, warning)] *)
Definition printWarning (warning : cstr) (lineNumber : Z) : cstr :=
  ESC :: lit "[1;33mWARNING" ++ ESC :: lit "[0m - " ++ ESC :: lit "[1;32mline #" ++ dec lineNumber
  ++ ESC :: lit "[0m: " ++ c_str warning ++ lit "." ++ [nl].

(** ** [generateIntermediateFileName] *)

(** [strrchr(s, '.')] and [*fileExtension = '\0']: the name up to its last
    dot, or the whole name when it has none. *)
Definition strip_extension (s : cstr) : cstr :=
  let r := rev s in
  let dot := length (cut_at "."%char r) in
  if (dot =? length r)%nat then s else firstn (length s - S dot) s.

(** [strcpy] into the static buffer of [MAX_FILE_NAME_LENGTH] bytes, the cut
    at the last dot and [strcat(..., ".am")]; [None] where a copy writes
    past the buffer. *)
Definition generateIntermediateFileName (fileName : cstr) : option cstr :=
  let s := c_str fileName in
  if negb (Z.of_nat (length s) <? MAX_FILE_NAME_LENGTH) then None
  else
    let base := strip_extension s in
    if negb (Z.of_nat (length base) + 3 <? MAX_FILE_NAME_LENGTH) then None
    else Some (base ++ lit ".am").

(** ** One turn of the loop of [main] *)

(** [strlen(fileName) > 3 && strcmp(fileName + strlen(fileName) - 3, ".as") == 0] *)
Definition has_as_extension (fileName : cstr) : bool :=
  let s := c_str fileName in
  (3 <? length s)%nat && streq (skipn (length s - 3) s) (lit ".as").

Definition skipping_message (fileName : cstr) : cstr :=
  lit "Skipping file '" ++ c_str fileName ++ lit "' as it does not have the '.as' extension." ++ [nl].

Definition processing_message (fileName : cstr) : cstr :=
  lit "Processing file: " ++ c_str fileName ++ [nl].

(** The call of [processSourceFile]: the source is opened for reading and
    the output for writing, so a missing source leaves an empty output. *)
Definition run_preprocessor (E : main_env) (k : nat) (fileName am : cstr) (w : world)
    : option world :=
  match fs_read (files w) fileName with
  | None => Some (print (mkWorld (fs_write (files w) am []) (stdout w)) (lit "Error opening files." ++ [nl]))
  | Some src =>
      r ← processSourceFile (pp_macroName0 E k) (pp_trimmedLine0 E k) src initializeMacroTable;
      Some (mkWorld (fs_write (files w) am (fst r)) (stdout w))
  end.

(** The loop [while (head != NULL) printf("%s\n", head->name)]. *)
Definition print_labels (tbl : label_table) : cstr :=
  concat (map (fun l => c_str (lname l) ++ [nl]) tbl).

(** The three files [writeFiles] creates. *)
Definition write_outputs (w : world) (o : output_files) : world :=
  mkWorld (fs_write (fs_write (fs_write (files w) (obj_name o) (obj_text o))
                              (ext_name o) (ext_text o)) (ent_name o) (ent_text o)) (stdout w).

(** Lines 75-97: the lines of the [.am] file assembled, the labels printed
    and the output written when no line failed. *)
Definition finish_file (E : main_env) (k : nat) (text : cstr) (st : asm_state) (w : world)
    : main_result + (asm_state * world) :=
  match assembleFile (line_ind E k) text st with
  | Exit s => inl (Exited s w)
  | OutOfFuel => inl NoFuel
  | Ok (ERROR_FOUND, st') =>
      let w := print w (print_labels (labelTable st')) in
      if ERROR_FOUND then inr (st', w)
      else match writeFiles (lit "output.am") st' with
           | Some o => inr (st', write_outputs w o)
           | None => inr (st', w)
           end
  end.

(** Lines 67-72: the [.am] file opened for reading; [main] returns 1 when
    it cannot be opened. *)
Definition assemble_intermediate (E : main_env) (k : nat) (am : cstr) (st : asm_state)
    (w : world) : main_result + (asm_state * world) :=
  match fs_read (files w) am with
  | None => inl (Returned 1 w)
  | Some text => finish_file E k text st w
  end.

(** The body of [for (i = 1; i < argc; i++)] for [argv[k]]. *)
Definition process_file (E : main_env) (k : nat) (fileName : cstr) (st : asm_state)
    (w : world) : main_result + (asm_state * world) :=
  if negb (has_as_extension fileName) then inr (st, print w (skipping_message fileName))
  else
    let w := print w (processing_message fileName) in
    match generateIntermediateFileName fileName with
    | None => inl Undefined
    | Some am =>
        match run_preprocessor E k fileName am w with
        | None => inl Undefined
        | Some w => assemble_intermediate E k am st w
        end
    end.

Fixpoint main_loop (E : main_env) (k : nat) (args : list cstr) (st : asm_state) (w : world)
    : main_result :=
  match args with
  | [] => Returned 0 w
  | fileName :: rest =>
      match process_file E k fileName st w with
      | inl r => r
      | inr (st', w') => main_loop E (S k) rest st' w'
      end
  end.

(** The state [main] sets before its loop. *)
Definition main_init (E : main_env) : asm_state :=
  mkState (codeImage0 E) (dataImage0 E) createLabelTable 0 0.

Definition main (E : main_env) (argv : list cstr) (w : world) : main_result :=
  match argv with
  | [] | [_] => Returned 1 (print w (printError (lit "Error - no files in command line.") 0))
  | _ :: args => main_loop E 1 args (main_init E) w
  end.

(** ** The loop of [main] as a step relation

    A configuration is the index of the next argument, the arguments left,
    the locals of [main] and the world; a step is a turn of the loop that
    does not end [main]. *)
Definition config : Type := nat * list cstr * asm_state * world.

Inductive loop_step (E : main_env) : config -> config -> Prop :=
| loop_next k f rest st w st' w' :
    process_file E k f st w = inr (st', w') ->
    loop_step E (k, f :: rest, st, w) (S k, rest, st', w').

(** ** Sample inputs *)

(** Buffers that are empty, blank arrays and indeterminate values that
    never match. *)
Definition env0 : main_env :=
  mkEnv (fun _ => []) (fun _ => []) (fun _ _ => ex_indet) blank_image blank_image.

(** A world holding the source [prog.as] made of [sample_items]. *)
Definition world0 : world := mkWorld [(lit "prog.as", render sample_items)] [].

(** ** Files *)

Lemma streq_c_str n : no_nul n = true -> streq (c_str n) n = true.
Proof. intros H. unfold streq. rewrite c_str_idem. now apply bool_decide_eq_true. Qed.

Lemma fs_read_write_same f n t : no_nul n = true -> fs_read (fs_write f n t) n = Some t.
Proof. intros H. simpl. now rewrite streq_c_str. Qed.

Lemma fs_read_write_other f n m t : streq n m = false -> fs_read (fs_write f n t) m = fs_read f m.
Proof.
  intros H. simpl. unfold streq in *. rewrite c_str_idem. now rewrite H.
Qed.

#[local] Hint Rewrite fs_read_write_same fs_read_write_other using (assumption || reflexivity) : asm.

(** ** File names *)

Lemma c_str_as base : no_nul base = true -> c_str (base ++ lit ".as") = base ++ lit ".as".
Proof. intros H. apply c_str_forallb. change (no_nul (base ++ lit ".as") = true). now rewrite no_nul_app, H. Qed.

(** [strrchr] finds the dot before an extension without dots. *)
Lemma strip_extension_last_dot base ext :
  ~ In "."%char ext -> strip_extension (base ++ "."%char :: ext) = base.
Proof.
  intros H. unfold strip_extension. rewrite rev_app_distr. cbn [rev]. rewrite <- app_assoc.
  cbn [app]. rewrite cut_at_app by (now rewrite <- in_rev).
  rewrite !length_app, !length_rev. cbn [length].
  match goal with |- context [(?a =? ?b)%nat] => destruct (Nat.eqb_spec a b); [lia|] end.
  match goal with |- take ?n _ = _ => replace n with (length base) by lia end.
  apply take_app_length.
Qed.

(** A name without a dot is kept whole. *)
Lemma strip_extension_no_dot s : ~ In "."%char s -> strip_extension s = s.
Proof.
  intros H. unfold strip_extension. rewrite cut_at_absent by (now rewrite <- in_rev).
  now rewrite Nat.eqb_refl.
Qed.

Lemma strip_extension_as base :
  no_nul base = true -> strip_extension (base ++ lit ".as") = base.
Proof. intros _. apply strip_extension_last_dot. simpl. intuition discriminate. Qed.

Lemma has_as_extension_as base :
  no_nul base = true -> base <> [] -> has_as_extension (base ++ lit ".as") = true.
Proof.
  intros H Hne. assert (length base <> 0)%nat by (now rewrite length_zero_iff_nil). unfold has_as_extension. rewrite c_str_as by exact H. rewrite length_app. simpl length.
  replace (length base + 3 - 3)%nat with (length base) by lia. rewrite drop_app_length.
  apply andb_true_intro. split; [apply Nat.ltb_lt; lia|reflexivity].
Qed.

Lemma generateIntermediateFileName_as base :
  no_nul base = true -> Z.of_nat (length base) + 3 < MAX_FILE_NAME_LENGTH ->
  generateIntermediateFileName (base ++ lit ".as") = Some (base ++ lit ".am").
Proof.
  intros H Hl. unfold generateIntermediateFileName. rewrite c_str_as, strip_extension_as by exact H.
  rewrite length_app. simpl length. rewrite (proj2 (Z.ltb_lt _ _)) by lia.
  rewrite (proj2 (Z.ltb_lt _ _)) by lia. reflexivity.
Qed.

(** ** One turn of the loop *)

Lemma print_files w s : files (print w s) = files w.
Proof. reflexivity. Qed.

Lemma run_preprocessor_expands E k f am w items :
  fs_read (files w) f = Some (render items) -> wf_items [] items = true ->
  run_preprocessor E k f am w = Some (mkWorld (fs_write (files w) am (expand [] items)) (stdout w)).
Proof.
  intros Hr Hwf. unfold run_preprocessor. rewrite Hr.
  destruct (processSourceFile_expands (pp_macroName0 E k) (pp_trimmedLine0 E k) items Hwf) as [t ->].
  reflexivity.
Qed.

Lemma finish_file_terminates E k text st w : finish_file E k text st w <> inl NoFuel.
Proof.
  unfold finish_file. pose proof (assembleFile_total (line_ind E k) text st) as Ht.
  destruct (assembleFile _ text st) as [[e st']| |]; [|discriminate|contradiction].
  destruct e; [discriminate|]. destruct (writeFiles _ _); discriminate.
Qed.

Lemma process_file_terminates E k f st w : process_file E k f st w <> inl NoFuel.
Proof.
  unfold process_file. case_if; [discriminate|].
  destruct (generateIntermediateFileName f) as [am|]; [|discriminate].
  destruct (run_preprocessor _ _ _ _ _) as [w'|]; [|discriminate].
  unfold assemble_intermediate. destruct (fs_read _ _); [apply finish_file_terminates|discriminate].
Qed.

Lemma finish_file_extends E k text st w st' w' :
  finish_file E k text st w = inr (st', w') -> extends (labelTable st') (labelTable st).
Proof.
  unfold finish_file. destruct (assembleFile _ text st) as [[e st1]| |] eqn:Ha; try discriminate.
  intros H. assert (st1 = st') as <-.
  { destruct e; [congruence|]. destruct (writeFiles _ _); congruence. }
  exact (parseLines_extends _ _ _ _ _ _ _ Ha).
Qed.

Lemma process_file_extends E k f st w st' w' :
  process_file E k f st w = inr (st', w') -> extends (labelTable st') (labelTable st).
Proof.
  unfold process_file. case_if; [intros [= <- _]; apply extends_refl|].
  destruct (generateIntermediateFileName f) as [am|]; [|discriminate].
  destruct (run_preprocessor _ _ _ _ _) as [w1|]; [|discriminate].
  unfold assemble_intermediate. destruct (fs_read _ _); [apply finish_file_extends|discriminate].
Qed.

(** A turn that ends [main] does not return 0. *)
Lemma process_file_not_zero E k f st w w' : process_file E k f st w <> inl (Returned 0 w').
Proof.
  unfold process_file. case_if; [discriminate|].
  destruct (generateIntermediateFileName f) as [am|]; [|discriminate].
  destruct (run_preprocessor _ _ _ _ _) as [w1|]; [|discriminate].
  unfold assemble_intermediate, finish_file. destruct (fs_read _ _); [|discriminate].
  destruct (assembleFile _ _ _) as [[[] st']| |]; try discriminate.
  destruct (writeFiles _ _); discriminate.
Qed.

(** [main_loop] returns 0 exactly after a run of [loop_step] that uses up
    the arguments. *)
Lemma main_loop_steps E k args st w w' :
  main_loop E k args st w = Returned 0 w' ->
  exists k' st', rtc (loop_step E) (k, args, st, w) (k', [], st', w').
Proof.
  revert k st w. induction args as [|f rest IH]; intros k st w H; simpl in H.
  - injection H as <-. exists k, st. apply rtc_refl.
  - destruct (process_file E k f st w) as [r|[st1 w1]] eqn:Hp.
    + subst r. exfalso. exact (process_file_not_zero _ _ _ _ _ _ Hp).
    + destruct (IH _ _ _ H) as (k' & st' & Hs). exists k', st'.
      eapply rtc_l; [constructor; exact Hp|exact Hs].
Qed.

Lemma fs_read_write f m t n : fs_read (fs_write f m t) n = if streq m n then Some t else fs_read f n.
Proof. unfold fs_write. simpl. unfold streq. now rewrite c_str_idem. Qed.

Lemma strip_extension_prefix s : exists r, s = strip_extension s ++ r.
Proof.
  unfold strip_extension. destruct (_ =? _)%nat; [exists []; now rewrite app_nil_r|].
  eexists. symmetry. apply firstn_skipn.
Qed.

Lemma writeFiles_output st :
  exists o, writeFiles (lit "output.am") st = Some o /\ obj_name o = lit "output.obj" /\
    ext_name o = lit "output.ext" /\ ent_name o = lit "output.ent".
Proof.
  unfold writeFiles. replace (generateOutputFileNames (lit "output.am"))
    with (Some (lit "output.ent", lit "output.ext", lit "output.obj")) by reflexivity.
  destruct (writeLabelFiles _) as [e2 x2]. eexists. repeat split.
Qed.

(** Assembling an empty file changes nothing and finds no error. *)
Lemma assembleFile_empty ind st : assembleFile ind [] st = Ok (false, st).
Proof. reflexivity. Qed.

Lemma run_preprocessor_files E k f am w w1 :
  run_preprocessor E k f am w = Some w1 -> exists t, files w1 = fs_write (files w) am t.
Proof.
  unfold run_preprocessor. destruct (fs_read _ f); [|intros [= <-]; eauto].
  destruct (processSourceFile _ _ _ _); simpl; [intros [= <-]; eauto|discriminate].
Qed.

Lemma finish_file_writes E k text st w st' w' n :
  finish_file E k text st w = inr (st', w') -> fs_read (files w') n <> fs_read (files w) n ->
  existsb (fun m => streq m n) [lit "output.obj"; lit "output.ext"; lit "output.ent"] = true.
Proof.
  unfold finish_file. destruct (assembleFile _ _ _) as [[[] st1]| |]; try discriminate.
  - intros [= <- <-]. simpl. congruence.
  - destruct (writeFiles_output st1) as (o & -> & Hobj & Hext & Hent). intros [= <- <-].
    unfold write_outputs. cbn [files print]. rewrite !fs_read_write, Hobj, Hext, Hent.
    unfold lit; cbn [list_ascii_of_string existsb].
    repeat match goal with |- context [streq ?m n] => destruct (streq m n) end; simpl; congruence.
Qed.

Lemma main_loop_terminates E k args st w : main_loop E k args st w <> NoFuel.
Proof.
  revert k st w. induction args as [|f rest IH]; intros k st w; simpl; [discriminate|].
  destruct (process_file E k f st w) as [r|[st' w']] eqn:Hp; [|apply IH].
  intros ->. exact (process_file_terminates _ _ _ _ _ Hp).
Qed.

Lemma rtc_loop_extends E c c' :
  rtc (loop_step E) c c' -> extends (labelTable c'.1.2) (labelTable c.1.2).
Proof.
  induction 1 as [c|c1 c2 c3 Hs _ IH]; [apply extends_refl|].
  inversion Hs as [k f rest st w st' w' Hp]; subst. simpl in *.
  eauto using extends_trans, process_file_extends.
Qed.

(** A turn on a source [base.as] that follows the contract of the
    preprocessor assembles the expansion, written first to [base.am]. *)
Lemma process_file_source E k base items st w :
  no_nul base = true -> base <> [] -> Z.of_nat (length base) + 3 < MAX_FILE_NAME_LENGTH ->
  fs_read (files w) (base ++ lit ".as") = Some (render items) -> wf_items [] items = true ->
  process_file E k (base ++ lit ".as") st w =
  finish_file E k (expand [] items) st
    (mkWorld (fs_write (files w) (base ++ lit ".am") (expand [] items))
             (stdout w ++ processing_message (base ++ lit ".as"))).
Proof.
  intros Hn Hne Hl Hr Hwf. unfold process_file.
  rewrite has_as_extension_as, generateIntermediateFileName_as by assumption. cbn [negb].
  rewrite (run_preprocessor_expands E k _ _ _ items) by assumption.
  unfold assemble_intermediate. cbn [files].
  rewrite fs_read_write_same by (rewrite no_nul_app, Hn; reflexivity). reflexivity.
Qed.

(** C24: [main] never runs out of fuel: every line of every file is handled
    to its end, so [main] returns, exits or meets undefined behaviour. *)
Theorem main_terminates E argv w : main E argv w <> NoFuel.
Proof. unfold main. destruct argv as [|a [|b r]]; try discriminate. apply main_loop_terminates. Qed.

(** C25: Nothing of the label table is ever reset between files: along any
    run of the loop of [main], the table of a later turn is the table of
    an earlier turn with labels added at its head. *)
Theorem labels_persist_across_files E k args st w k' args' st' w' :
  rtc (loop_step E) (k, args, st, w) (k', args', st', w') ->
  extends (labelTable st') (labelTable st).
Proof. apply rtc_loop_extends. Qed.

(** C26: A missing source file does not stop [main]: [processSourceFile]
    has already created the [.am] file, empty, and assembling it finds no
    error, so the output files are written again from the state left by the
    earlier files. *)
Theorem missing_source_rewrites_outputs E k f st w am :
  has_as_extension f = true -> generateIntermediateFileName f = Some am ->
  fs_read (files w) f = None ->
  exists o w', writeFiles (lit "output.am") st = Some o /\
    process_file E k f st w = inr (st, w') /\
    fs_read (files w') (lit "output.obj") = Some (obj_text o).
Proof.
  intros Ha Hg Hr. destruct (writeFiles_output st) as (o & Ho & Hobj & Hext & Hent).
  unfold process_file. rewrite Ha, Hg. cbn [negb]. unfold run_preprocessor. cbn [print files]. rewrite Hr.
  unfold assemble_intermediate. cbn [files print]. rewrite fs_read_write, streq_refl.
  unfold finish_file. rewrite assembleFile_empty, Ho. eexists o, _. split; [reflexivity|].
  split; [reflexivity|]. unfold write_outputs. cbn [files print].
  rewrite !fs_read_write, Hobj, Hext, Hent. reflexivity.
Qed.

(** C27: [generateIntermediateFileName] cuts the name at its last dot, so
    that the extension, and only the extension, is replaced by [".am"]
    (["a.b.as"] gives ["a.b.am"]), and appends [".am"] to a name without
    a dot.  Its [strcpy] and [strcat] write past the static buffer of
    [MAX_FILE_NAME_LENGTH] (76) bytes, undefined behaviour, exactly when
    the name, or the cut name with [".am"], has 76 characters or more. *)
Theorem generateIntermediateFileName_last_dot base ext :
  no_nul base = true -> no_nul ext = true -> ~ In "."%char ext ->
  generateIntermediateFileName (base ++ "."%char :: ext) =
    (if (Z.of_nat (length base + S (length ext)) <? MAX_FILE_NAME_LENGTH) &&
        (Z.of_nat (length base) + 3 <? MAX_FILE_NAME_LENGTH)
     then Some (base ++ lit ".am") else None) /\
  (~ In "."%char base ->
   generateIntermediateFileName base =
     if Z.of_nat (length base) + 3 <? MAX_FILE_NAME_LENGTH then Some (base ++ lit ".am") else None).
Proof.
  intros Hb He Hd. unfold generateIntermediateFileName. split.
  - rewrite c_str_forallb by (change (no_nul (base ++ "."%char :: ext) = true);
                              rewrite no_nul_app, Hb; exact He).
    rewrite strip_extension_last_dot by exact Hd. rewrite length_app. cbn [length].
    destruct (Z.of_nat (length base + S (length ext)) <? MAX_FILE_NAME_LENGTH);
      destruct (Z.of_nat (length base) + 3 <? MAX_FILE_NAME_LENGTH); reflexivity.
  - intros Hbd. rewrite c_str_forallb by exact Hb. rewrite strip_extension_no_dot by exact Hbd.
    destruct (Z.ltb_spec (Z.of_nat (length base) + 3) MAX_FILE_NAME_LENGTH); cbn [negb].
    + now rewrite (proj2 (Z.ltb_lt _ _)) by lia.
    + now destruct (_ <? _).
Qed.

(** C28: A turn of the loop of [main] writes no file but the [.am] file of
    its argument and [output.obj], [output.ext] and [output.ent]: the names
    of the output files never depend on the input file. *)
Theorem process_file_writes_only E k f st w st' w' n :
  process_file E k f st w = inr (st', w') ->
  fs_read (files w') n <> fs_read (files w) n ->
  (exists am, generateIntermediateFileName f = Some am /\ streq am n = true) \/
  existsb (fun m => streq m n) [lit "output.obj"; lit "output.ext"; lit "output.ent"] = true.
Proof.
  unfold process_file. case_if; [intros [= <- <-]; tauto|].
  destruct (generateIntermediateFileName f) as [am|]; [|discriminate].
  destruct (run_preprocessor _ _ _ _ _) as [w1|] eqn:Hp; [|discriminate].
  destruct (run_preprocessor_files _ _ _ _ _ _ Hp) as [t Ht].
  unfold assemble_intermediate. destruct (fs_read _ _) as [text|]; [|discriminate].
  intros Hf Hn. destruct (decide (fs_read (files w1) n = fs_read (files w) n)) as [E1|E1].
  - right. apply (finish_file_writes _ _ _ _ _ _ _ n Hf). congruence.
  - left. exists am. split; [reflexivity|]. rewrite Ht, fs_read_write in E1.
    destruct (streq am n); [reflexivity|contradiction].
Qed.

Lemma labels_persist_across_files_witness :
  exists st' w', rtc (loop_step env0) (1%nat, [lit "prog.as"], main_init env0, world0) (2%nat, [], st', w') /\
    extends (labelTable st') (labelTable (main_init env0)).
Proof.
  destruct (process_file env0 1 (lit "prog.as") (main_init env0) world0) as [r|[st' w']] eqn:Hp;
    [vm_compute in Hp; discriminate|].
  assert (H : rtc (loop_step env0) (1%nat, [lit "prog.as"], main_init env0, world0) (2%nat, [], st', w'))
    by (apply rtc_once; constructor; exact Hp).
  exists st', w'. split; [exact H|]. exact (labels_persist_across_files _ _ _ _ _ _ _ _ _ H).
Defined.

Lemma missing_source_rewrites_outputs_witness :
  exists o w', writeFiles (lit "output.am") (main_init env0) = Some o /\
    process_file env0 1 (lit "missing.as") (main_init env0) world0 = inr (main_init env0, w') /\
    fs_read (files w') (lit "output.obj") = Some (obj_text o).
Proof.
  apply (missing_source_rewrites_outputs env0 1 (lit "missing.as") (main_init env0) world0 (lit "missing.am"));
    reflexivity.
Defined.

Lemma process_file_writes_only_witness :
  exists st' w', process_file env0 1 (lit "prog.as") (main_init env0) world0 = inr (st', w') /\
    fs_read (files w') (lit "output.obj") <> fs_read (files world0) (lit "output.obj") /\
    ((exists am, generateIntermediateFileName (lit "prog.as") = Some am /\ streq am (lit "output.obj") = true) \/
     existsb (fun m => streq m (lit "output.obj")) [lit "output.obj"; lit "output.ext"; lit "output.ent"] = true).
Proof.
  destruct (process_file env0 1 (lit "prog.as") (main_init env0) world0) as [r|[st' w']] eqn:Hp;
    [vm_compute in Hp; discriminate|].
  assert (Hn : fs_read (files w') (lit "output.obj") <> fs_read (files world0) (lit "output.obj")).
  { revert Hp. vm_compute. intros [= <- <-]. discriminate. }
  exists st', w'. split; [reflexivity|]. split; [exact Hn|].
  exact (process_file_writes_only _ _ _ _ _ _ _ _ Hp Hn).
Defined.

(** ["a.b.as"] gives ["a.b.am"], and ["prog"] gives ["prog.am"]. *)
Lemma generateIntermediateFileName_last_dot_witness :
  no_nul (lit "a.b") = true /\ no_nul (lit "as") = true /\ ~ In "."%char (lit "as") /\
  generateIntermediateFileName (lit "a.b" ++ "."%char :: lit "as") = Some (lit "a.b.am") /\
  ~ In "."%char (lit "prog") /\ generateIntermediateFileName (lit "prog") = Some (lit "prog.am").
Proof.
  assert (Hd : ~ In "."%char (lit "as")) by (cbv; intuition discriminate).
  assert (Hp : ~ In "."%char (lit "prog")) by (cbv; intuition discriminate).
  destruct (generateIntermediateFileName_last_dot (lit "a.b") (lit "as") eq_refl eq_refl Hd) as [H1 _].
  destruct (generateIntermediateFileName_last_dot (lit "prog") (lit "as") eq_refl eq_refl Hd) as [_ H2].
  split; [reflexivity|]. split; [reflexivity|]. split; [exact Hd|]. split; [rewrite H1; reflexivity|].
  split; [exact Hp|]. rewrite (H2 Hp). reflexivity.
Defined.

End Driver.
