(* ===== verification/Runs.v ===== *)
(** * Runs of the loop of [main] (src/main.c)

    The loop of [main] is the step relation [loop_step] of [Driver]: a
    configuration is the index of the next argument, the arguments left,
    the locals of [main] and the world.  This file shows that a
    run which returns 0 has printed, in order, the message of every
    argument, and that on several source files that follow the contract of
    the preprocessor [main] assembles their expansions one after the
    other, each from the state the previous file left; a file with a
    failing line writes no output file, and an [exit] ends [main]. *)

From Stdlib Require Import ZArith List Ascii String Lia.
From stdpp Require Import base decidable relations strings.
From S2P Require Import Prelude CLib Machine Labels Directives Preprocessor Parser Serializer Driver.
Import ListNotations.
Open Scope Z_scope.

Module Runs.
Import Preprocessor Parser Serializer Driver.

(** ** Messages, sources and sample files *)

(** The message [main] prints for [argv[i]] before anything else of the
    turn (lines 54-58). *)
Definition handled_message (fileName : cstr) : cstr :=
  if has_as_extension fileName then processing_message fileName else skipping_message fileName.

(** ** Several sources of the contract

    The specification of a run over source files [base.as] that follow the
    contract of the preprocessor: each file's macro expansion is written to
    [base.am] and assembled, in the order of the command line, from the
    state the previous file left. *)

Definition source_ok (w : world) (s : cstr * list item) : Prop :=
  no_nul s.1 = true /\ s.1 <> [] /\ Z.of_nat (length s.1) + 3 < MAX_FILE_NAME_LENGTH /\
  fs_read (files w) (s.1 ++ lit ".as") = Some (render s.2) /\ wf_items [] s.2 = true.

Fixpoint assemble_sources (E : main_env) (k : nat) (srcs : list (cstr * list item))
    (st : asm_state) (w : world) : main_result :=
  match srcs with
  | [] => Returned 0 w
  | (base, items) :: rest =>
      match finish_file E k (expand [] items) st
              (mkWorld (fs_write (files w) (base ++ lit ".am") (expand [] items))
                       (stdout w ++ processing_message (base ++ lit ".as"))) with
      | inl r => r
      | inr (st', w') => assemble_sources E (S k) rest st' w'
      end
  end.

(** ** Sample sources *)

(** A line on which the lexer calls [exit(1)] ([#] starts no token), and a
    line that fails ([mov] with one operand). *)
Definition exiting_items : list item := [Plain (lit "mov #5, r1")].
Definition failing_items : list item := [Plain (lit "mov @r1")].

Definition world_errors : world :=
  mkWorld [(lit "bad.as", render exiting_items); (lit "fail.as", render failing_items);
           (lit "prog.as", render sample_items)] [].

(** ** Lemmas *)

Lemma run_preprocessor_stdout E k f am w w1 :
  run_preprocessor E k f am w = Some w1 -> exists o, stdout w1 = stdout w ++ o.
Proof.
  unfold run_preprocessor. destruct (fs_read _ f); [|intros [= <-]; eauto].
  destruct (processSourceFile _ _ _ _); simpl; [intros [= <-]; exists []; symmetry; apply app_nil_r|discriminate].
Qed.

Lemma finish_file_stdout E k text st w st' w' :
  finish_file E k text st w = inr (st', w') -> exists o, stdout w' = stdout w ++ o.
Proof.
  unfold finish_file. destruct (assembleFile _ _ _) as [[[] st1]| |]; try discriminate;
    [intros [= _ <-]; eauto|].
  destruct (writeFiles _ _); intros [= _ <-]; eauto.
Qed.

(** A turn that goes on prints the message of its argument first. *)
Lemma process_file_stdout E k f st w st' w' :
  process_file E k f st w = inr (st', w') ->
  exists o, stdout w' = stdout w ++ handled_message f ++ o.
Proof.
  unfold process_file, handled_message. destruct (has_as_extension f); cbn [negb].
  2: { intros [= _ <-]. exists []. simpl. now rewrite app_nil_r. }
  destruct (generateIntermediateFileName f) as [am|]; [|discriminate].
  destruct (run_preprocessor _ _ _ _ _) as [w1|] eqn:Hp; [|discriminate].
  destruct (run_preprocessor_stdout _ _ _ _ _ _ Hp) as [o1 H1].
  unfold assemble_intermediate. destruct (fs_read _ _) as [text|]; [|discriminate].
  intros H. destruct (finish_file_stdout _ _ _ _ _ _ _ H) as [o2 H2].
  exists (o1 ++ o2). rewrite H2, H1. cbn [print stdout]. now rewrite <- !app_assoc.
Qed.

(** ** What a turn leaves of the sources *)

Lemma no_nul_skipn k l : no_nul l = true -> no_nul (skipn k l) = true.
Proof.
  revert l. induction k as [|k IH]; intros [|c l] H; try exact H.
  apply IH. cbn in H. apply andb_prop in H as [_ H]. exact H.
Qed.

Lemma has_as_suffix n : has_as_extension n = true -> exists p, c_str n = p ++ lit ".as".
Proof.
  unfold has_as_extension. intros [_ H]%andb_prop. unfold streq in H.
  apply bool_decide_eq_true in H. rewrite c_str_forallb in H by apply no_nul_skipn, c_str_no_nul_forallb.
  exists (firstn (length (c_str n) - 3) (c_str n)).
  rewrite <- (firstn_skipn (length (c_str n) - 3) (c_str n)) at 1. now rewrite H.
Qed.

Lemma snoc_neq {A} (p q : list A) (a b : A) : a <> b -> p ++ [a] <> q ++ [b].
Proof. intros Hab H. apply app_inj_tail in H as [_ ?]. congruence. Qed.

Lemma streq_am_as base n : has_as_extension n = true -> no_nul base = true ->
  streq (base ++ lit ".am") n = false.
Proof.
  intros Hn Hb. destruct (has_as_suffix n Hn) as [p Hp]. unfold streq. rewrite Hp.
  rewrite c_str_forallb by (change (no_nul (base ++ lit ".am") = true); now rewrite no_nul_app, Hb).
  apply bool_decide_eq_false. change (lit ".am") with ([".";"a"] ++ ["m"])%char.
  change (lit ".as") with ([".";"a"] ++ ["s"])%char. rewrite !app_assoc. apply snoc_neq. discriminate.
Qed.

Lemma outputs_not_as n : has_as_extension n = true ->
  existsb (fun m => streq m n) [lit "output.obj"; lit "output.ext"; lit "output.ent"] = false.
Proof.
  intros Hn. destruct (has_as_suffix n Hn) as [p Hp]. unfold streq. rewrite Hp.
  change (lit ".as") with ([".";"a"] ++ ["s"])%char. rewrite app_assoc.
  cbn [existsb]. rewrite !bool_decide_eq_false_2; [reflexivity|..].
  - change (c_str (lit "output.ent")) with (lit "output.en" ++ ["t"])%char. apply snoc_neq. discriminate.
  - change (c_str (lit "output.ext")) with (lit "output.ex" ++ ["t"])%char. apply snoc_neq. discriminate.
  - change (c_str (lit "output.obj")) with (lit "output.ob" ++ ["j"])%char. apply snoc_neq. discriminate.
Qed.

Lemma generateIntermediateFileName_am f am :
  generateIntermediateFileName f = Some am -> exists base, am = base ++ lit ".am" /\ no_nul base = true.
Proof.
  unfold generateIntermediateFileName. repeat case_if; try discriminate. intros [= <-].
  eexists. split; [reflexivity|]. destruct (strip_extension_prefix (c_str f)) as [r Hr].
  pose proof (c_str_no_nul_forallb f) as H. rewrite Hr, no_nul_app in H.
  now apply andb_prop in H as [H _].
Qed.

(** A turn writes no file whose name ends in [.as]: the sources of the
    later arguments are still there. *)
Lemma process_file_preserves_as E k f st w st' w' n :
  process_file E k f st w = inr (st', w') -> has_as_extension n = true ->
  fs_read (files w') n = fs_read (files w) n.
Proof.
  unfold process_file. case_if; [intros [= <- <-]; reflexivity|].
  destruct (generateIntermediateFileName f) as [am|] eqn:Hg; [|discriminate].
  destruct (run_preprocessor _ _ _ _ _) as [w1|] eqn:Hp; [|discriminate].
  destruct (run_preprocessor_files _ _ _ _ _ _ Hp) as [t Ht].
  unfold assemble_intermediate. destruct (fs_read _ _) as [text|]; [|discriminate].
  intros Hf Hn. destruct (generateIntermediateFileName_am _ _ Hg) as (base & -> & Hb).
  assert (H1 : fs_read (files w1) n = fs_read (files w) n)
    by (rewrite Ht, fs_read_write, streq_am_as by assumption; reflexivity).
  destruct (decide (fs_read (files w') n = fs_read (files w1) n)) as [E1|E1]; [congruence|].
  pose proof (finish_file_writes _ _ _ _ _ _ _ n Hf E1) as H. rewrite outputs_not_as in H by exact Hn.
  discriminate.
Qed.

Lemma source_ok_step E k f st w st' w' s :
  process_file E k f st w = inr (st', w') -> source_ok w s -> source_ok w' s.
Proof.
  intros Hp (Hn & Hne & Hl & Hr & Hwf). repeat split; try assumption.
  rewrite (process_file_preserves_as _ _ _ _ _ _ _ _ Hp) by now apply has_as_extension_as.
  exact Hr.
Qed.

Lemma main_loop_sources E k srcs st w :
  Forall (source_ok w) srcs ->
  main_loop E k (map (fun s => s.1 ++ lit ".as") srcs) st w = assemble_sources E k srcs st w.
Proof.
  revert k st w. induction srcs as [|[base items] rest IH]; intros k st w Hs; [reflexivity|].
  inversion Hs as [|? ? (Hn & Hne & Hl & Hr & Hwf) Hrest]; subst.
  cbn [map main_loop assemble_sources fst snd] in *.
  pose proof (process_file_source E k base items st w Hn Hne Hl Hr Hwf) as Hp. rewrite Hp.
  destruct (finish_file _ _ _ _ _) as [r|[st' w']] eqn:Hf; [reflexivity|].
  apply IH. eapply Forall_impl; [exact Hrest|]. intros s. apply source_ok_step with (1 := Hp).
Qed.

(** C35: Every argument is handled, in order: when [main] returns 0, its
    standard output is the output before it followed, for each argument in
    turn, by the message that names the argument ([Processing file] or
    [Skipping file]) and what that turn printed after it. *)
Theorem main_handles_every_argument E prog args w w' :
  main E (prog :: args) w = Returned 0 w' ->
  exists outs, length outs = length args /\
    stdout w' = stdout w ++ concat (zip_with (fun f o => handled_message f ++ o) args outs).
Proof.
  unfold main. destruct args as [|f0 args0]; [discriminate|].
  generalize 1%nat, (main_init E). generalize (f0 :: args0) as args. clear f0 args0.
  intros args. revert w. induction args as [|f rest IH]; intros w k st H; cbn [main_loop] in H.
  - injection H as <-. exists []. simpl. split; [reflexivity|]. now rewrite app_nil_r.
  - destruct (process_file E k f st w) as [r|[st1 w1]] eqn:Hp.
    + subst r. exfalso. exact (process_file_not_zero _ _ _ _ _ _ Hp).
    + destruct (IH _ _ _ H) as (outs & Hl & Ho). destruct (process_file_stdout _ _ _ _ _ _ _ Hp) as [o Hw1].
      exists (o :: outs). split; [simpl; now rewrite Hl|]. rewrite Ho, Hw1. simpl.
      now rewrite <- !app_assoc.
Qed.

(** C36: Refinement of [main] on several files: when every argument is a
    source [base.as] that follows the contract of the preprocessor, [main]
    is [assemble_sources]: each expansion is written to its [.am] file and
    assembled in the order of the command line, from the state the
    previous files left, since no turn writes a file named [.as]. *)
Theorem main_assembles_sources E prog srcs w :
  srcs <> [] -> Forall (source_ok w) srcs ->
  main E (prog :: map (fun s => s.1 ++ lit ".as") srcs) w = assemble_sources E 1 srcs (main_init E) w.
Proof.
  intros Hne Hs. unfold main. destruct srcs as [|s rest]; [congruence|].
  exact (main_loop_sources E 1 (s :: rest) (main_init E) w Hs).
Qed.

(** ** Error paths *)

(** C38: A file with a failing line writes no output file: the turn
    writes its [.am] file and prints the label names, but [writeFiles] is
    not called; its state, with the labels and words of the failing file,
    is still passed on to the next file. *)
Theorem failing_file_writes_no_output E k base items st w st' :
  no_nul base = true -> base <> [] -> Z.of_nat (length base) + 3 < MAX_FILE_NAME_LENGTH ->
  fs_read (files w) (base ++ lit ".as") = Some (render items) -> wf_items [] items = true ->
  assembleFile (line_ind E k) (expand [] items) st = Ok (true, st') ->
  process_file E k (base ++ lit ".as") st w =
  inr (st', mkWorld (fs_write (files w) (base ++ lit ".am") (expand [] items))
                    (stdout w ++ processing_message (base ++ lit ".as") ++ print_labels (labelTable st'))).
Proof.
  intros Hn Hne Hl Hr Hwf Ha. rewrite (process_file_source E k base items) by assumption.
  unfold finish_file. rewrite Ha. unfold print. cbn [files stdout]. now rewrite <- app_assoc.
Qed.

(** C39: An invalid word ends [main]: when assembling the first file calls
    [exit(status)], [main] ends with that status after the [.am] file is
    written, whatever the arguments after it; no output file is written
    and the later files are never read. *)
Theorem exit_ends_main E prog base items rest w s :
  no_nul base = true -> base <> [] -> Z.of_nat (length base) + 3 < MAX_FILE_NAME_LENGTH ->
  fs_read (files w) (base ++ lit ".as") = Some (render items) -> wf_items [] items = true ->
  assembleFile (line_ind E 1) (expand [] items) (main_init E) = Exit s ->
  main E (prog :: (base ++ lit ".as") :: rest) w =
  Exited s (mkWorld (fs_write (files w) (base ++ lit ".am") (expand [] items))
                    (stdout w ++ processing_message (base ++ lit ".as"))).
Proof.
  intros Hn Hne Hl Hr Hwf Ha. unfold main. cbn [main_loop].
  rewrite (process_file_source E 1 base items) by assumption. unfold finish_file. now rewrite Ha.
Qed.

(** ** Examples *)

Lemma main_handles_every_argument_witness :
  exists w', main env0 [lit "asm"; lit "x.txt"; lit "prog.as"] world0 = Returned 0 w' /\
    exists outs, length outs = 2%nat /\
      stdout w' = stdout world0 ++
        concat (zip_with (fun f o => handled_message f ++ o) [lit "x.txt"; lit "prog.as"] outs).
Proof.
  destruct (main env0 [lit "asm"; lit "x.txt"; lit "prog.as"] world0) as [c w'| | |] eqn:H;
    try (vm_compute in H; discriminate).
  assert (Hc : c = 0) by (vm_compute in H; congruence). subst c.
  exists w'. split; [reflexivity|]. exact (main_handles_every_argument _ _ _ _ _ H).
Defined.

Lemma main_assembles_sources_witness :
  main env0 (lit "asm" :: map (fun s => s.1 ++ lit ".as") [(lit "prog", sample_items)]) world0 =
  assemble_sources env0 1 [(lit "prog", sample_items)] (main_init env0) world0.
Proof.
  apply main_assembles_sources; [discriminate|].
  constructor; [|constructor]. unfold source_ok. cbn [fst snd].
  split; [reflexivity|]. split; [discriminate|]. split; [vm_compute; reflexivity|].
  split; [reflexivity|vm_compute; reflexivity].
Defined.

Lemma failing_file_writes_no_output_witness :
  exists st', assembleFile (line_ind env0 1) (expand [] failing_items) (main_init env0) = Ok (true, st') /\
  process_file env0 1 (lit "fail" ++ lit ".as") (main_init env0) world_errors =
  inr (st', mkWorld (fs_write (files world_errors) (lit "fail" ++ lit ".am") (expand [] failing_items))
                    (stdout world_errors ++ processing_message (lit "fail" ++ lit ".as")
                     ++ print_labels (labelTable st'))).
Proof.
  destruct (assembleFile (line_ind env0 1) (expand [] failing_items) (main_init env0))
    as [[e st']| |] eqn:Ha; try (vm_compute in Ha; discriminate).
  assert (e = true) as -> by (vm_compute in Ha; congruence).
  exists st'. split; [reflexivity|].
  apply failing_file_writes_no_output; [reflexivity|discriminate|vm_compute; reflexivity|reflexivity|
    vm_compute; reflexivity|exact Ha].
Defined.

Lemma exit_ends_main_witness :
  main env0 [lit "asm"; lit "bad" ++ lit ".as"; lit "prog.as"] world_errors =
  Exited 1 (mkWorld (fs_write (files world_errors) (lit "bad" ++ lit ".am") (expand [] exiting_items))
                    (stdout world_errors ++ processing_message (lit "bad" ++ lit ".as"))).
Proof.
  apply exit_ends_main; [reflexivity|discriminate|vm_compute; reflexivity|reflexivity|
    vm_compute; reflexivity|vm_compute; reflexivity].
Defined.

End Runs.
